(** * BDF spectrum visualisation tool: embedding of [src/main.cpp]

    The program synthesises one curve per input file over a grid of
    abscissas, scales a shared set of axes, and exports the chart.  All
    quantities are C++ [double]s: they are modelled here by Rocq's
    primitive binary64 floats, each arithmetic operation and comparison
    being rounded on its own as IEEE 754 prescribes (no fused
    multiply-add, no extended precision).  The three transcendental
    functions the program takes from the C library ([exp], [log10],
    [pow]) are a parameter of the development (record [Libm]); only their
    values at zeros, infinities and NaN, which Annex F of the C standard
    fixes, are built in.

    Loops that may run forever carry a [fuel] argument and return [None]
    when it runs out; memory is taken to be unbounded, so a loop that does
    not end never raises [std::bad_alloc].  Console output is kept only
    where it reports the outcome of a run, and the interactive viewer is
    taken to return once its window is closed.

    What the process finds around it is a parameter as well: which files
    open, which paths exist, the value of [HOME], and how importing the
    configuration module ends (record [Environment]); the Python
    objects of the module are modelled as far as the getters of the
    program tell them apart, and [std::filesystem::exists] is taken not to
    fail. *)

From Stdlib Require Import Floats ZArith Lia List String Ascii Bool.
From Stdlib Require Uint63.
Import ListNotations.
Set Warnings "-inexact-float".
Open Scope string_scope.

(** ** binary64 helpers *)

Module Double.
Open Scope float_scope.

(** Conversion of a C++ [int] to [double] (exact below 2^53). *)
Definition of_int (z : Z) : float :=
  if (z <? 0)%Z then - of_uint63 (Uint63.of_Z (- z))
  else of_uint63 (Uint63.of_Z z).

(** [std::numeric_limits<double>::max()] and [lowest()]. *)
Definition DBL_MAX : float := SF2Prim (SFmax_float prec emax).
Definition DBL_LOWEST : float := - DBL_MAX.

(** [a >= b] on doubles. *)
Definition geb (a b : float) : bool := b <=? a.

(** [std::floor]: the largest integral double not above [x]; zeros,
    infinities and NaN are returned unchanged. *)
Definition SFfloor (x : spec_float) : spec_float :=
  match x with
  | S754_finite s m e =>
      if (0 <=? e)%Z then x
      else
        let q := Z.shiftr (Zpos m) (- e) in
        let exact := (Z.shiftl q (- e) =? Zpos m)%Z in
        if s then
          binary_normalize prec emax (- (if exact then q else q + 1)) 0 true
        else binary_normalize prec emax q 0 false
  | _ => x
  end.

Definition floor (x : float) : float := SF2Prim (SFfloor (Prim2SF x)).

(** [std::ceil], by the identity ceil(x) = -floor(-x), which also gives
    the sign of zero the C library returns. *)
Definition ceil (x : float) : float := - floor (- x).

(** [std::min] and [std::max] as the standard defines them. *)
Definition min (a b : float) : float := if b <? a then b else a.
Definition max (a b : float) : float := if a <? b then b else a.

(** [*std::min_element(first, last)] and [*std::max_element]: the first
    smallest (largest) element under [<]; dereferencing the result on an
    empty range is undefined, modelled by [None]. *)
Definition min_element (l : list float) : option float :=
  match l with
  | [] => None
  | y :: ys => Some (fold_left (fun smallest v => if v <? smallest then v else smallest) ys y)
  end.

Definition max_element (l : list float) : option float :=
  match l with
  | [] => None
  | y :: ys => Some (fold_left (fun largest v => if largest <? v then v else largest) ys y)
  end.

(** The loop shape shared by the abscissa grid and the tick generator:
    [for (x = start; x <= bound; x += step) out.push_back(x);] *)
Fixpoint push_while_le (fuel : nat) (x bound step : float) : option (list float) :=
  match fuel with
  | O => None
  | S fuel' =>
      if x <=? bound then
        option_map (cons x) (push_while_le fuel' (x + step) bound step)
      else Some []
  end.

(** Value of the loop variable after [k] additions. *)
Fixpoint after_steps (k : nat) (x step : float) : float :=
  match k with
  | O => x
  | S k' => after_steps k' (x + step) step
  end.

(** An order-preserving rank of the binary64 values (NaN excluded), used
    to bound the length of increasing runs. *)
Definition rank_top : Z := 2 ^ 64.

Definition SFrank (x : spec_float) : Z :=
  match x with
  | S754_nan => 0
  | S754_zero _ => 0
  | S754_infinity s => if s then - rank_top else rank_top
  | S754_finite s m e =>
      let v := ((e + 1075) * 2 ^ 53 + Zpos m)%Z in
      if s then (- v)%Z else v
  end.

Definition rank (x : float) : Z := SFrank (Prim2SF x).

(** The weight of the exponent [e] in units of the smallest positive
    double, 2^-1074: a finite double [m * 2^e] is the integer
    [m * weight e] of such units. *)
Definition weight (e : Z) : Z := (2 ^ (e + 1074))%Z.

(** [b] is [a] shifted right by [k] bits: the mantissa is divided by
    2^k, and the round and sticky bits stay clear when no set bit is
    shifted out. *)
Definition shifted (k : Z) (a b : shr_record) : Prop :=
  (shr_m b = shr_m a / 2 ^ k
   /\ (shr_r a = false -> shr_s a = false -> shr_m a mod 2 ^ k = 0 ->
       shr_r b = false /\ shr_s b = false))%Z.
End Double.

(** ** The C library *)

(** Results of the library on ordinary arguments. *)
Record Libm := {
  lm_exp : float -> float;
  lm_log10 : float -> float;
  lm_pow : float -> float -> float
}.

Section CMath.
Context (L : Libm).
Open Scope float_scope.

Definition exp (x : float) : float := lm_exp L x.

(** [std::log10]; C11 F.10.3.8: log10(+-0) = -inf, log10(x<0) = NaN,
    log10(+inf) = +inf. *)
Definition log10 (x : float) : float :=
  if is_nan x then nan
  else if is_zero x then neg_infinity
  else if x <? 0 then nan
  else if is_infinity x then infinity
  else lm_log10 L x.

(** [std::pow]; C11 F.10.4.4: pow(x, +-0) = 1, pow(1, y) = 1, and
    pow(x, -inf), pow(x, +inf) by the size of |x|. *)
Definition pow (x y : float) : float :=
  if is_zero y then 1
  else if x =? 1 then 1
  else if is_nan x || is_nan y then nan
  else if is_infinity y then
    if abs x =? 1 then 1
    else if xorb (1 <? abs x) (get_sign y) then infinity
    else 0
  else lm_pow L x y.
End CMath.

(** ** Data model *)

(** Constants of lines 38-44 that the parameter record uses. *)
Definition EV_TO_CM_MINUS_1 : float := 8065.54477.
Definition KB_EV_PER_K : float := 1.3806504e-23 / 1.602176487e-19.
Definition ROOM_TEMP_K : float := 298.15.

(** [struct PlotSpecParams], with the defaults of its member initialisers
    in [default_params]. *)
Record PlotSpecParams := {
  mode : string;
  unit : string;
  x_start : float;
  x_end : float;
  interval : float;
  user_set_interval : bool;
  fwhm_cm_minus_1 : float;
  input_filenames : list string;
  legend_names : list string;
  output_format : string;
  output_filename : string;
  interactive : bool;
  kT_eV : float
}.

Definition default_params : PlotSpecParams := {|
  mode := "abs";
  unit := "nm";
  x_start := 200.0;
  x_end := 1000.0;
  interval := 1.0;
  user_set_interval := false;
  fwhm_cm_minus_1 := 0.5 * EV_TO_CM_MINUS_1;
  input_filenames := [];
  legend_names := [];
  output_format := "svg";
  output_filename := "spectrum_plot";
  interactive := true;
  kT_eV := ROOM_TEMP_K * KB_EV_PER_K
|}.

Definition with_mode (m : string) (p : PlotSpecParams) : PlotSpecParams := {|
  mode := m;
  unit := unit p;
  x_start := x_start p;
  x_end := x_end p;
  interval := interval p;
  user_set_interval := user_set_interval p;
  fwhm_cm_minus_1 := fwhm_cm_minus_1 p;
  input_filenames := input_filenames p;
  legend_names := legend_names p;
  output_format := output_format p;
  output_filename := output_filename p;
  interactive := interactive p;
  kT_eV := kT_eV p
|}.

(** [struct SpectrumData]; a default-constructed one has empty vectors and
    empty strings. *)
Record SpectrumData := {
  x_values : list float;
  y_values : list float;
  x_label : string;
  y_label : string;
  title : string
}.

(** How a call ends: it returns, it throws [std::runtime_error], it is
    still running when the fuel is spent, or it has undefined behaviour. *)
Inductive outcome (A : Type) : Type :=
| Returned (a : A)
| Thrown (what : string)
| Diverged
| Undefined.
Arguments Returned {A} a.
Arguments Thrown {A} what.
Arguments Diverged {A}.
Arguments Undefined {A}.

(** ** Utility functions, lines 73-87 *)

(** [split_string]: [std::getline] with a delimiter, repeated until the
    stream fails.  A token ends at each delimiter; what follows the last
    delimiter is a token only when it is not empty, since [getline] fails
    when it extracts nothing at the end of the stream.  [token] holds the
    characters read since the last delimiter. *)
Fixpoint split_tokens (delimiter : ascii) (s token : string) : list string :=
  match s with
  | EmptyString => if (token =? "")%string then [] else [token]
  | String c s' =>
      if Ascii.eqb c delimiter then token :: split_tokens delimiter s' ""
      else split_tokens delimiter s' (token ++ String c "")
  end.

Definition split_string (s : string) (delimiter : ascii) : list string :=
  split_tokens delimiter s "".

(** [std::tolower] on an [unsigned char] in the "C" locale, the only one
    the program runs under: the letters A to Z move by 32. *)
Definition tolower (c : ascii) : ascii :=
  let n := nat_of_ascii c in
  if (65 <=? n)%nat && (n <=? 90)%nat then ascii_of_nat (n + 32) else c.

Fixpoint to_lower_cpp (s : string) : string :=
  match s with
  | EmptyString => EmptyString
  | String c s' => String (tolower c) (to_lower_cpp s')
  end.

(** ** Opening the input file *)

Fixpoint starts_with (value prefix : list ascii) : bool :=
  match prefix, value with
  | [], _ => true
  | _ :: _, [] => false
  | c :: prefix', d :: value' => Ascii.eqb c d && starts_with value' prefix'
  end.

(** [ends_with]: [std::equal] over the reversed ranges, after the length
    test. *)
Definition ends_with (value ending : string) : bool :=
  if (String.length value <? String.length ending)%nat then false
  else starts_with (rev (list_ascii_of_string value)) (rev (list_ascii_of_string ending)).

(** The name under which [calculate_single_spectrum] manages to open its
    input, if any; [can_open] says which names [std::ifstream::open]
    succeeds on. *)
Definition open_input (can_open : string -> bool) (filename : string) : option string :=
  if can_open filename then Some filename
  else if negb (ends_with filename ".out") && negb (ends_with filename ".log") then
    if can_open (filename ++ ".out") then Some (filename ++ ".out")
    else if can_open (filename ++ ".log") then Some (filename ++ ".log")
    else None
  else None.

(** ** Synthesis: [calculate_single_spectrum] *)

Section Synthesis.
Context (L : Libm).
Import Double.
Open Scope float_scope.
Local Abbreviation exp := (exp L).
Local Abbreviation pow := (pow L).

(** The abscissa loop, lines 373-378. *)
Definition generate_x_values (fuel : nat) (params : PlotSpecParams) : option (list float) :=
  push_while_le fuel (x_start params) (x_end params + 1e-8) (interval params).

Definition shift_factor_of (file_index : Z) : float := of_int file_index * 20.0.
Definition intensity_factor_of (file_index : Z) : float := 1.0 - of_int file_index * 0.15.

(** Body of the [mode == "abs"] loop for one abscissa. *)
Definition abs_intensity (unit : string) (intensity_factor shift_factor x : float) : float :=
  let intensity := 0.0 in
  if (unit =? "nm")%string then
    let intensity := intensity + intensity_factor * 15000 * exp (- pow ((x - 280 - shift_factor) / 15) 2) in
    let intensity := intensity + intensity_factor * 12000 * exp (- pow ((x - 320 - shift_factor) / 20) 2) in
    let intensity := intensity + intensity_factor * 8000 * exp (- pow ((x - 420 - shift_factor) / 25) 2) in
    let intensity := intensity + intensity_factor * 5000 * exp (- pow ((x - 520 - shift_factor) / 30) 2) in
    intensity
  else if (unit =? "eV")%string then
    let eV_shift := shift_factor / 1000.0 in
    let intensity := intensity + intensity_factor * 15000 * exp (- pow ((x - 3.1 - eV_shift) / 0.15) 2) in
    let intensity := intensity + intensity_factor * 12000 * exp (- pow ((x - 3.9 - eV_shift) / 0.2) 2) in
    let intensity := intensity + intensity_factor * 8000 * exp (- pow ((x - 4.4 - eV_shift) / 0.1) 2) in
    intensity
  else if (unit =? "cm-1")%string then
    let cm_shift := shift_factor * 100 in
    let intensity := intensity + intensity_factor * 15000 * exp (- pow ((x - 25000 - cm_shift) / 2000) 2) in
    let intensity := intensity + intensity_factor * 12000 * exp (- pow ((x - 31000 - cm_shift) / 1500) 2) in
    let intensity := intensity + intensity_factor * 8000 * exp (- pow ((x - 35000 - cm_shift) / 1000) 2) in
    intensity
  else intensity.

(** Body of the [mode == "emi"] loop. *)
Definition emi_intensity (unit : string) (intensity_factor shift_factor x : float) : float :=
  let intensity := 0.0 in
  if (unit =? "nm")%string then
    let intensity := intensity + intensity_factor * 0.9 * exp (- pow ((x - 350 - shift_factor) / 20) 2) in
    let intensity := intensity + intensity_factor * 0.7 * exp (- pow ((x - 450 - shift_factor) / 25) 2) in
    let intensity := intensity + intensity_factor * 0.5 * exp (- pow ((x - 550 - shift_factor) / 30) 2) in
    intensity
  else if (unit =? "eV")%string then
    let eV_shift := shift_factor / 1000.0 in
    let intensity := intensity + intensity_factor * 0.9 * exp (- pow ((x - 2.8 - eV_shift) / 0.15) 2) in
    let intensity := intensity + intensity_factor * 0.7 * exp (- pow ((x - 3.2 - eV_shift) / 0.2) 2) in
    let intensity := intensity + intensity_factor * 0.5 * exp (- pow ((x - 3.6 - eV_shift) / 0.1) 2) in
    intensity
  else intensity.

(** Body of the [mode == "cd" || mode == "cdl"] loop. *)
Definition cd_intensity (unit : string) (intensity_factor shift_factor x : float) : float :=
  let intensity := 0.0 in
  if (unit =? "nm")%string then
    let intensity := intensity + intensity_factor * 50 * exp (- pow ((x - 260 - shift_factor) / 15) 2) in
    let intensity := intensity - intensity_factor * 40 * exp (- pow ((x - 300 - shift_factor) / 20) 2) in
    let intensity := intensity + intensity_factor * 30 * exp (- pow ((x - 340 - shift_factor) / 18) 2) in
    let intensity := intensity - intensity_factor * 20 * exp (- pow ((x - 380 - shift_factor) / 25) 2) in
    intensity
  else if (unit =? "eV")%string then
    let eV_shift := shift_factor / 1000.0 in
    let intensity := intensity + intensity_factor * 50 * exp (- pow ((x - 4.0 - eV_shift) / 0.15) 2) in
    let intensity := intensity - intensity_factor * 40 * exp (- pow ((x - 3.5 - eV_shift) / 0.2) 2) in
    let intensity := intensity + intensity_factor * 30 * exp (- pow ((x - 3.0 - eV_shift) / 0.18) 2) in
    intensity
  else intensity.

(** Lines 458-465. *)
Definition x_label_of (unit : string) : string :=
  if (unit =? "nm")%string then "Wavelength (nm)"
  else if (unit =? "eV")%string then "Energy (eV)"
  else if (unit =? "cm-1")%string then "Wavenumber (cm⁻¹)"
  else "".

(** Lines 371-467, once the grid [xs] is known. *)
Definition synthesize (params : PlotSpecParams) (file_index : Z) (xs : list float) : SpectrumData :=
  let shift_factor := shift_factor_of file_index in
  let intensity_factor := intensity_factor_of file_index in
  let zeros := repeat 0.0 (List.length xs) in
  let by_mode : list float * string * string :=
    if (mode params =? "abs")%string then
      (map (abs_intensity (unit params) intensity_factor shift_factor) xs,
       "Molar Absorptivity (L/(mol·cm))"%string, "Absorption Spectra"%string)
    else if (mode params =? "emi")%string then
      (map (emi_intensity (unit params) intensity_factor shift_factor) xs,
       "Emission Intensity (arb. units)"%string, "Emission Spectra"%string)
    else if (mode params =? "cd")%string || (mode params =? "cdl")%string then
      (map (cd_intensity (unit params) intensity_factor shift_factor) xs,
       "Δε (L/(mol·cm))"%string, "Circular Dichroism Spectra"%string)
    else (zeros, ""%string, ""%string) in
  {| x_values := xs;
     y_values := fst (fst by_mode);
     x_label := x_label_of (unit params);
     y_label := snd (fst by_mode);
     title := snd by_mode |}.

Definition calculate_single_spectrum (can_open : string -> bool) (fuel : nat)
    (filename : string) (params : PlotSpecParams) (file_index : Z) : outcome SpectrumData :=
  match open_input can_open filename with
  | None => Thrown ("Cannot open BDF output file: " ++ filename)
  | Some _ =>
      match generate_x_values fuel params with
      | None => Diverged
      | Some xs => Returned (synthesize params file_index xs)
      end
  end.

(** [calculate_multiple_spectra]: one call per input file, in order, the
    position in the list being the file index. *)
Fixpoint spectra_from (can_open : string -> bool) (fuel : nat) (params : PlotSpecParams)
    (i : Z) (files : list string) : outcome (list SpectrumData) :=
  match files with
  | [] => Returned []
  | f :: rest =>
      match calculate_single_spectrum can_open fuel f params i with
      | Returned s =>
          match spectra_from can_open fuel params (i + 1) rest with
          | Returned ss => Returned (s :: ss)
          | other => other
          end
      | Thrown what => Thrown what
      | Diverged => Diverged
      | Undefined => Undefined
      end
  end.

(** The closing message reads [spectra[0]], which does not exist when
    there is no input file. *)
Definition calculate_multiple_spectra (can_open : string -> bool) (fuel : nat)
    (params : PlotSpecParams) : outcome (list SpectrumData) :=
  match spectra_from can_open fuel params 0 (input_filenames params) with
  | Returned [] => Undefined
  | other => other
  end.
End Synthesis.

(** ** Axis scaling and export: [create_and_export_multiple_plots] *)

Record AxisPlan := {
  y_min : float;
  y_max : float;
  x_ticks : list float;
  y_ticks : list float
}.

(** What the export step hands to the writers of the rendering library. *)
Inductive artifact : Type :=
| GL2PS (file_format file_prefix : string)
| PNG (file_name : string)
| JPEG (file_name : string) (quality : Z).

Record ChartRun := {
  plan : AxisPlan;
  written : list artifact;
  printed : list string
}.

Section Chart.
Context (L : Libm).
Import Double.
Open Scope float_scope.

(** The step chosen by the lambda [calculateNiceTicks], lines 511-522. *)
Definition nice_step_of (min_val max_val : float) (target_ticks : Z) : float :=
  let range := max_val - min_val in
  let rough_step := range / of_int (target_ticks - 1) in
  let magnitude := pow L 10 (floor (log10 L rough_step)) in
  let normalized := rough_step / magnitude in
  if normalized <=? 1.0 then magnitude
  else if normalized <=? 2.0 then 2 * magnitude
  else if normalized <=? 5.0 then 5 * magnitude
  else 10 * magnitude.

(** Lines 510-531. *)
Definition calculateNiceTicks (fuel : nat) (min_val max_val : float) (target_ticks : Z)
    : option (list float) :=
  let nice_step := nice_step_of min_val max_val target_ticks in
  let start := ceil (min_val / nice_step) * nice_step in
  push_while_le fuel start (max_val + nice_step * 0.1) nice_step.

(** Lines 534-542: the running minimum and maximum over all spectra. *)
Fixpoint overall_y_range (spectra : list SpectrumData) (overall_y_min overall_y_max : float)
    : option (float * float) :=
  match spectra with
  | [] => Some (overall_y_min, overall_y_max)
  | spectrum :: rest =>
      match min_element (y_values spectrum), max_element (y_values spectrum) with
      | Some spec_min, Some spec_max =>
          overall_y_range rest (min overall_y_min spec_min) (max overall_y_max spec_max)
      | _, _ => None
      end
  end.

(** Lines 544-555: padding and the floor at zero. *)
Definition y_axis_range (mode : string) (overall_y_min overall_y_max : float) : float * float :=
  let y_range := overall_y_max - overall_y_min in
  let y_padding := y_range * 0.1 in
  let y_min := overall_y_min - y_padding in
  let y_max := overall_y_max + y_padding in
  if negb (mode =? "cd")%string && negb (mode =? "cdl")%string && geb overall_y_min 0 then
    (0, overall_y_max + y_range * 0.1)
  else (y_min, y_max).

(** Lines 667-708: the dispatch on [output_format]. *)
Definition export_plot (params : PlotSpecParams) : list artifact :=
  let fmt := output_format params in
  let full_output_name := (output_filename params ++ "." ++ fmt)%string in
  if (fmt =? "svg")%string || (fmt =? "eps")%string || (fmt =? "pdf")%string then
    [GL2PS fmt (output_filename params)]
  else if (fmt =? "png")%string || (fmt =? "jpg")%string || (fmt =? "jpeg")%string then
    if (fmt =? "png")%string then [PNG full_output_name]
    else [JPEG full_output_name 95]
  else [].

(** Lines 498-717.  After the tick loops the function reads
    [spectra[0]] (line 591), [spectrum.y_values[i]] for every index of
    [spectrum.x_values] (line 637) and [params.legend_names[spec_idx]]
    (line 653); each of them is undefined out of range. *)
Definition create_and_export_multiple_plots (fuel : nat) (spectra : list SpectrumData)
    (params : PlotSpecParams) : outcome ChartRun :=
  match overall_y_range spectra DBL_MAX DBL_LOWEST with
  | None => Undefined
  | Some (overall_y_min, overall_y_max) =>
      let '(y_min, y_max) := y_axis_range (mode params) overall_y_min overall_y_max in
      match calculateNiceTicks fuel (x_start params) (x_end params) 6 with
      | None => Diverged
      | Some x_ticks =>
          match calculateNiceTicks fuel y_min y_max 6 with
          | None => Diverged
          | Some y_ticks =>
              if (List.length spectra =? 0)%nat
                 || (List.length (legend_names params) <? List.length spectra)%nat
                 || existsb
                      (fun spectrum =>
                         (List.length (y_values spectrum)
                          <? List.length (x_values spectrum))%nat)
                      spectra
              then Undefined
              else
                Returned {|
                  plan := {| y_min := y_min; y_max := y_max;
                             x_ticks := x_ticks; y_ticks := y_ticks |};
                  written := export_plot params;
                  printed :=
                    ("Plot exported to: " ++ output_filename params ++ "."
                       ++ output_format params)%string
                    :: (if interactive params
                        then ["Starting interactive viewer... (Close window to exit)"%string]
                        else [])
                |}
          end
      end
  end.
End Chart.

(** ** The process: [main] *)

Definition EXIT_SUCCESS : Z := 0.
Definition EXIT_FAILURE : Z := 1.

(** What a finished process leaves behind: its exit code, the lines of
    standard output that report the export, the error channel, and the
    files handed to the writers. *)
Record ProcessResult := {
  exit_code : Z;
  reported : list string;
  error_channel : list string;
  files : list artifact
}.

Definition failed (what : string) : ProcessResult := {|
  exit_code := EXIT_FAILURE;
  reported := [];
  error_channel := ["Error: " ++ what];
  files := []
|}.

(** [main] from the point where [parse_arguments] has collected the input
    files and the configuration collaborator has filled in [params].
    [None]: the process does not finish within [fuel], or its behaviour is
    undefined. *)
Definition main (L : Libm) (can_open : string -> bool) (fuel : nat)
    (params : PlotSpecParams) : option ProcessResult :=
  match input_filenames params with
  | [] => Some (failed "No input files provided")
  | _ :: _ =>
      match calculate_multiple_spectra L can_open fuel params with
      | Thrown what => Some (failed what)
      | Diverged | Undefined => None
      | Returned spectra =>
          match create_and_export_multiple_plots L fuel spectra params with
          | Thrown what => Some (failed what)
          | Diverged | Undefined => None
          | Returned run =>
              Some {| exit_code := EXIT_SUCCESS;
                      reported := printed run ++ ["Processing completed successfully!"];
                      error_channel := [];
                      files := written run |}
          end
      end
  end.

(** The formats with an export path. *)
Definition supported_format (fmt : string) : bool :=
  existsb (String.eqb fmt) ["svg"; "eps"; "pdf"; "png"; "jpg"; "jpeg"].

(** ** The configuration file: [read_config_file] *)

(** The Python objects the getters of lines 132-168 tell apart.  [PyLong]
    also stands for [bool], a subclass of [int]; [PyUnicode] carries the
    UTF-8 encoding of a string that has one. *)
#[local] Unset Elimination Schemes.
Inductive PyObject : Type :=
| PyUnicode (utf8 : string)
| PyFloat (value : float)
| PyLong (value : Z)
| PyList (items : list PyObject)
| PyOther.
#[local] Set Elimination Schemes.

(** Construction of a [std::string] from the [char*] that
    [PyBytes_AsString] returns: the bytes before the first NUL. *)
Fixpoint c_string (bytes : string) : string :=
  match bytes with
  | EmptyString => EmptyString
  | String c rest => if Ascii.eqb c zero then EmptyString else String c (c_string rest)
  end.

Definition get_python_string (obj : PyObject) : string :=
  match obj with
  | PyUnicode utf8 => c_string utf8
  | _ => ""
  end.

(** [PyLong_AsDouble]: the integer rounded to the nearest double, ties to
    even; an integer too large for a double yields -1.0 (the pending
    [OverflowError] is never looked at by the caller). *)
Definition PyLong_AsDouble (value : Z) : float :=
  let rounded := SF2Prim (binary_normalize prec emax value 0 false) in
  if is_infinity rounded then (-1.0)%float else rounded.

Definition get_python_double (obj : PyObject) : float :=
  match obj with
  | PyFloat value => value
  | PyLong value => PyLong_AsDouble value
  | _ => 0.0%float
  end.

Definition get_python_string_list (obj : PyObject) : list string :=
  match obj with
  | PyList items =>
      filter (fun str_val => negb (str_val =? "")) (map get_python_string items)
  | _ => []
  end.

(** How [PyImport_ImportModule] on the configuration ends, with what the
    [PyErr_Print] of line 194 does on a failure: the module is loaded and
    has a dictionary; the script raises an exception, and [PyErr_Print]
    writes its traceback to the error channel and returns; the script
    raises [SystemExit], on which [PyErr_Print] writes the message of the
    exception, if any, and ends the process with its status; or the
    script does not return. *)
Inductive import_result : Type :=
| Imported (module_dict : string -> option PyObject)
| ImportError (traceback : list string)
| SystemExit (status : Z) (message : list string)
| ImportHangs.

(** What the process finds around it: whether the interpreter starts,
    how importing the configuration at a given path ends, which paths
    exist, and the value of [HOME]. *)
Record Environment := {
  python_starts : bool;
  import_config : string -> import_result;
  file_exists : string -> bool;
  home : option string
}.

(** How a call that may end the process ends: as a call does, or in
    [exit]. *)
Inductive ending (A : Type) : Type :=
| Ended (result : outcome A)
| Exited (status : Z).
Arguments Ended {A} result.
Arguments Exited {A} status.

(** [if (obj) params.field = getter(obj);] *)
Definition configured {A : Type} (module_dict : string -> option PyObject) (key : string)
    (getter : PyObject -> A) (default : A) : A :=
  match module_dict key with
  | Some obj => getter obj
  | None => default
  end.

(** Lines 171-269: the lines the interpreter writes to the error
    channel, and how the call ends.  The two [PyRun_SimpleString] calls
    of lines 187-189 are taken to run silently, as they do when the
    directory of the path holds no quote and no backslash. *)
Definition read_config_file (env : Environment) (config_path : string)
    : list string * ending PlotSpecParams :=
  if negb (python_starts env) then
    ([], Ended (Thrown "Failed to initialize Python interpreter"))
  else
    match import_config env config_path with
    | ImportError traceback =>
        (traceback, Ended (Thrown ("Failed to import config file: " ++ config_path)))
    | SystemExit status message => (message, Exited status)
    | ImportHangs => ([], Ended Diverged)
    | Imported module_dict =>
        let params := default_params in
        let unit_read := configured module_dict "unit" get_python_string (unit params) in
        let user_set :=
          match module_dict "interval" with
          | Some _ => true
          | None => user_set_interval params
          end in
        let interval_read :=
          configured module_dict "interval" get_python_double (interval params) in
        ([], Ended (Returned {|
          mode := configured module_dict "mode" get_python_string (mode params);
          unit := unit_read;
          x_start := configured module_dict "x_start" get_python_double (x_start params);
          x_end := configured module_dict "x_end" get_python_double (x_end params);
          interval :=
            if negb user_set then
              if unit_read =? "cm-1" then 100.0%float
              else if unit_read =? "eV" then 0.01%float
              else 1.0%float
            else interval_read;
          user_set_interval := user_set;
          fwhm_cm_minus_1 :=
            configured module_dict "fwhm_ev"
              (fun obj => (get_python_double obj * EV_TO_CM_MINUS_1)%float)
              (fwhm_cm_minus_1 params);
          input_filenames := input_filenames params;
          legend_names :=
            configured module_dict "legend_names" get_python_string_list (legend_names params);
          output_format :=
            configured module_dict "output_format" get_python_string (output_format params);
          output_filename :=
            configured module_dict "output_filename" get_python_string (output_filename params);
          interactive := interactive params;
          kT_eV := kT_eV params
        |}))
    end.

(** Lines 272-289. *)
Definition find_config_file (env : Environment) : outcome string :=
  let local_config := "./spectrum_config.py" in
  if file_exists env local_config then Returned local_config
  else
    let not_found :=
      Thrown "Config file not found. Please create spectrum_config.py in current directory or home directory." in
    match home env with
    | Some home_dir =>
        let home_config := home_dir ++ "/spectrum_config.py" in
        if file_exists env home_config then Returned home_config else not_found
    | None => not_found
    end.

(** ** The command line: [parse_arguments] *)

(** [std::filesystem::path(p).filename()] for a POSIX path: what follows
    the last slash.  [after_last c s] is [None] when [c] does not occur
    in [s]. *)
Fixpoint after_last (c : ascii) (s : string) : option string :=
  match s with
  | EmptyString => None
  | String a s' =>
      match after_last c s' with
      | Some t => Some t
      | None => if Ascii.eqb a c then Some s' else None
      end
  end.

Fixpoint before_last (c : ascii) (s : string) : option string :=
  match s with
  | EmptyString => None
  | String a s' =>
      match before_last c s' with
      | Some t => Some (String a t)
      | None => if Ascii.eqb a c then Some EmptyString else None
      end
  end.

Definition path_filename (p : string) : string :=
  match after_last "/" p with
  | Some name => name
  | None => p
  end.

(** [path::stem()]: the file name without its last extension; the names
    "." and "..", and a name whose only period comes first, are their own
    stem. *)
Definition path_stem (p : string) : string :=
  let name := path_filename p in
  if (String.length name <=? 2)%nat && starts_with (list_ascii_of_string name) ["."%char]
  then name
  else
    match before_last "." name with
    | None => name
    | Some EmptyString => name
    | Some stem => stem
    end.

(** What the loop over [argv] of lines 302-316 has gathered when it ends,
    unless it meets a request for help first. *)
Inductive scanned : Type :=
| Help
| Scanned (config_file_path : string) (input_files : list string) (interactive : bool).

Fixpoint scan_arguments (args : list string) (config_file_path : string)
    (input_files : list string) (interactive : bool) : scanned :=
  match args with
  | [] => Scanned config_file_path input_files interactive
  | arg :: rest =>
      if (arg =? "-help") || (arg =? "--help") then Help
      else if arg =? "-no-interactive" then
        scan_arguments rest config_file_path input_files false
      else if substring 0 8 arg =? "-config=" then
        scan_arguments rest (substring 8 (String.length arg - 8) arg) input_files interactive
      else scan_arguments rest config_file_path (input_files ++ [arg]) interactive
  end.

(** Lines 331-341: the overrides from the command line and the legend
    names. *)
Definition with_command_line (params : PlotSpecParams) (input_files : list string)
    (interactive_flag : bool) : PlotSpecParams := {|
  mode := mode params;
  unit := unit params;
  x_start := x_start params;
  x_end := x_end params;
  interval := interval params;
  user_set_interval := user_set_interval params;
  fwhm_cm_minus_1 := fwhm_cm_minus_1 params;
  input_filenames := input_files;
  legend_names :=
    if (List.length (legend_names params) =? 0)%nat
       || negb (List.length (legend_names params) =? List.length input_files)%nat
    then map path_stem input_files
    else legend_names params;
  output_format := output_format params;
  output_filename := output_filename params;
  interactive := interactive_flag;
  kT_eV := kT_eV params
|}.

(** Lines 291-345; [args] is [argv] without the program name.  The
    result pairs the lines the interpreter has written to the error
    channel with the way the call ends. *)
Definition parse_arguments (env : Environment) (args : list string)
    : list string * ending PlotSpecParams :=
  match args with
  | [] => ([], Exited 1)
  | _ :: _ =>
      match scan_arguments args "" [] true with
      | Help => ([], Exited 0)
      | Scanned config_file_path input_files interactive_flag =>
          match input_files with
          | [] => ([], Ended (Thrown "No input files provided"))
          | _ :: _ =>
              let found :=
                if config_file_path =? "" then find_config_file env
                else Returned config_file_path in
              match found with
              | Returned path =>
                  match read_config_file env path with
                  | (python_errors, Ended (Returned params)) =>
                      (python_errors,
                       Ended (Returned
                                (with_command_line params input_files interactive_flag)))
                  | other => other
                  end
              | Thrown what => ([], Ended (Thrown what))
              | Diverged => ([], Ended Diverged)
              | Undefined => ([], Ended Undefined)
              end
          end
      end
  end.

(** The outcome of [main] with the lines [python_errors] already on the
    error channel. *)
Definition after_python_errors (python_errors : list string) (r : ProcessResult)
    : ProcessResult := {|
  exit_code := exit_code r;
  reported := reported r;
  error_channel := python_errors ++ error_channel r;
  files := files r
|}.

(** [main] from [argv].  A process that ends in [exit] leaves on the
    error channel only what the interpreter wrote; an exception reaches
    the handler of lines 738-742, which adds its own line. *)
Definition main_from_argv (L : Libm) (env : Environment) (can_open : string -> bool)
    (fuel : nat) (args : list string) : option ProcessResult :=
  let '(python_errors, parsed) := parse_arguments env args in
  match parsed with
  | Exited status =>
      Some {| exit_code := status; reported := [];
              error_channel := python_errors; files := [] |}
  | Ended (Returned params) =>
      option_map (after_python_errors python_errors) (main L can_open fuel params)
  | Ended (Thrown what) => Some (after_python_errors python_errors (failed what))
  | Ended Diverged | Ended Undefined => None
  end.

(** ** A small C library

    An executable instance of [Libm], accurate to about twelve significant
    digits, for running the model on concrete inputs.  The general theorems
    quantify over every instance. *)

Module RefLibm.
Import Double.
Open Scope float_scope.

(** exp by halving the argument ten times, a Taylor polynomial, and ten
    squarings. *)
Definition exp_small (r : float) : float :=
  fold_right (fun k acc => 1 + r / k * acc) 1
    [1; 2; 3; 4; 5; 6; 7; 8; 9; 10; 11; 12; 13; 14].

Definition ref_exp (x : float) : float :=
  Nat.iter 10 (fun y => y * y) (exp_small (x / 1024)).

(** Natural logarithm of a positive finite double: split off the binary
    exponent, then 2 atanh((m-1)/(m+1)). *)
Definition ln2 : float := 0.6931471805599453.
Definition ln10 : float := 2.302585092994046.

Definition ref_ln (x : float) : float :=
  let '(m, e) := FloatOps.Z.frexp x in
  let t := (m - 1) / (m + 1) in
  let t2 := t * t in
  let series :=
    fold_right (fun k acc => 1 / k + t2 * acc) 0
      [1; 3; 5; 7; 9; 11; 13; 15; 17; 19; 21; 23; 25; 27; 29; 31; 33; 35; 37; 39; 41] in
  of_int e * ln2 + 2 * t * series.

Definition ref_log10 (x : float) : float := ref_ln x / ln10.

(** The integer a double denotes when it is integral. *)
Definition integral_value (y : float) : option Z :=
  match Prim2SF y with
  | S754_zero _ => Some 0%Z
  | S754_finite s m e =>
      if (0 <=? e)%Z then Some (cond_Zopp s (Z.shiftl (Zpos m) e))
      else
        let q := Z.shiftr (Zpos m) (- e) in
        if (Z.shiftl q (- e) =? Zpos m)%Z then Some (cond_Zopp s q) else None
  | _ => None
  end.

(** pow: repeated multiplication for an integral exponent of moderate
    size (exact while the power is representable), exp(y ln x)
    otherwise. *)
Definition ref_pow (x y : float) : float :=
  match integral_value y with
  | Some (Zpos p) =>
      if (Zpos p <=? 1024)%Z then Pos.iter (fun acc => acc * x) 1 p
      else ref_exp (y * ref_ln x)
  | Some (Zneg p) =>
      if (Zpos p <=? 1024)%Z then 1 / Pos.iter (fun acc => acc * x) 1 p
      else ref_exp (y * ref_ln x)
  | _ => ref_exp (y * ref_ln x)
  end.

Definition libm : Libm :=
  {| lm_exp := ref_exp; lm_log10 := ref_log10; lm_pow := ref_pow |}.
End RefLibm.

(** ** Vocabulary of the statements *)

Module Spec.
Import Double.
Open Scope float_scope.

(** Every addition the loop performs while it is still running moves the
    loop variable strictly upwards. *)
Definition advances (x bound step : float) : Prop :=
  forall k : nat,
    (forall j : nat, (j <= k)%nat -> (after_steps j x step <=? bound) = true) ->
    (after_steps k x step <? after_steps k x step + step) = true.

(** Each element is strictly below its successor. *)
Definition strictly_increasing (xs : list float) : Prop :=
  forall (k : nat) (a b : float),
    nth_error xs k = Some a -> nth_error xs (S k) = Some b -> (a <? b) = true.

Definition last_of (xs : list float) : option float :=
  nth_error xs (pred (List.length xs)).

(** The abscissa loop of [params]: its bound and the value of
    [current_x] after [k] additions. *)
Definition x_bound (params : PlotSpecParams) : float := x_end params + 1e-8.

Definition grid_point (params : PlotSpecParams) (k : nat) : float :=
  after_steps k (x_start params) (interval params).

Definition grid_advances (params : PlotSpecParams) : Prop :=
  advances (x_start params) (x_bound params) (interval params).

(** The grid as the specification describes it: the loop returns a
    strictly increasing sequence that starts at [x_start] and whose last
    element lies in the window (x_end - interval, x_end + 1e-8]. *)
Definition grid_as_specified (params : PlotSpecParams) : Prop :=
  exists (fuel : nat) (xs : list float) (last : float),
    generate_x_values fuel params = Some xs
    /\ strictly_increasing xs
    /\ hd_error xs = Some (x_start params)
    /\ last_of xs = Some last
    /\ (x_end params - interval params <? last) = true
    /\ (last <=? x_end params + 1e-8) = true.

(** The endpoint rule with a tolerance that scales with the interval: the
    first grid point beyond [x_end] is kept exactly when it is within
    [interval * 1e-8] of [x_end]. *)
Definition scaled_endpoint_rule (params : PlotSpecParams) : Prop :=
  forall (fuel : nat) (xs : list float) (k : nat),
    generate_x_values fuel params = Some xs ->
    (forall j, (j < k)%nat -> (grid_point params j <=? x_end params) = true) ->
    (x_end params <? grid_point params k) = true ->
    ((k < List.length xs)%nat
     <-> (grid_point params k - x_end params <=? interval params * 1e-8) = true).

(** Termination under the stated precondition alone. *)
Definition grid_terminates (params : PlotSpecParams) : Prop :=
  exists (fuel : nat) (xs : list float), generate_x_values fuel params = Some xs.

(** The tick loop of [calculateNiceTicks] for six ticks: its first value
    and its bound. *)
Definition tick_start (L : Libm) (min_val max_val : float) : float :=
  ceil (min_val / nice_step_of L min_val max_val 6) * nice_step_of L min_val max_val 6.

Definition tick_bound (L : Libm) (min_val max_val : float) : float :=
  max_val + nice_step_of L min_val max_val 6 * 0.1.

Definition ticks_advance (L : Libm) (min_val max_val : float) : Prop :=
  advances (tick_start L min_val max_val) (tick_bound L min_val max_val)
    (nice_step_of L min_val max_val 6).

(** [magnitude] of lines 515: ten to the floor of the decimal logarithm
    of the rough step. *)
Definition magnitude_of (L : Libm) (min_val max_val : float) : float :=
  pow L 10 (floor (log10 L ((max_val - min_val) / 5))).

(** Part of the specification of the tick generator: it returns, there is
    a first tick, and the first tick is not below [min]. *)
Definition first_tick_as_specified (L : Libm) (min_val max_val : float) : Prop :=
  exists (fuel : nat) (ticks : list float) (first : float),
    calculateNiceTicks L fuel min_val max_val 6 = Some ticks
    /\ hd_error ticks = Some first
    /\ (min_val <=? first) = true.

(** The degenerate range as the specification wants it handled: a single
    tick at the common value, or a step that is positive. *)
Definition degenerate_special_cased (L : Libm) (v : float) : Prop :=
  exists (fuel : nat) (ticks : list float),
    calculateNiceTicks L fuel v v 6 = Some ticks
    /\ (ticks = [v] \/ (0 <? nice_step_of L v v 6) = true).

(** The modes and units the program recognises, and the pairs for which
    [calculate_single_spectrum] adds bands. *)
Definition recognized_mode (m : string) : bool :=
  existsb (String.eqb m) ["abs"; "emi"; "cd"; "cdl"]%string.

Definition recognized_unit (u : string) : bool :=
  existsb (String.eqb u) ["nm"; "eV"; "cm-1"]%string.

Definition has_band_model (m u : string) : bool :=
  ((m =? "abs")%string && recognized_unit u)
  || (((m =? "emi")%string || (m =? "cd")%string || (m =? "cdl")%string)
      && ((u =? "nm")%string || (u =? "eV")%string)).

(** The absorption bands in nanometres, as (amplitude, centre, width),
    and the sum of Gaussians over a band table with every amplitude
    multiplied by [factor] and every centre displaced by [shift]. *)
Definition abs_nm_bands : list (float * float * float) :=
  [(15000, 280, 15); (12000, 320, 20); (8000, 420, 25); (5000, 520, 30)].

Definition band_sum (L : Libm) (bands : list (float * float * float))
    (factor shift x : float) : float :=
  fold_left
    (fun intensity '(amplitude, centre, width) =>
       intensity + factor * amplitude * exp L (- pow L ((x - centre - shift) / width) 2))
    bands 0.

(** A finite double as a fraction of two integers with a positive
    denominator, and the doubles that denote the integer [n]. *)
Definition as_fraction (x : float) : option (Z * Z) :=
  match Prim2SF x with
  | S754_zero _ => Some (0, 1)%Z
  | S754_finite s m e =>
      if (0 <=? e)%Z then Some (cond_Zopp s (Zpos m * 2 ^ e), 1)%Z
      else Some (cond_Zopp s (Zpos m), 2 ^ (- e))%Z
  | _ => None
  end.

Definition denotes (y : float) (n : Z) : Prop :=
  exists num den : Z, as_fraction y = Some (num, den) /\ num = (n * den)%Z.



(** The ordinates of all curves, and what it is for a number to be the
    least or the greatest of a list. *)
Definition ordinates (spectra : list SpectrumData) : list float :=
  flat_map y_values spectra.

Definition least_of (ys : list float) (m : float) : Prop :=
  In m ys /\ forall y, In y ys -> (m <=? y) = true.

Definition greatest_of (ys : list float) (m : float) : Prop :=
  In m ys /\ forall y, In y ys -> (y <=? m) = true.
(** A check that decides [advances] on runs of at most [fuel]
    iterations. *)
Fixpoint advances_check (fuel : nat) (x bound step : float) : bool :=
  match fuel with
  | O => false
  | S fuel' =>
      if x <=? bound then (x <? x + step) && advances_check fuel' (x + step) bound step
      else true
  end.
End Spec.

(** ** Concrete inputs *)

Module Inputs.
Open Scope float_scope.

Definition with_grid (a b h : float) : PlotSpecParams := {|
  mode := mode default_params;
  unit := unit default_params;
  x_start := a;
  x_end := b;
  interval := h;
  user_set_interval := true;
  fwhm_cm_minus_1 := fwhm_cm_minus_1 default_params;
  input_filenames := ["molecule.out"];
  legend_names := ["molecule"];
  output_format := output_format default_params;
  output_filename := output_filename default_params;
  interactive := false;
  kT_eV := kT_eV default_params
|}.

(** The default grid of the program: 200 to 1000 nm in steps of 1. *)
Definition default_grid : PlotSpecParams := with_grid 200 1000 1.

(** A grid on which adding the interval leaves [current_x] unchanged. *)
Definition stuck_grid : PlotSpecParams := with_grid 1e16 2e16 1.

(** A grid of two points, 2^53 and 2^53 + 4, between doubles that are
    2 apart. *)
Definition coarse_grid : PlotSpecParams :=
  with_grid 9007199254740992 9007199254740998 3.

(** A grid whose third point, 1, lies 7e-9 beyond [x_end]. *)
Definition overshoot_grid : PlotSpecParams := with_grid 0 0.999999993 0.5.

(** A grid with a zero interval. *)
Definition flat_grid : PlotSpecParams := with_grid 200 1000 0.

(** A short grid, 200 to 210 nm, under a given mode, unit and output
    format. *)
Definition short_run (m u fmt : string) : PlotSpecParams := {|
  mode := m;
  unit := u;
  x_start := 200;
  x_end := 210;
  interval := 1;
  user_set_interval := true;
  fwhm_cm_minus_1 := fwhm_cm_minus_1 default_params;
  input_filenames := ["molecule.out"];
  legend_names := ["molecule"];
  output_format := fmt;
  output_filename := "spectrum_plot";
  interactive := false;
  kT_eV := kT_eV default_params
|}.

(** The same short grid for two input files. *)
Definition overlay_run (m u fmt : string) : PlotSpecParams := {|
  mode := m;
  unit := u;
  x_start := 200;
  x_end := 210;
  interval := 1;
  user_set_interval := true;
  fwhm_cm_minus_1 := fwhm_cm_minus_1 default_params;
  input_filenames := ["first.out"; "second.out"];
  legend_names := ["first"; "second"];
  output_format := fmt;
  output_filename := "spectrum_plot";
  interactive := false;
  kT_eV := kT_eV default_params
|}.

(** A file system on which every input file can be opened. *)
Definition all_readable : string -> bool := fun _ => true.

(** The run with the unsupported output format "gif": its parameters, the
    spectra the program computes for it, and the chart it composes. *)
Definition gif_params : PlotSpecParams := short_run "abs" "nm" "gif".

Definition gif_spectra : list SpectrumData :=
  Eval vm_compute in
    match calculate_multiple_spectra RefLibm.libm all_readable 20 gif_params with
    | Returned spectra => spectra
    | _ => []
    end.

Definition gif_chart : ChartRun :=
  Eval vm_compute in
    match create_and_export_multiple_plots RefLibm.libm 20 gif_spectra gif_params with
    | Returned run => run
    | _ => {| plan := {| y_min := 0; y_max := 0; x_ticks := []; y_ticks := [] |};
              written := []; printed := [] |}
    end.

(** Two curves with the ordinates 0, 3, 1 and 2, 5. *)
Definition two_curves : list SpectrumData :=
  [ {| x_values := [200; 201; 202]; y_values := [0; 3; 1];
       x_label := "Wavelength (nm)"; y_label := ""; title := "" |};
    {| x_values := [200; 201]; y_values := [2; 5];
       x_label := "Wavelength (nm)"; y_label := ""; title := "" |} ].
End Inputs.

(** ** Further vocabulary *)

Module Terms.

(** Whether the character [c] occurs in [s]. *)
Fixpoint occurs (c : ascii) (s : string) : bool :=
  match s with
  | EmptyString => false
  | String a s' => Ascii.eqb a c || occurs c s'
  end.

(** Whether [s] ends in the character [c]. *)
Fixpoint ends_in (c : ascii) (s : string) : bool :=
  match s with
  | EmptyString => false
  | String a EmptyString => Ascii.eqb a c
  | String _ s' => ends_in c s'
  end.

(** An input path in three parts: a prefix that is empty or ends in a
    slash, a base name, and an extension. *)
Definition joined_path (part : string * string * string) : string :=
  let '(prefix, base, ext) := part in prefix ++ base ++ "." ++ ext.

Definition base_of (part : string * string * string) : string :=
  let '(_, base, _) := part in base.

Definition plain_parts (part : string * string * string) : Prop :=
  let '(prefix, base, ext) := part in
  (prefix = "" \/ ends_in "/" prefix = true)
  /\ base <> "" /\ ~ (base = "." /\ ext = "")
  /\ occurs "/" base = false /\ occurs "/" ext = false /\ occurs "." ext = false.

(** Whether [c] is one of the letters A to Z. *)
Definition is_upper (c : ascii) : bool :=
  ((65 <=? nat_of_ascii c) && (nat_of_ascii c <=? 90))%nat.

(** The tests of the loop over [argv], in the order of the source. *)
Definition is_help (arg : string) : bool := (arg =? "-help") || (arg =? "--help").

Definition is_config_option (arg : string) : bool := substring 0 8 arg =? "-config=".

Definition is_input_file (arg : string) : bool :=
  negb (is_help arg) && negb (arg =? "-no-interactive") && negb (is_config_option arg).

(** The value of the last [-config=] option, [""] when there is none. *)
Definition chosen_config (args : list string) : string :=
  fold_left
    (fun chosen arg =>
       if is_config_option arg then substring 8 (String.length arg - 8) arg else chosen)
    args "".

(** Whether [get_python_double] reads a number off the object. *)
Definition numeric (obj : PyObject) : bool :=
  match obj with
  | PyFloat _ | PyLong _ => true
  | _ => false
  end.

(** Two environments in which the interpreter behaves alike. *)
Definition same_interpreter (env env' : Environment) : Prop :=
  python_starts env = python_starts env'
  /\ forall path, import_config env path = import_config env' path.

(** A double that is neither an infinity nor NaN. *)
Definition finite_value (y : float) : bool :=
  ((neg_infinity <? y) && (y <? infinity))%float.

(** The path the export step reports for a run. *)
Definition full_output_name (params : PlotSpecParams) : string :=
  output_filename params ++ "." ++ output_format params.
End Terms.

(** ** Further inputs *)

Module Cases.
Open Scope float_scope.

(** A configuration module that sets the unit and three legend names, one
    of them blank. *)
Definition sample_module (key : string) : option PyObject :=
  if (key =? "unit")%string then Some (PyUnicode "eV")
  else if (key =? "x_start")%string then Some (PyLong 2)
  else if (key =? "x_end")%string then Some (PyFloat 6.5)
  else if (key =? "legend_names")%string then
    Some (PyList [PyUnicode "ground"; PyUnicode ""; PyLong 3])
  else None.

(** A module whose interval is a string. *)
Definition quoted_interval_module (key : string) : option PyObject :=
  if (key =? "interval")%string then Some (PyUnicode "0.5") else None.

Definition empty_module : string -> option PyObject := fun _ => None.

(** A module that sets an interval of 500, for a grid of two points. *)
Definition coarse_module (key : string) : option PyObject :=
  if (key =? "interval")%string then Some (PyLong 500) else None.

(** An environment with a configuration in the home directory only. *)
Definition home_only : Environment := {|
  python_starts := true;
  import_config := fun path =>
    if (path =? "/home/user/spectrum_config.py")%string then Imported sample_module
    else if (path =? "quoted.py")%string then Imported quoted_interval_module
    else if (path =? "empty.py")%string then Imported empty_module
    else if (path =? "coarse.py")%string then Imported coarse_module
    else if (path =? "quits.py")%string then SystemExit 3 []
    else ImportError ["Traceback (most recent call last):";
                      "ModuleNotFoundError: No module named absent"]%string;
  file_exists := fun path => (path =? "/home/user/spectrum_config.py")%string;
  home := Some "/home/user"
|}.

(** The same interpreter on a machine without any configuration file on
    the search path. *)
Definition bare : Environment := {|
  python_starts := true;
  import_config := import_config home_only;
  file_exists := fun _ => false;
  home := None
|}.

(** A file system holding [a.out] and [b.log]. *)
Definition two_files (name : string) : bool :=
  (name =? "a.out")%string || (name =? "b.log")%string.

(** A grid whose start lies beyond its end. *)
Definition reversed_grid : PlotSpecParams := Inputs.with_grid 1000 200 1.

(** Two readable input files under mode "abs": the parameters and the
    curves the program computes for them. *)
Definition overlay_params : PlotSpecParams := Inputs.overlay_run "abs" "nm" "svg".

Definition overlay_spectra : list SpectrumData :=
  Eval vm_compute in
    match calculate_multiple_spectra RefLibm.libm Inputs.all_readable 20 overlay_params with
    | Returned spectra => spectra
    | _ => []
    end.

(** The chart of [Inputs.two_curves] under mode "cd". *)
Definition cd_chart : ChartRun :=
  Eval vm_compute in
    match create_and_export_multiple_plots RefLibm.libm 20 Inputs.two_curves
            (Inputs.overlay_run "cd" "nm" "svg") with
    | Returned run => run
    | _ => {| plan := {| y_min := 0; y_max := 0; x_ticks := []; y_ticks := [] |};
              written := []; printed := [] |}
    end.

(** The outcome of the run of [Inputs.short_run] that exports to SVG. *)
Definition svg_result : ProcessResult :=
  Eval vm_compute in
    match main RefLibm.libm Inputs.all_readable 20 (Inputs.short_run "abs" "nm" "svg") with
    | Some r => r
    | None => failed ""
    end.

(** A run under mode "emi" in wavenumbers, a pair without band model:
    its curves and its chart. *)
Definition flat_spectra : list SpectrumData :=
  Eval vm_compute in
    match calculate_multiple_spectra RefLibm.libm Inputs.all_readable 20
            (Inputs.short_run "emi" "cm-1" "svg") with
    | Returned spectra => spectra
    | _ => []
    end.

Definition flat_chart : ChartRun :=
  Eval vm_compute in
    match create_and_export_multiple_plots RefLibm.libm 20 flat_spectra
            (Inputs.short_run "emi" "cm-1" "svg") with
    | Returned run => run
    | _ => {| plan := {| y_min := 1; y_max := 1; x_ticks := []; y_ticks := [1] |};
              written := []; printed := [] |}
    end.

(** The short run of [Inputs.short_run] with a fifth of the FWHM, a
    legend of its own and PNG output. *)
Definition narrow_bands : PlotSpecParams := {|
  mode := "abs";
  unit := "nm";
  x_start := 200;
  x_end := 210;
  interval := 1;
  user_set_interval := true;
  fwhm_cm_minus_1 := 0.1 * EV_TO_CM_MINUS_1;
  input_filenames := ["molecule.out"%string];
  legend_names := ["narrow"%string];
  output_format := "png";
  output_filename := "narrow";
  interactive := true;
  kT_eV := 0.02
|}.

(** Three input files, the second of which is not in [two_files]. *)
Definition three_inputs : PlotSpecParams :=
  with_command_line (Inputs.short_run "abs" "nm" "svg")
    ["a.out"; "missing"; "b"]%string false.

(** A command line and what [parse_arguments] makes of it in
    [home_only]. *)
Definition sample_args : list string := ["a.out"; "-no-interactive"; "runs/b.log"]%string.

Definition parsed_sample : PlotSpecParams :=
  Eval vm_compute in
    match parse_arguments home_only sample_args with
    | (_, Ended (Returned params)) => params
    | _ => default_params
    end.
End Cases.



(** * Properties *)

(** ** The model at work *)

Module Examples.
Import Double Spec Inputs.
Open Scope float_scope.

Example DBL_MAX_value : DBL_MAX = 1.7976931348623157e308.
Proof. reflexivity. Qed.

Example floor_ceil_values :
  (floor 2.5, floor (-2.5), floor 0.3, ceil 2.5, ceil 7, floor neg_infinity)
  = (2, -3, 0, 3, 7, neg_infinity).
Proof. reflexivity. Qed.

(** The default grid has 801 points, from 200 to 1000. *)
Example default_grid_points :
  exists xs,
    generate_x_values 1000 default_grid = Some xs
    /\ List.length xs = 801%nat
    /\ hd_error xs = Some 200
    /\ last_of xs = Some 1000.
Proof. eexists. split; [vm_compute; reflexivity | repeat split]. Qed.

Example default_curve_labels :
  let s := synthesize RefLibm.libm default_grid 0 [200; 201] in
  y_label s = "Molar Absorptivity (L/(mol·cm))"%string
  /\ title s = "Absorption Spectra"%string
  /\ x_label s = "Wavelength (nm)"%string.
Proof. repeat split. Qed.

Example ticks_200_1000 :
  calculateNiceTicks RefLibm.libm 10 200 1000 6 = Some [200; 400; 600; 800; 1000].
Proof. vm_compute. reflexivity. Qed.

(** The absorbed addition behind [stuck_grid]. *)
Example absorbed_addition : 1e16 + 1 = 1e16.
Proof. reflexivity. Qed.

(** With a supported format the same run hands one file to the vector
    exporter. *)
Example svg_run :
  option_map (fun r => (exit_code r, files r))
    (main RefLibm.libm all_readable 20 (short_run "abs" "nm" "svg"))
  = Some (0%Z, [GL2PS "svg" "spectrum_plot"]).
Proof. vm_compute. reflexivity. Qed.

(** An input file that cannot be opened ends the process with code 1 and
    a message on the error channel. *)
Example unreadable_run :
  main RefLibm.libm (fun _ => false) 20 (short_run "abs" "nm" "svg")
  = Some {| exit_code := 1; reported := [];
            error_channel := ["Error: Cannot open BDF output file: molecule.out"%string];
            files := [] |}.
Proof. reflexivity. Qed.
End Examples.

(** ** Order facts about binary64 *)

Module DoubleFacts.
Import Double.
Open Scope Z_scope.

Lemma digits2_pos_bound (m : positive) : Zpos m < 2 ^ Zpos (digits2_pos m).
Proof.
  induction m as [p IH | p IH | ]; cbn [digits2_pos].
  - rewrite Pos2Z.inj_succ, Z.pow_succ_r by lia. lia.
  - rewrite Pos2Z.inj_succ, Z.pow_succ_r by lia. lia.
  - reflexivity.
Qed.

(** A valid finite double has a mantissa below 2^53 and an exponent
    between -1074 and 971. *)
Lemma bounded_range (m : positive) (e : Z) :
  bounded prec emax m e = true -> Zpos m < 2 ^ 53 /\ -1074 <= e <= 971.
Proof.
  unfold bounded, canonical_mantissa, fexp, SpecFloat.emin, prec, emax.
  intros H. apply andb_true_iff in H. destruct H as [Hc He].
  apply Z.eqb_eq in Hc. apply Z.leb_le in He.
  pose proof (digits2_pos_bound m) as Hd.
  assert (Hle : Zpos (digits2_pos m) <= 53) by lia.
  assert (2 ^ Zpos (digits2_pos m) <= 2 ^ 53) by (apply Z.pow_le_mono_r; lia).
  lia.
Qed.

Ltac pow_consts :=
  unfold rank_top in *;
  change (2 ^ 64) with 18446744073709551616 in *;
  change (2 ^ 53) with 9007199254740992 in *.

Ltac rank_lia :=
  cbv beta iota in *;
  pow_consts;
  repeat match goal with H : @eq bool _ _ |- _ => clear H end;
  lia.

Ltac rank_cmp :=
  cbv beta iota;
  match goal with
  | |- (?x ?= ?y)%Z = _ =>
      destruct (Z.compare_spec x y); first [reflexivity | exfalso; rank_lia]
  end.

Lemma SFrank_finite_pos (m : positive) (e : Z) :
  bounded prec emax m e = true ->
  0 < (e + 1075) * 2 ^ 53 + Zpos m < rank_top.
Proof.
  intros H. apply bounded_range in H. destruct H as [Hm He].
  pow_consts. lia.
Qed.

Lemma SFrank_bounds (a : spec_float) :
  valid_binary a = true -> - rank_top <= SFrank a <= rank_top.
Proof.
  destruct a as [s | s | | s m e]; cbn [SFrank valid_binary]; intros H.
  - pow_consts; lia.
  - destruct s; pow_consts; lia.
  - pow_consts; lia.
  - apply SFrank_finite_pos in H. destruct s; lia.
Qed.

Lemma rank_lexicographic (m1 m2 : positive) (e1 e2 : Z) :
  Zpos m1 < 2 ^ 53 -> e1 < e2 ->
  (e1 + 1075) * 2 ^ 53 + Zpos m1 < (e2 + 1075) * 2 ^ 53 + Zpos m2.
Proof. pow_consts. lia. Qed.

(** On valid doubles other than NaN the comparison is the comparison of
    the ranks. *)
Lemma SFcompare_rank (a b : spec_float) :
  valid_binary a = true -> valid_binary b = true ->
  a <> S754_nan -> b <> S754_nan ->
  SFcompare a b = Some (SFrank a ?= SFrank b).
Proof.
  intros Ha Hb Na Nb.
  destruct a as [sa | sa | | sa ma ea]; destruct b as [sb | sb | | sb mb eb];
    cbn [SFcompare SFrank valid_binary] in *; try (now elim Na); try (now elim Nb);
    try (pose proof (SFrank_finite_pos ma ea Ha) as Pa);
    try (pose proof (SFrank_finite_pos mb eb Hb) as Pb);
    f_equal; symmetry;
    try solve [destruct sa; rank_cmp | destruct sb; rank_cmp | destruct sa, sb; rank_cmp].
  - pose proof (bounded_range _ _ Ha) as [Hma _].
    pose proof (bounded_range _ _ Hb) as [Hmb _].
    destruct sa, sb; try rank_cmp.
    + destruct (Z.compare_spec ea eb) as [E | E | E].
      * subst eb. change (Pos.compare_cont Eq ma mb) with (Pos.compare ma mb).
        destruct (Pos.compare_spec ma mb) as [C | C | C]; cbn [CompOpp]; rank_cmp.
      * pose proof (rank_lexicographic ma mb ea eb Hma E). rank_cmp.
      * pose proof (rank_lexicographic mb ma eb ea Hmb E). rank_cmp.
    + destruct (Z.compare_spec ea eb) as [E | E | E].
      * subst eb. change (Pos.compare_cont Eq ma mb) with (Pos.compare ma mb).
        destruct (Pos.compare_spec ma mb) as [C | C | C]; rank_cmp.
      * pose proof (rank_lexicographic ma mb ea eb Hma E). rank_cmp.
      * pose proof (rank_lexicographic mb ma eb ea Hmb E). rank_cmp.
Qed.

Open Scope float_scope.

Lemma is_nan_spec (x : float) : is_nan x = true <-> Prim2SF x = S754_nan.
Proof.
  unfold is_nan. rewrite FloatAxioms.eqb_spec. unfold SFeqb.
  destruct (Prim2SF x) as [s | s | | s m e] eqn:E; cbn [SFcompare].
  - split; discriminate.
  - destruct s; split; discriminate.
  - split; reflexivity.
  - destruct s; rewrite Z.compare_refl, Pos.compare_cont_refl; split; discriminate.
Qed.

Lemma is_nan_false (x : float) : is_nan x = false <-> Prim2SF x <> S754_nan.
Proof.
  rewrite <- is_nan_spec. destruct (is_nan x); split; congruence.
Qed.

Lemma compare_rank (x y : float) :
  is_nan x = false -> is_nan y = false ->
  SFcompare (Prim2SF x) (Prim2SF y) = Some (rank x ?= rank y)%Z.
Proof.
  intros Hx Hy. apply SFcompare_rank; try apply Prim2SF_valid; now apply is_nan_false.
Qed.

Lemma SFcompare_nan (a b : spec_float) :
  a = S754_nan \/ b = S754_nan -> SFcompare a b = None.
Proof. intros [-> | ->]; [reflexivity | now destruct a]. Qed.

(** Comparisons are false as soon as one side is NaN, and are the integer
    comparisons of the ranks otherwise. *)
Lemma leb_true (x y : float) :
  (x <=? y) = true <-> is_nan x = false /\ is_nan y = false /\ (rank x <= rank y)%Z.
Proof.
  rewrite FloatAxioms.leb_spec. unfold SFleb.
  destruct (is_nan x) eqn:Hx.
  { apply is_nan_spec in Hx. rewrite SFcompare_nan by now left.
    split; [discriminate | intros [? _]; discriminate]. }
  destruct (is_nan y) eqn:Hy.
  { apply is_nan_spec in Hy. rewrite SFcompare_nan by now right.
    split; [discriminate | intros [_ [? _]]; discriminate]. }
  rewrite (compare_rank x y Hx Hy).
  destruct (Z.compare_spec (rank x) (rank y)); split; intros; try discriminate;
    repeat split; try easy; lia.
Qed.

Lemma ltb_true (x y : float) :
  (x <? y) = true <-> is_nan x = false /\ is_nan y = false /\ (rank x < rank y)%Z.
Proof.
  rewrite FloatAxioms.ltb_spec. unfold SFltb.
  destruct (is_nan x) eqn:Hx.
  { apply is_nan_spec in Hx. rewrite SFcompare_nan by now left.
    split; [discriminate | intros [? _]; discriminate]. }
  destruct (is_nan y) eqn:Hy.
  { apply is_nan_spec in Hy. rewrite SFcompare_nan by now right.
    split; [discriminate | intros [_ [? _]]; discriminate]. }
  rewrite (compare_rank x y Hx Hy).
  destruct (Z.compare_spec (rank x) (rank y)); split; intros; try discriminate;
    repeat split; try easy; lia.
Qed.

(** Apart from the two zeros, distinct numbers have distinct ranks. *)
Lemma SFrank_inj (a b : spec_float) :
  valid_binary a = true -> valid_binary b = true ->
  a <> S754_nan -> b <> S754_nan ->
  SFrank a = SFrank b ->
  a = b \/ (exists sa sb, a = S754_zero sa /\ b = S754_zero sb).
Proof.
  intros Ha Hb Na Nb.
  destruct a as [sa | sa | | sa ma ea]; destruct b as [sb | sb | | sb mb eb];
    cbn [SFrank valid_binary] in *; try (now elim Na); try (now elim Nb);
    try (pose proof (SFrank_finite_pos ma ea Ha) as Pa);
    try (pose proof (SFrank_finite_pos mb eb Hb) as Pb);
    intros E.
  - right. now exists sa, sb.
  - exfalso. destruct sb; rank_lia.
  - exfalso. destruct sb; rank_lia.
  - exfalso. destruct sa; rank_lia.
  - left. destruct sa, sb; try reflexivity; exfalso; rank_lia.
  - exfalso. destruct sa, sb; rank_lia.
  - exfalso. destruct sa; rank_lia.
  - exfalso. destruct sa, sb; rank_lia.
  - left.
    pose proof (bounded_range _ _ Ha) as [Hma _].
    pose proof (bounded_range _ _ Hb) as [Hmb _].
    assert (He : ea = eb) by (destruct sa, sb; rank_lia).
    subst eb.
    assert (Hm : Zpos ma = Zpos mb) by (destruct sa, sb; rank_lia).
    assert (Hs : sa = sb) by (destruct sa, sb; try reflexivity; exfalso; rank_lia).
    injection Hm as ->. subst sb. reflexivity.
Qed.

Lemma rank_bounds (x : float) : (- rank_top <= rank x <= rank_top)%Z.
Proof. apply SFrank_bounds, Prim2SF_valid. Qed.

Lemma leb_false_nan_l (y : float) : (nan <=? y) = false.
Proof.
  destruct (nan <=? y) eqn:E; [| reflexivity].
  apply leb_true in E. destruct E as [E _]. discriminate E.
Qed.

Lemma ltb_leb (x y : float) : (x <? y) = true -> (x <=? y) = true.
Proof. rewrite ltb_true, leb_true. intuition lia. Qed.

Lemma leb_refl (x : float) : is_nan x = false -> (x <=? x) = true.
Proof. intros H. apply leb_true. intuition lia. Qed.

Lemma leb_trans (x y z : float) :
  (x <=? y) = true -> (y <=? z) = true -> (x <=? z) = true.
Proof. rewrite !leb_true. intuition lia. Qed.

Lemma ltb_leb_trans (x y z : float) :
  (x <? y) = true -> (y <=? z) = true -> (x <? z) = true.
Proof. rewrite !ltb_true, !leb_true. intuition lia. Qed.

(** Two numbers that are not NaN are comparable. *)
Lemma leb_false_ltb (x y : float) :
  is_nan x = false -> is_nan y = false -> (x <=? y) = false -> (y <? x) = true.
Proof.
  intros Hx Hy H. apply ltb_true. repeat split; try assumption.
  destruct (Z.le_gt_cases (rank x) (rank y)) as [Hle | Hgt]; [| lia].
  assert (E : (x <=? y) = true) by (apply leb_true; auto).
  congruence.
Qed.

End DoubleFacts.

(** ** Rounding of sums

    The sum of two doubles is the exact sum rounded to nearest.  The
    lemmas below follow the rounding through the reference implementation
    of the standard library and show that it is monotone with respect to
    representable numbers: adding a number that is not negative never
    yields less, and adding a number that is not positive never yields
    more. *)

Module Rounding.
Import Double DoubleFacts.
Open Scope Z_scope.

Lemma weight_pos e : -1074 <= e -> 0 < weight e.
Proof. intros. unfold weight. apply Z.pow_pos_nonneg; lia. Qed.

Lemma weight_add e n : -1074 <= e -> 0 <= n -> weight (e + n) = weight e * 2 ^ n.
Proof.
  intros. unfold weight. replace (e + n + 1074) with ((e + 1074) + n) by lia.
  apply Z.pow_add_r; lia.
Qed.

Lemma digits2_pos_lower (m : positive) : 2 ^ (Zpos (digits2_pos m) - 1) <= Zpos m.
Proof.
  induction m as [p IH | p IH | ]; cbn [digits2_pos].
  - rewrite Pos2Z.inj_succ. replace (Z.succ (Zpos (digits2_pos p)) - 1) with (Z.succ (Zpos (digits2_pos p) - 1)) by lia.
    rewrite Z.pow_succ_r by lia. lia.
  - rewrite Pos2Z.inj_succ. replace (Z.succ (Zpos (digits2_pos p)) - 1) with (Z.succ (Zpos (digits2_pos p) - 1)) by lia.
    rewrite Z.pow_succ_r by lia. lia.
  - reflexivity.
Qed.

Lemma iter_xO_spec (m d : positive) :
  Zpos (Pos.iter xO m d) = Zpos m * 2 ^ Zpos d
  /\ Zpos (digits2_pos (Pos.iter xO m d)) = Zpos (digits2_pos m) + Zpos d.
Proof.
  induction d as [| d IH] using Pos.peano_ind.
  - cbn [Pos.iter digits2_pos]. split; [lia | lia].
  - rewrite Pos.iter_succ. cbn [digits2_pos]. destruct IH as [IH1 IH2].
    rewrite Pos2Z.inj_succ, Z.pow_succ_r by lia. split; lia.
Qed.

Lemma shl_align_spec (m : positive) (e t : Z) :
  -1074 <= t -> -1074 <= e ->
  let '(m', e') := shl_align m e t in
  e' = Z.min e t
  /\ Zpos m' * weight e' = Zpos m * weight e
  /\ Zpos (digits2_pos m') + e' = Zpos (digits2_pos m) + e.
Proof.
  intros Ht He. unfold shl_align.
  destruct (t - e) as [| d | d] eqn:E.
  - repeat split; lia.
  - repeat split; lia.
  - destruct (iter_xO_spec m d) as [H1 H2]. repeat split; try lia.
    rewrite H1. replace e with (t + Zpos d) by lia.
    rewrite weight_add by lia. lia.
Qed.

Lemma shr_1_spec (mrs : shr_record) :
  0 <= shr_m mrs ->
  shr_m (shr_1 mrs) = shr_m mrs / 2
  /\ (shr_r mrs = false -> shr_s mrs = false -> shr_m mrs mod 2 = 0 ->
      shr_r (shr_1 mrs) = false /\ shr_s (shr_1 mrs) = false).
Proof.
  destruct mrs as [m r s]. cbn [shr_m shr_r shr_s]. intros Hm.
  destruct m as [| p | p]; [| | lia].
  - cbn. split; [reflexivity |]. intros -> ->. auto.
  - destruct p as [p | p |]; cbn [shr_1 shr_m shr_r shr_s].
    + split. { rewrite Pos2Z.inj_xI. apply Z.div_unique with 1; lia. }
      intros _ _ H. rewrite Pos2Z.inj_xI in H.
      rewrite Z.add_comm, Z.mul_comm, Z.mod_add in H by lia. discriminate.
    + split. { rewrite Pos2Z.inj_xO. apply Z.div_unique with 0; lia. }
      intros -> -> _. auto.
    + split; [reflexivity |]. intros _ _ H. discriminate.
Qed.

Lemma shifted_compose (j k : Z) (a b c : shr_record) :
  0 < j -> 0 < k -> 0 <= shr_m a ->
  shifted j a b -> shifted k b c -> shifted (j + k) a c.
Proof.
  intros Hj Hk Ha [Hb1 Hb2] [Hc1 Hc2]. split.
  - rewrite Hc1, Hb1, Z.pow_add_r by lia. apply Z.div_div; lia.
  - intros Hr Hs Hmod. rewrite Z.pow_add_r in Hmod by lia.
    assert (H2j : 0 < 2 ^ j) by (apply Z.pow_pos_nonneg; lia).
    assert (H2k : 0 < 2 ^ k) by (apply Z.pow_pos_nonneg; lia).
    apply Z.mod_divide in Hmod; [| lia]. destruct Hmod as [q Hq].
    destruct Hb2 as [Hbr Hbs]; try assumption.
    { apply Z.mod_divide; [lia |]. exists (q * 2 ^ k). lia. }
    apply Hc2; try assumption.
    rewrite Hb1. apply Z.mod_divide; [lia |]. exists q.
    rewrite Hq. replace (q * (2 ^ j * 2 ^ k)) with (q * 2 ^ k * 2 ^ j) by lia.
    apply Z.div_mul. lia.
Qed.

Lemma shifted_nonneg (k : Z) (a b : shr_record) :
  0 <= k -> 0 <= shr_m a -> shifted k a b -> 0 <= shr_m b.
Proof.
  intros Hk Ha [Hb _]. rewrite Hb. apply Z.div_pos; [lia |]. apply Z.pow_pos_nonneg; lia.
Qed.

Lemma iter_pos_shr (p : positive) (mrs : shr_record) :
  0 <= shr_m mrs -> shifted (Zpos p) mrs (SpecFloat.iter_pos shr_1 p mrs).
Proof.
  revert mrs. induction p as [p IH | p IH | ]; intros mrs Hm; cbn [SpecFloat.iter_pos].
  - assert (S1 : shifted 1 mrs (shr_1 mrs)) by (apply shr_1_spec; exact Hm).
    assert (N1 : 0 <= shr_m (shr_1 mrs)) by (apply (shifted_nonneg 1 mrs); [lia | exact Hm | exact S1]).
    pose proof (IH _ N1) as S2.
    assert (N2 := shifted_nonneg (Zpos p) _ _ ltac:(lia) N1 S2).
    pose proof (IH _ N2) as S3.
    rewrite Pos2Z.inj_xI. replace (2 * Zpos p + 1) with (1 + (Zpos p + Zpos p)) by lia.
    apply (shifted_compose 1 (Zpos p + Zpos p) mrs (shr_1 mrs)); try lia; try assumption.
    apply (shifted_compose (Zpos p) (Zpos p) _ _ _ ltac:(lia) ltac:(lia) N1 S2 S3).
  - pose proof (IH _ Hm) as S2.
    assert (N2 := shifted_nonneg (Zpos p) _ _ ltac:(lia) Hm S2).
    pose proof (IH _ N2) as S3.
    rewrite Pos2Z.inj_xO. replace (2 * Zpos p) with (Zpos p + Zpos p) by lia.
    apply (shifted_compose (Zpos p) (Zpos p) _ _ _ ltac:(lia) ltac:(lia) Hm S2 S3).
  - apply shr_1_spec. exact Hm.
Qed.

Lemma fexp64 (e : Z) : fexp prec emax e = Z.max (e - 53) (-1074).
Proof. reflexivity. Qed.

Lemma shr_fexp_exact_spec (m e : Z) :
  0 <= m ->
  let n := Z.max (fexp prec emax (Zdigits2 m + e) - e) 0 in
  let '(mrs', e') := shr_fexp prec emax m e loc_Exact in
  e' = e + n
  /\ shr_m mrs' = m / 2 ^ n
  /\ (m mod 2 ^ n = 0 -> loc_of_shr_record mrs' = loc_Exact).
Proof.
  intros Hm. unfold shr_fexp, shr. cbn [shr_record_of_loc].
  destruct (fexp prec emax (Zdigits2 m + e) - e) as [| p | p] eqn:E; cbn zeta.
  - rewrite Z.max_id. cbn [shr_m]. change (2 ^ 0) with 1. rewrite Z.div_1_r.
    split; [lia | split; [reflexivity | reflexivity]].
  - rewrite Z.max_l by lia.
    pose proof (iter_pos_shr p {| shr_m := m; shr_r := false; shr_s := false |} Hm)
      as [H1 H2]. cbn [shr_m shr_r shr_s] in *.
    split; [reflexivity | split; [exact H1 |]].
    intros Hmod. destruct (H2 eq_refl eq_refl Hmod) as [Hr Hs].
    destruct (SpecFloat.iter_pos shr_1 p _) as [m1 r1 s1]. cbn in Hr, Hs. subst. reflexivity.
  - rewrite Z.max_r by lia. cbn [shr_m]. change (2 ^ 0) with 1. rewrite Z.div_1_r.
    split; [lia | split; [reflexivity | reflexivity]].
Qed.

Lemma Zdigits2_lower (w : Z) : 0 < w -> 2 ^ (Zdigits2 w - 1) <= w.
Proof.
  destruct w as [| p | p]; try lia. intros _. apply digits2_pos_lower.
Qed.

(** Dropping the bits below the working exponent of a positive number
    leaves at least 2^52. *)
Lemma shift_normal (w e : Z) :
  0 < w -> -1074 <= e ->
  let E := fexp prec emax (Zdigits2 w + e) in
  e <= E -> -1074 < E -> 2 ^ 52 <= w / 2 ^ (E - e).
Proof.
  intros Hw He E HE HE'. subst E. rewrite fexp64 in *.
  assert (Hd : Z.max (Zdigits2 w + e - 53) (-1074) = Zdigits2 w + e - 53) by lia.
  rewrite Hd in *.
  pose proof (Zdigits2_lower w Hw) as Hl.
  apply Z.div_le_lower_bound; [apply Z.pow_pos_nonneg; lia |].
  rewrite <- Z.pow_add_r by lia.
  replace (Zdigits2 w + e - 53 - e + 52) with (Zdigits2 w - 1) by lia. exact Hl.
Qed.

Lemma valid_value_lt (mx : positive) (ex E : Z) :
  bounded prec emax mx ex = true -> ex < E ->
  Zpos mx * weight ex < 2 ^ 52 * weight E.
Proof.
  intros Hv Hlt.
  assert (Hb : Zpos mx < 2 ^ 53 /\ -1074 <= ex <= 971).
  { unfold bounded, canonical_mantissa in Hv. rewrite fexp64 in Hv.
    apply andb_true_iff in Hv. destruct Hv as [Hc He].
    apply Z.eqb_eq in Hc. apply Z.leb_le in He. unfold emax, prec in He.
    pose proof (digits2_pos_bound mx) as Hd.
    assert (Zpos (digits2_pos mx) <= 53) by lia.
    assert (2 ^ Zpos (digits2_pos mx) <= 2 ^ 53) by (apply Z.pow_le_mono_r; lia).
    lia. }
  destruct Hb as [Hm He].
  replace E with (ex + 1 + (E - ex - 1)) by lia.
  rewrite weight_add, weight_add by lia.
  pose proof (weight_pos ex ltac:(lia)).
  assert (1 <= 2 ^ (E - ex - 1)) by (apply Z.pow_le_mono_r with (b := 0) (c := E - ex - 1) (a := 2); lia).
  change (2 ^ 53) with (2 ^ 52 * 2) in Hm. change (2 ^ 1) with 2.
  nia.
Qed.

(** Rounding down to the working exponent stays above every
    representable number below the exact value. *)
Lemma floor_ge (w e : Z) (mx : positive) (ex : Z) :
  0 <= w -> -1074 <= e -> -1074 <= ex ->
  bounded prec emax mx ex = true ->
  Zpos mx * weight ex <= w * weight e ->
  let n := Z.max (fexp prec emax (Zdigits2 w + e) - e) 0 in
  Zpos mx * weight ex <= w / 2 ^ n * weight (e + n).
Proof.
  intros Hw He Hex Hv Hle n.
  destruct (Z.le_gt_cases (fexp prec emax (Zdigits2 w + e) - e) 0) as [Hn | Hn].
  { subst n. rewrite Z.max_r by lia. rewrite Z.div_1_r, Z.add_0_r. exact Hle. }
  assert (En : n = fexp prec emax (Zdigits2 w + e) - e) by (subst n; lia).
  pose proof (weight_pos e He) as Pe. pose proof (weight_pos ex Hex) as Pex.
  assert (Hw' : 0 < w) by nia.
  assert (H2n : 0 < 2 ^ n) by (apply Z.pow_pos_nonneg; lia).
  rewrite (weight_add e n) by lia.
  destruct (Z.le_gt_cases (e + n) ex) as [Hcase | Hcase].
  - (* the representable number lies on the coarser grid *)
    replace ex with (e + n + (ex - (e + n))) in * by lia.
    rewrite (weight_add (e + n)), (weight_add e n) in * by lia.
    set (k := 2 ^ (ex - (e + n))) in *.
    assert (Hk : 0 < k) by (apply Z.pow_pos_nonneg; lia).
    assert (Zpos mx * k * 2 ^ n <= w) by nia.
    assert (Zpos mx * k <= w / 2 ^ n) by (apply Z.div_le_lower_bound; lia).
    nia.
  - (* it lies below the smallest number with that exponent *)
    pose proof (valid_value_lt mx ex (e + n) Hv Hcase) as Hlt.
    rewrite (weight_add e n) in Hlt by lia.
    assert (-1074 < fexp prec emax (Zdigits2 w + e)) by lia.
    pose proof (shift_normal w e Hw' He ltac:(lia) ltac:(lia)) as Hnorm.
    cbn zeta in Hnorm. rewrite <- En in Hnorm. nia.
Qed.

Lemma round_nearest_even_range (m : Z) (l : location) :
  m <= round_nearest_even m l <= m + 1.
Proof.
  unfold round_nearest_even. destruct l as [| [ | | ]]; try lia.
  destruct (Z.even m); lia.
Qed.

(** Rounding to nearest at the working exponent stays below every
    representable number above the exact value. *)
Lemma round_le (w e : Z) (mx : positive) (ex : Z) (l : location) :
  0 <= w -> -1074 <= e -> -1074 <= ex ->
  bounded prec emax mx ex = true ->
  w * weight e <= Zpos mx * weight ex ->
  let n := Z.max (fexp prec emax (Zdigits2 w + e) - e) 0 in
  (w mod 2 ^ n = 0 -> l = loc_Exact) ->
  round_nearest_even (w / 2 ^ n) l * weight (e + n) <= Zpos mx * weight ex.
Proof.
  intros Hw He Hex Hv Hle n Hl.
  pose proof (weight_pos e He) as Pe. pose proof (weight_pos ex Hex) as Pex.
  assert (Hn0 : 0 <= n) by (subst n; lia).
  assert (H2n : 0 < 2 ^ n) by (apply Z.pow_pos_nonneg; lia).
  rewrite (weight_add e n) by lia.
  pose proof (Z.div_mod w (2 ^ n) ltac:(lia)) as Hdm.
  pose proof (Z.mod_pos_bound w (2 ^ n) H2n) as Hmb.
  destruct (Z.eq_dec (w mod 2 ^ n) 0) as [Hex0 | Hinex].
  { rewrite (Hl Hex0). cbn [round_nearest_even]. nia. }
  pose proof (round_nearest_even_range (w / 2 ^ n) l) as Hr.
  assert (Hn : 0 < n).
  { destruct (Z.eq_dec n 0) as [E0 | ]; [| lia]. rewrite E0 in Hinex.
    rewrite Z.mod_1_r in Hinex. congruence. }
  assert (En : n = fexp prec emax (Zdigits2 w + e) - e) by (subst n; lia).
  assert (Hw' : 0 < w) by (destruct (Z.eq_dec w 0) as [-> |]; [rewrite Z.mod_0_l in Hinex; lia | lia]).
  destruct (Z.le_gt_cases (e + n) ex) as [Hcase | Hcase].
  - replace ex with (e + n + (ex - (e + n))) in * by lia.
    rewrite (weight_add (e + n)), (weight_add e n) in * by lia.
    set (k := 2 ^ (ex - (e + n))) in *.
    assert (Hk : 0 < k) by (apply Z.pow_pos_nonneg; lia).
    assert (w <= Zpos mx * k * 2 ^ n) by nia.
    assert (w / 2 ^ n < Zpos mx * k) by nia.
    nia.
  - exfalso.
    pose proof (valid_value_lt mx ex (e + n) Hv Hcase) as Hlt.
    rewrite (weight_add e n) in Hlt by lia.
    assert (-1074 < fexp prec emax (Zdigits2 w + e)) by lia.
    pose proof (shift_normal w e Hw' He ltac:(lia) ltac:(lia)) as Hnorm.
    cbn zeta in Hnorm. rewrite <- En in Hnorm. nia.
Qed.

Lemma weight_le (a b : Z) : -1074 <= a -> a <= b -> weight a <= weight b.
Proof. intros. unfold weight. apply Z.pow_le_mono_r; lia. Qed.

Lemma floor_value_le (w e n : Z) :
  0 <= w -> -1074 <= e -> 0 <= n -> w / 2 ^ n * weight (e + n) <= w * weight e.
Proof.
  intros Hw He Hn. rewrite weight_add by lia.
  pose proof (weight_pos e He).
  assert (H2n : 0 < 2 ^ n) by (apply Z.pow_pos_nonneg; lia).
  pose proof (Z.mul_div_le w (2 ^ n) H2n). nia.
Qed.

(** The rounded magnitude is at least every representable number below
    the exact one. *)
Lemma binary_round_lower (s : bool) (m : positive) (e : Z) (mx : positive) (ex : Z) :
  -1074 <= e -> bounded prec emax mx ex = true ->
  Zpos mx * weight ex <= Zpos m * weight e ->
  binary_round prec emax s m e = S754_infinity s
  \/ exists m2 e2,
       binary_round prec emax s m e = S754_finite s m2 e2
       /\ Zpos mx * weight ex <= Zpos m2 * weight e2.
Proof.
  intros He Hv Hle.
  pose proof (bounded_range mx ex Hv) as [_ [Hex _]].
  pose proof (weight_pos ex Hex) as Pex.
  unfold binary_round.
  pose proof (shl_align_spec m e (fexp prec emax (Zpos (digits2_pos m) + e))
                ltac:(rewrite fexp64; lia) He) as Hal.
  destruct (shl_align m e _) as [mz ez]. destruct Hal as [Hez [Hval Hdig]].
  assert (Hez' : -1074 <= ez) by (rewrite fexp64 in Hez; lia).
  unfold binary_round_aux.
  pose proof (shr_fexp_exact_spec (Zpos mz) ez ltac:(lia)) as H1. cbn zeta in H1.
  destruct (shr_fexp prec emax (Zpos mz) ez loc_Exact) as [mrs1 e1].
  destruct H1 as [He1 [Hm1 _]].
  pose proof (floor_ge (Zpos mz) ez mx ex ltac:(lia) Hez' Hex Hv ltac:(lia)) as F1.
  cbn zeta in F1. rewrite <- He1, <- Hm1 in F1.
  pose proof (round_nearest_even_range (shr_m mrs1) (loc_of_shr_record mrs1)) as Hr.
  set (mr := round_nearest_even (shr_m mrs1) (loc_of_shr_record mrs1)) in *.
  assert (He1' : -1074 <= e1) by lia.
  pose proof (weight_pos e1 He1') as Pe1.
  assert (Hmr : 0 <= mr).
  { assert (0 <= shr_m mrs1); [| lia]. rewrite Hm1. apply Z.div_pos; [lia |].
    apply Z.pow_pos_nonneg; lia. }
  pose proof (shr_fexp_exact_spec mr e1 Hmr) as H2. cbn zeta in H2.
  destruct (shr_fexp prec emax mr e1 loc_Exact) as [mrs2 e2].
  destruct H2 as [He2 [Hm2 _]].
  pose proof (floor_ge mr e1 mx ex Hmr He1' Hex Hv ltac:(nia)) as F2.
  cbn zeta in F2. rewrite <- He2, <- Hm2 in F2.
  assert (He2' : -1074 <= e2) by lia.
  pose proof (weight_pos e2 He2') as Pe2.
  destruct (shr_m mrs2) as [| p | p].
  - lia.
  - destruct (e2 <=? emax - prec); [right; now exists p, e2 | now left].
  - nia.
Qed.

(** The rounded magnitude is at most every representable number above
    the exact one, and in particular does not overflow. *)
Lemma binary_round_upper (s : bool) (m : positive) (e : Z) (mx : positive) (ex : Z) :
  -1074 <= e -> bounded prec emax mx ex = true ->
  Zpos m * weight e <= Zpos mx * weight ex ->
  binary_round prec emax s m e = S754_zero s
  \/ exists m2 e2,
       binary_round prec emax s m e = S754_finite s m2 e2
       /\ Zpos m2 * weight e2 <= Zpos mx * weight ex.
Proof.
  intros He Hv Hle.
  pose proof (bounded_range mx ex Hv) as [_ [Hex Hex']].
  pose proof (weight_pos ex Hex) as Pex.
  unfold binary_round.
  pose proof (shl_align_spec m e (fexp prec emax (Zpos (digits2_pos m) + e))
                ltac:(rewrite fexp64; lia) He) as Hal.
  destruct (shl_align m e _) as [mz ez]. destruct Hal as [Hez [Hval Hdig]].
  assert (Hez' : -1074 <= ez) by (rewrite fexp64 in Hez; lia).
  assert (Hfz : ez <= fexp prec emax (Zdigits2 (Zpos mz) + ez)).
  { cbn [Zdigits2]. rewrite Hdig. lia. }
  unfold binary_round_aux.
  pose proof (shr_fexp_exact_spec (Zpos mz) ez ltac:(lia)) as H1. cbn zeta in H1.
  destruct (shr_fexp prec emax (Zpos mz) ez loc_Exact) as [mrs1 e1].
  destruct H1 as [He1 [Hm1 Hl1]].
  pose proof (round_le (Zpos mz) ez mx ex (loc_of_shr_record mrs1)
                ltac:(lia) Hez' Hex Hv ltac:(lia) Hl1) as R1.
  rewrite <- He1, <- Hm1 in R1.
  pose proof (round_nearest_even_range (shr_m mrs1) (loc_of_shr_record mrs1)) as Hr.
  set (mr := round_nearest_even (shr_m mrs1) (loc_of_shr_record mrs1)) in *.
  assert (He1' : -1074 <= e1) by lia.
  pose proof (weight_pos e1 He1') as Pe1.
  assert (Hs1 : 0 <= shr_m mrs1).
  { rewrite Hm1. apply Z.div_pos; [lia |]. apply Z.pow_pos_nonneg; lia. }
  assert (Hmr : 0 <= mr) by lia.
  pose proof (shr_fexp_exact_spec mr e1 Hmr) as H2. cbn zeta in H2.
  destruct (shr_fexp prec emax mr e1 loc_Exact) as [mrs2 e2].
  destruct H2 as [He2 [Hm2 _]].
  pose proof (floor_value_le mr e1 (Z.max (fexp prec emax (Zdigits2 mr + e1) - e1) 0)
                Hmr He1' ltac:(lia)) as F2.
  rewrite <- He2, <- Hm2 in F2.
  assert (He2' : -1074 <= e2) by lia.
  pose proof (weight_pos e2 He2') as Pe2.
  destruct (shr_m mrs2) as [| p | p] eqn:Ep.
  - now left.
  - right. exists p, e2. split; [| lia].
    destruct (Z.leb_spec e2 (emax - prec)) as [Hok | Hov]; [reflexivity | exfalso].
    unfold emax, prec in Hov.
    (* an overflowing result would have a full mantissa *)
    assert (Hfull : 2 ^ 52 <= Zpos p).
    { destruct (Z.le_gt_cases (fexp prec emax (Zdigits2 mr + e1) - e1) 0) as [Hn2 | Hn2].
      - rewrite Z.max_r in He2, Hm2 by lia.
        change (2 ^ 0) with 1 in Hm2. rewrite Z.div_1_r in Hm2.
        assert (Hn1 : Z.max (fexp prec emax (Zdigits2 (Zpos mz) + ez) - ez) 0
                      = fexp prec emax (Zdigits2 (Zpos mz) + ez) - ez) by lia.
        pose proof (shift_normal (Zpos mz) ez ltac:(lia) Hez' Hfz ltac:(lia)) as Hn.
        cbn zeta in Hn. rewrite <- Hn1, <- Hm1 in Hn. lia.
      - rewrite Z.max_l in He2, Hm2 by lia.
        assert (0 < mr).
        { destruct (Z.eq_dec mr 0) as [E0 | ]; [| lia].
          rewrite E0, Z.div_0_l in Hm2; [lia |].
          apply Z.pow_nonzero; lia. }
        pose proof (shift_normal mr e1 ltac:(lia) He1' ltac:(lia) ltac:(lia)) as Hn.
        cbn zeta in Hn. rewrite <- Hm2 in Hn. lia. }
    pose proof (valid_value_lt mx ex 972 Hv ltac:(lia)) as Hlt.
    pose proof (weight_le 972 e2 ltac:(lia) ltac:(lia)) as Hmono.
    pose proof (weight_pos 972 ltac:(lia)).
    nia.
  - exfalso.
    assert (0 <= mr / 2 ^ Z.max (fexp prec emax (Zdigits2 mr + e1) - e1) 0)
      by (apply Z.div_pos; [lia | apply Z.pow_pos_nonneg; lia]).
    lia.
Qed.

Lemma valid_normal (m : positive) (e : Z) :
  bounded prec emax m e = true -> -1074 < e -> 2 ^ 52 <= Zpos m.
Proof.
  intros Hv He. unfold bounded, canonical_mantissa in Hv. rewrite fexp64 in Hv.
  apply andb_true_iff in Hv. destruct Hv as [Hc _]. apply Z.eqb_eq in Hc.
  pose proof (digits2_pos_lower m) as Hl.
  replace (Zpos (digits2_pos m) - 1) with 52 in Hl by lia. exact Hl.
Qed.

(** On valid doubles of one sign the order of the values is the
    lexicographic order of exponent and mantissa. *)
Lemma value_le_lex (m1 : positive) (e1 : Z) (m2 : positive) (e2 : Z) :
  bounded prec emax m1 e1 = true -> bounded prec emax m2 e2 = true ->
  Zpos m1 * weight e1 <= Zpos m2 * weight e2 ->
  e1 < e2 \/ (e1 = e2 /\ Zpos m1 <= Zpos m2).
Proof.
  intros H1 H2 Hle.
  pose proof (bounded_range _ _ H1) as [_ [He1 _]].
  pose proof (bounded_range _ _ H2) as [_ [He2 _]].
  destruct (Z.lt_trichotomy e1 e2) as [Hlt | [Heq | Hgt]].
  - now left.
  - right. split; [exact Heq |]. subst e2. pose proof (weight_pos e1 He1). nia.
  - exfalso.
    pose proof (valid_value_lt m2 e2 e1 H2 Hgt) as Hv.
    pose proof (valid_normal m1 e1 H1 ltac:(lia)) as Hn.
    pose proof (weight_pos e1 He1). nia.
Qed.

Lemma SFleb_finite_pos (m1 : positive) (e1 : Z) (m2 : positive) (e2 : Z) :
  e1 < e2 \/ (e1 = e2 /\ Zpos m1 <= Zpos m2) ->
  SFleb (S754_finite false m1 e1) (S754_finite false m2 e2) = true.
Proof.
  unfold SFleb. cbn [SFcompare]. intros [Hlt | [Heq Hle]].
  - apply Z.compare_lt_iff in Hlt. rewrite Hlt. reflexivity.
  - subst e2. rewrite Z.compare_refl.
    change (Pos.compare_cont Eq m1 m2) with (Pos.compare m1 m2).
    destruct (Pos.compare_spec m1 m2); try reflexivity. lia.
Qed.

Lemma SFleb_finite_neg (m1 : positive) (e1 : Z) (m2 : positive) (e2 : Z) :
  e1 < e2 \/ (e1 = e2 /\ Zpos m1 <= Zpos m2) ->
  SFleb (S754_finite true m2 e2) (S754_finite true m1 e1) = true.
Proof.
  unfold SFleb. cbn [SFcompare]. intros [Hlt | [Heq Hle]].
  - apply Z.compare_gt_iff in Hlt. rewrite Hlt. reflexivity.
  - subst e2. rewrite Z.compare_refl.
    change (Pos.compare_cont Eq m2 m1) with (Pos.compare m2 m1).
    destruct (Pos.compare_spec m2 m1); try reflexivity. lia.
Qed.

Lemma SFleb_refl (x : spec_float) : x <> S754_nan -> SFleb x x = true.
Proof.
  unfold SFleb. destruct x as [s | s | | s m e]; cbn [SFcompare]; intros H.
  - reflexivity.
  - destruct s; reflexivity.
  - congruence.
  - destruct s; rewrite Z.compare_refl, Pos.compare_cont_refl; reflexivity.
Qed.

(** The aligned mantissas of a finite sum. *)
Lemma aligned (mx : positive) (ex ez : Z) :
  -1074 <= ex -> -1074 <= ez -> ez <= ex ->
  Zpos (fst (shl_align mx ex ez)) * weight ez = Zpos mx * weight ex.
Proof.
  intros Hex Hez Hle. pose proof (shl_align_spec mx ex ez Hez Hex) as H.
  destruct (shl_align mx ex ez) as [m' e']. destruct H as [He' [Hv _]].
  cbn [fst]. replace e' with ez in Hv by lia. exact Hv.
Qed.

(** Adding a number that is not negative never yields less. *)
Lemma SFadd_nonneg_ge (x y : spec_float) :
  valid_binary x = true -> valid_binary y = true ->
  valid_binary (SF64add x y) = true ->
  x <> S754_nan -> x <> S754_infinity true ->
  SFleb (S754_zero false) y = true ->
  SFleb x (SF64add x y) = true.
Proof.
  intros Vx Vy Vr Nx Ix Hy. unfold SF64add in *.
  destruct y as [sy | sy | | sy my ey]; try (destruct sy); try discriminate Hy.
  - destruct x as [sx | sx | | sx mx ex]; try congruence;
      [destruct sx; reflexivity | destruct sx; [congruence | reflexivity] | apply SFleb_refl; discriminate].
  - destruct x as [sx | sx | | sx mx ex]; try congruence;
      [destruct sx; reflexivity | destruct sx; [congruence | reflexivity] | apply SFleb_refl; discriminate].
  - destruct x as [sx | sx | | sx mx ex]; try congruence;
      [reflexivity | destruct sx; [congruence | reflexivity] | destruct sx; reflexivity].
  - destruct x as [sx | sx | | sx mx ex]; try congruence.
    + reflexivity.
    + destruct sx; [congruence | reflexivity].
    + cbn [valid_binary] in Vx, Vy.
      pose proof (bounded_range _ _ Vx) as [_ [Hex _]].
      pose proof (bounded_range _ _ Vy) as [_ [Hey _]].
      cbn [SFadd] in *. cbn zeta in *.
      set (ez := Z.min ex ey) in *.
      assert (Hez : -1074 <= ez) by (subst ez; lia).
      pose proof (aligned mx ex ez Hex Hez ltac:(subst ez; lia)) as Ax.
      pose proof (aligned my ey ez Hey Hez ltac:(subst ez; lia)) as Ay.
      set (MX := fst (shl_align mx ex ez)) in *.
      set (MY := fst (shl_align my ey ez)) in *.
      pose proof (weight_pos ez Hez) as Pez.
      destruct sx; cbn [cond_Zopp] in *.
      * (* a negative number plus a positive one *)
        destruct (- Zpos MX + Zpos MY) as [| p | p] eqn:EZ; cbn [binary_normalize] in *.
        -- reflexivity.
        -- destruct (binary_round_upper false p ez my ey Hez Vy ltac:(nia))
             as [E | [m2 [e2 [E _]]]]; rewrite E; reflexivity.
        -- destruct (binary_round_upper true p ez mx ex Hez Vx ltac:(nia))
             as [E | [m2 [e2 [E Hle]]]]; rewrite E in *; [reflexivity |].
           apply SFleb_finite_neg. apply value_le_lex; assumption.
      * (* two positive numbers *)
        destruct (Zpos MX + Zpos MY) as [| p | p] eqn:EZ; cbn [binary_normalize] in *; try lia.
        destruct (binary_round_lower false p ez mx ex Hez Vx ltac:(nia))
          as [E | [m2 [e2 [E Hle]]]]; rewrite E in *; [reflexivity |].
        apply SFleb_finite_pos. apply value_le_lex; assumption.
Qed.

(** Adding a number that is not positive never yields more. *)
Lemma SFadd_nonpos_le (x y : spec_float) :
  valid_binary x = true -> valid_binary y = true ->
  valid_binary (SF64add x y) = true ->
  x <> S754_nan -> x <> S754_infinity false ->
  SFleb y (S754_zero false) = true ->
  SFleb (SF64add x y) x = true.
Proof.
  intros Vx Vy Vr Nx Ix Hy. unfold SF64add in *.
  destruct y as [sy | sy | | sy my ey]; try (destruct sy); try discriminate Hy.
  - destruct x as [sx | sx | | sx mx ex]; try congruence;
      [destruct sx; reflexivity | destruct sx; [reflexivity | congruence] | apply SFleb_refl; discriminate].
  - destruct x as [sx | sx | | sx mx ex]; try congruence;
      [destruct sx; reflexivity | destruct sx; [reflexivity | congruence] | apply SFleb_refl; discriminate].
  - destruct x as [sx | sx | | sx mx ex]; try congruence;
      [reflexivity | destruct sx; [reflexivity | congruence] | destruct sx; reflexivity].
  - destruct x as [sx | sx | | sx mx ex]; try congruence.
    + reflexivity.
    + destruct sx; [reflexivity | congruence].
    + cbn [valid_binary] in Vx, Vy.
      pose proof (bounded_range _ _ Vx) as [_ [Hex _]].
      pose proof (bounded_range _ _ Vy) as [_ [Hey _]].
      cbn [SFadd] in *. cbn zeta in *.
      set (ez := Z.min ex ey) in *.
      assert (Hez : -1074 <= ez) by (subst ez; lia).
      pose proof (aligned mx ex ez Hex Hez ltac:(subst ez; lia)) as Ax.
      pose proof (aligned my ey ez Hey Hez ltac:(subst ez; lia)) as Ay.
      set (MX := fst (shl_align mx ex ez)) in *.
      set (MY := fst (shl_align my ey ez)) in *.
      pose proof (weight_pos ez Hez) as Pez.
      destruct sx; cbn [cond_Zopp] in *.
      * (* two negative numbers *)
        destruct (- Zpos MX + - Zpos MY) as [| p | p] eqn:EZ; cbn [binary_normalize] in *; try lia.
        destruct (binary_round_lower true p ez mx ex Hez Vx ltac:(nia))
          as [E | [m2 [e2 [E Hle]]]]; rewrite E in *; [reflexivity |].
        apply SFleb_finite_neg. apply value_le_lex; assumption.
      * (* a positive number plus a negative one *)
        destruct (Zpos MX + - Zpos MY) as [| p | p] eqn:EZ; cbn [binary_normalize] in *.
        -- reflexivity.
        -- destruct (binary_round_upper false p ez mx ex Hez Vx ltac:(nia))
             as [E | [m2 [e2 [E Hle]]]]; rewrite E in *; [reflexivity |].
           apply SFleb_finite_pos. apply value_le_lex; assumption.
        -- destruct (binary_round_upper true p ez my ey Hez Vy ltac:(nia))
             as [E | [m2 [e2 [E _]]]]; rewrite E; reflexivity.
Qed.

Open Scope float_scope.

Lemma ltb_neg_infinity (x : float) :
  (neg_infinity <? x) = true ->
  Prim2SF x <> S754_nan /\ Prim2SF x <> S754_infinity true.
Proof.
  rewrite FloatAxioms.ltb_spec. change (Prim2SF neg_infinity) with (S754_infinity true).
  destruct (Prim2SF x) as [s | s | | s m e]; try destruct s; cbn; intros H;
    split; congruence.
Qed.

Lemma ltb_infinity (x : float) :
  (x <? infinity) = true ->
  Prim2SF x <> S754_nan /\ Prim2SF x <> S754_infinity false.
Proof.
  rewrite FloatAxioms.ltb_spec. change (Prim2SF infinity) with (S754_infinity false).
  destruct (Prim2SF x) as [s | s | | s m e]; try destruct s; cbn; intros H;
    split; congruence.
Qed.

Theorem add_nonneg_ge (x i : float) :
  (0 <=? i) = true -> (neg_infinity <? x) = true -> (x <=? x + i) = true.
Proof.
  intros Hi Hx. apply ltb_neg_infinity in Hx. destruct Hx as [Nx Ix].
  rewrite FloatAxioms.leb_spec in Hi. rewrite FloatAxioms.leb_spec.
  pose proof (Prim2SF_valid (x + i)) as Vr. rewrite add_spec in *.
  apply SFadd_nonneg_ge; try apply Prim2SF_valid; assumption.
Qed.

Theorem add_nonpos_le (x i : float) :
  (i <=? 0) = true -> (x <? infinity) = true -> (x + i <=? x) = true.
Proof.
  intros Hi Hx. apply ltb_infinity in Hx. destruct Hx as [Nx Ix].
  rewrite FloatAxioms.leb_spec in Hi. rewrite FloatAxioms.leb_spec.
  pose proof (Prim2SF_valid (x + i)) as Vr. rewrite add_spec in *.
  apply SFadd_nonpos_le; try apply Prim2SF_valid; assumption.
Qed.
Open Scope Z_scope.

(** Rounding an integer below 2^53 is exact. *)
Lemma binary_round_integer (s : bool) (q : positive) :
  Zpos q < 2 ^ 53 ->
  exists mz ez,
    binary_round prec emax s q 0 = S754_finite s mz ez
    /\ bounded prec emax mz ez = true
    /\ -52 <= ez <= 0
    /\ Zpos mz = Zpos q * 2 ^ (- ez).
Proof.
  intros Hq.
  assert (Hd : 1 <= Zpos (digits2_pos q) <= 53).
  { split; [lia |]. pose proof (digits2_pos_lower q) as Hl.
    destruct (Z.le_gt_cases (Zpos (digits2_pos q)) 53) as [H | H]; [exact H |].
    assert (2 ^ 53 <= 2 ^ (Zpos (digits2_pos q) - 1)) by (apply Z.pow_le_mono_r; lia).
    lia. }
  unfold binary_round.
  pose proof (shl_align_spec q 0 (fexp prec emax (Zpos (digits2_pos q) + 0))
                ltac:(rewrite fexp64; lia) ltac:(lia)) as Hal.
  destruct (shl_align q 0 _) as [mz ez]. destruct Hal as [Hez [Hval Hdig]].
  rewrite fexp64 in Hez.
  assert (Eez : ez = Zpos (digits2_pos q) - 53) by lia.
  assert (Edig : Zpos (digits2_pos mz) = 53) by lia.
  unfold binary_round_aux.
  pose proof (shr_fexp_exact_spec (Zpos mz) ez ltac:(lia)) as H1. cbn zeta in H1.
  destruct (shr_fexp prec emax (Zpos mz) ez loc_Exact) as [mrs1 e1].
  destruct H1 as [He1 [Hm1 Hl1]].
  change (Zdigits2 (Zpos mz)) with (Zpos (digits2_pos mz)) in *.
  rewrite Edig, fexp64 in *.
  replace (Z.max (Z.max (53 + ez - 53) (-1074) - ez) 0) with 0 in * by lia.
  change (2 ^ 0) with 1 in *. rewrite Z.div_1_r in Hm1.
  rewrite (Hl1 (Z.mod_1_r _)). rewrite Hm1. cbn [round_nearest_even].
  pose proof (shr_fexp_exact_spec (Zpos mz) e1 ltac:(lia)) as H2. cbn zeta in H2.
  destruct (shr_fexp prec emax (Zpos mz) e1 loc_Exact) as [mrs2 e2].
  destruct H2 as [He2 [Hm2 _]].
  change (Zdigits2 (Zpos mz)) with (Zpos (digits2_pos mz)) in *.
  rewrite Edig, fexp64 in *.
  replace (Z.max (Z.max (53 + e1 - 53) (-1074) - e1) 0) with 0 in * by lia.
  change (2 ^ 0) with 1 in *. rewrite Z.div_1_r in Hm2. rewrite Hm2.
  assert (E2 : e2 = ez) by lia. rewrite E2. clear E2 He2.
  assert (Hle : (ez <=? emax - prec) = true) by (apply Z.leb_le; unfold emax, prec; lia).
  rewrite Hle. exists mz, ez. split; [reflexivity |].
  split.
  { unfold bounded, canonical_mantissa. rewrite Hle, Edig, fexp64.
    replace (Z.max (53 + ez - 53) (-1074)) with ez by lia. rewrite Z.eqb_refl. reflexivity. }
  split; [lia |].
  unfold weight in Hval.
  replace (0 + 1074) with ((- ez) + (ez + 1074)) in Hval by lia.
  rewrite (Z.pow_add_r 2 (- ez) (ez + 1074)) in Hval by lia.
  assert (P : 0 < 2 ^ (ez + 1074)) by (apply Z.pow_pos_nonneg; lia).
  nia.
Qed.
End Rounding.

(** ** The push loop *)

Module LoopFacts.
Import Double DoubleFacts Spec.
Open Scope float_scope.

Lemma after_steps_succ (k : nat) (x step : float) :
  after_steps (S k) x step = after_steps k x step + step.
Proof.
  revert x. induction k as [| k IH]; intros x.
  - reflexivity.
  - change (after_steps (S (S k)) x step) with (after_steps (S k) (x + step) step).
    rewrite IH. reflexivity.
Qed.

(** A step that is absorbed leaves the loop variable where it is. *)
Lemma after_steps_stuck (x step : float) :
  x + step = x -> forall k, after_steps k x step = x.
Proof.
  intros H k. induction k as [| k IH]; [reflexivity |].
  cbn [after_steps]. rewrite H. exact IH.
Qed.

Lemma push_while_le_fuel (fuel fuel' : nat) (x bound step : float) (xs : list float) :
  push_while_le fuel x bound step = Some xs -> (fuel <= fuel')%nat ->
  push_while_le fuel' x bound step = Some xs.
Proof.
  revert fuel' x xs. induction fuel as [| fuel IH]; intros fuel' x xs H Hle.
  - discriminate.
  - destruct fuel' as [| fuel']; [lia |]. cbn [push_while_le] in *.
    destruct (x <=? bound); [| exact H].
    destruct (push_while_le fuel (x + step) bound step) as [ys |] eqn:E; [| discriminate].
    rewrite (IH fuel' (x + step) ys E) by lia. exact H.
Qed.

(** What a finished loop has collected: the successive values of the loop
    variable, all passing the test, up to the first one that fails it. *)
Lemma push_while_le_sound (fuel : nat) (x bound step : float) (xs : list float) :
  push_while_le fuel x bound step = Some xs ->
  (forall k, (k < List.length xs)%nat ->
     nth_error xs k = Some (after_steps k x step)
     /\ (after_steps k x step <=? bound) = true)
  /\ (after_steps (List.length xs) x step <=? bound) = false.
Proof.
  revert x xs. induction fuel as [| fuel IH]; intros x xs H.
  - discriminate.
  - cbn [push_while_le] in H. destruct (x <=? bound) eqn:Hx.
    + destruct (push_while_le fuel (x + step) bound step) as [ys |] eqn:E; [| discriminate].
      injection H as <-. destruct (IH _ _ E) as [Hin Hout]. split.
      * intros [| k] Hk; cbn [List.length nth_error after_steps] in *.
        -- split; [reflexivity | exact Hx].
        -- apply Hin. lia.
      * exact Hout.
    + injection H as <-. split.
      * intros k Hk. cbn in Hk. lia.
      * exact Hx.
Qed.

Lemma advances_next (x bound step : float) :
  (x <=? bound) = true -> advances x bound step -> advances (x + step) bound step.
Proof.
  intros Hx Hadv k Hk. apply (Hadv (S k)).
  intros [| j] Hj; [exact Hx | apply Hk; lia].
Qed.

Lemma push_while_le_measure (n : nat) (x bound step : float) :
  (rank_top - rank x < Z.of_nat n)%Z -> advances x bound step ->
  exists xs, push_while_le n x bound step = Some xs.
Proof.
  revert x. induction n as [| n IH]; intros x Hn Hadv.
  - pose proof (rank_bounds x). lia.
  - cbn [push_while_le]. destruct (x <=? bound) eqn:Hx; [| now exists []].
    assert (Hlt : (x <? x + step) = true).
    { apply (Hadv 0%nat). intros j Hj. replace j with 0%nat by lia. exact Hx. }
    apply ltb_true in Hlt. destruct Hlt as [_ [_ Hlt]].
    destruct (IH (x + step)) as [ys Hys]; [lia | now apply advances_next |].
    rewrite Hys. now exists (x :: ys).
Qed.

(** An advancing loop terminates: the binary64 values above its start are
    finitely many. *)
Lemma push_while_le_terminates (x bound step : float) :
  advances x bound step ->
  exists fuel xs, push_while_le fuel x bound step = Some xs.
Proof.
  intros Hadv. exists (S (Z.to_nat (rank_top - rank x))).
  apply push_while_le_measure; [| exact Hadv].
  pose proof (rank_bounds x). lia.
Qed.

(** A loop whose variable passes the test forever never returns. *)
Lemma push_while_le_diverges (x bound step : float) :
  (forall k, (after_steps k x step <=? bound) = true) ->
  forall fuel, push_while_le fuel x bound step = None.
Proof.
  intros Hall fuel. revert x Hall. induction fuel as [| fuel IH]; intros x Hall.
  - reflexivity.
  - cbn [push_while_le]. rewrite (Hall 0%nat : (x <=? bound) = true).
    rewrite IH; [reflexivity |]. intros k. exact (Hall (S k)).
Qed.

Lemma push_while_le_increasing (fuel : nat) (x bound step : float) (xs : list float) :
  advances x bound step ->
  push_while_le fuel x bound step = Some xs -> strictly_increasing xs.
Proof.
  intros Hadv H k a b Ha Hb.
  destruct (push_while_le_sound _ _ _ _ _ H) as [Hin _].
  assert (Hk : (S k < List.length xs)%nat) by (apply nth_error_Some; congruence).
  destruct (Hin k ltac:(lia)) as [Ea _]. destruct (Hin (S k) Hk) as [Eb _].
  rewrite Ea in Ha. rewrite Eb in Hb. injection Ha as <-. injection Hb as <-.
  assert (Hstep : (after_steps k x step <? after_steps k x step + step) = true).
  { apply Hadv. intros j Hj. apply Hin. lia. }
  rewrite <- after_steps_succ in Hstep. exact Hstep.
Qed.
End LoopFacts.

(** ** The abscissa grid *)

Module GridFacts.
Import Double DoubleFacts Rounding LoopFacts Spec.
Open Scope float_scope.

Lemma rank_neg_infinity : rank neg_infinity = (- rank_top)%Z.
Proof. reflexivity. Qed.

Lemma ltb_above_neg_infinity (x y : float) :
  (x <? y) = true -> (neg_infinity <? y) = true.
Proof.
  intros H. apply ltb_true in H. destruct H as [_ [Hy H]].
  apply ltb_true. split; [reflexivity | split; [exact Hy |]].
  rewrite rank_neg_infinity. pose proof (rank_bounds x). lia.
Qed.

(** [x_end] does not exceed the loop bound [x_end + 1e-8]. *)
Lemma x_end_le_bound (params : PlotSpecParams) :
  (x_start params <? x_end params) = true ->
  (x_end params <=? x_bound params) = true.
Proof.
  intros H. unfold x_bound. apply add_nonneg_ge; [reflexivity |].
  now apply ltb_above_neg_infinity with (x := x_start params).
Qed.

Lemma x_start_le_bound (params : PlotSpecParams) :
  (x_start params <? x_end params) = true ->
  (x_start params <=? x_bound params) = true.
Proof.
  intros H. apply ltb_leb. apply ltb_leb_trans with (y := x_end params); [exact H |].
  now apply x_end_le_bound.
Qed.

(** The shape of the grid a terminating, advancing run returns. *)
Lemma grid_shape (params : PlotSpecParams) (fuel : nat) (xs : list float) :
  (x_start params <? x_end params) = true ->
  grid_advances params ->
  generate_x_values fuel params = Some xs ->
  strictly_increasing xs
  /\ hd_error xs = Some (x_start params)
  /\ exists last,
       last_of xs = Some last
       /\ (last <=? x_end params + 1e-8) = true
       /\ (x_end params + 1e-8 <? last + interval params) = true.
Proof.
  intros Hlt Hadv Hrun. unfold generate_x_values in Hrun.
  pose proof (push_while_le_sound _ _ _ _ _ Hrun) as [Hin Hout].
  pose proof (x_start_le_bound params Hlt) as Hfirst. unfold x_bound in Hfirst.
  split; [now apply (push_while_le_increasing fuel _ _ _ xs Hadv) |].
  destruct xs as [| x0 rest].
  { cbn in Hout. congruence. }
  split.
  { destruct (Hin 0%nat ltac:(cbn; lia)) as [E _]. cbn in E. cbn. congruence. }
  set (k := List.length rest).
  destruct (Hin k ltac:(cbn; lia)) as [Ek Hk].
  exists (after_steps k (x_start params) (interval params)).
  split; [exact Ek | split; [exact Hk |]].
  change (List.length (x0 :: rest)) with (S k) in Hout.
  rewrite after_steps_succ in Hout.
  assert (Hstep : (after_steps k (x_start params) (interval params)
                   <? after_steps k (x_start params) (interval params) + interval params) = true).
  { apply Hadv. intros j Hj. apply Hin. cbn. lia. }
  apply ltb_true in Hstep. destruct Hstep as [_ [Hn _]].
  apply leb_true in Hk. destruct Hk as [_ [Hb _]].
  apply leb_false_ltb; assumption.
Qed.

(** With a positive step and a start above -infinity the loop variable
    never falls. *)
Lemma after_steps_nonneg (x step : float) :
  (0 <? step) = true -> (neg_infinity <? x) = true ->
  forall k, (x <=? after_steps k x step) = true.
Proof.
  intros Hs Hx k. induction k as [| k IH].
  - apply leb_refl. apply ltb_true in Hx. tauto.
  - rewrite after_steps_succ.
    apply leb_trans with (y := after_steps k x step); [exact IH |].
    apply add_nonneg_ge; [now apply ltb_leb |].
    apply ltb_true in Hx. destruct Hx as [Hi [_ Hx]].
    apply leb_true in IH. destruct IH as [_ [Hn IH]].
    apply ltb_true. split; [exact Hi | split; [exact Hn | lia]].
Qed.

(** Adding a positive number to a number above -infinity either yields
    more or yields the same double. *)
Lemma add_pos_advance_or_stuck (x step : float) :
  (0 <? step) = true -> (neg_infinity <? x) = true ->
  (x <? x + step) = true \/ x + step = x.
Proof.
  intros Hs Hx.
  pose proof (add_nonneg_ge x step (ltb_leb _ _ Hs) Hx) as Hle.
  apply leb_true in Hle. destruct Hle as [Nx [Nr Hle]].
  destruct (Z.eq_dec (rank x) (rank (x + step))) as [E | Hne].
  2:{ left. apply ltb_true. split; [exact Nx | split; [exact Nr | lia]]. }
  right. unfold rank in E.
  pose proof (proj1 (is_nan_false _) Nx) as Nx'.
  pose proof (proj1 (is_nan_false _) Nr) as Nr'.
  destruct (SFrank_inj _ _ (Prim2SF_valid x) (Prim2SF_valid (x + step)) Nx' Nr' E)
    as [Heq | [sa [sb [Za Zb]]]].
  - symmetry. now apply Prim2SF_inj.
  - exfalso. (* a zero plus a positive number is that number *)
    rewrite add_spec, Za in Zb. unfold SF64add in Zb.
    rewrite FloatAxioms.ltb_spec in Hs. change (Prim2SF 0) with (S754_zero false) in Hs.
    destruct (Prim2SF step) as [s | s | | s m e]; try destruct s; cbn in Hs, Zb;
      try discriminate.
Qed.

(** A loop with a positive step that returns has advanced at every
    step. *)
Lemma terminating_advances (fuel : nat) (x bound step : float) (xs : list float) :
  (0 <? step) = true -> (neg_infinity <? x) = true ->
  push_while_le fuel x bound step = Some xs -> advances x bound step.
Proof.
  intros Hs Hx Hrun k Hk.
  pose proof (push_while_le_sound _ _ _ _ _ Hrun) as [_ Hout].
  assert (Hgk : (neg_infinity <? after_steps k x step) = true).
  { pose proof (after_steps_nonneg x step Hs Hx k) as Hle.
    apply ltb_true in Hx. destruct Hx as [Hi [_ Hx]].
    apply leb_true in Hle. destruct Hle as [_ [Hn Hle]].
    apply ltb_true. split; [exact Hi | split; [exact Hn | lia]]. }
  destruct (add_pos_advance_or_stuck _ _ Hs Hgk) as [Hadv | Hstuck]; [exact Hadv |].
  exfalso.
  assert (Hall : forall j, (after_steps j x step <=? bound) = true).
  { intros j. destruct (Nat.le_gt_cases j k) as [Hle | Hgt]; [now apply Hk |].
    replace j with ((j - k) + k)%nat by lia.
    clear Hgt. induction (j - k)%nat as [| d IH]; [apply Hk; lia |].
    cbn [Nat.add]. rewrite after_steps_succ.
    assert (Ed : after_steps (d + k) x step = after_steps k x step).
    { clear IH. induction d as [| d IHd]; [reflexivity |].
      cbn [Nat.add]. rewrite after_steps_succ, IHd. exact Hstuck. }
    rewrite Ed, Hstuck. apply Hk. lia. }
  rewrite Hall in Hout. discriminate Hout.
Qed.

(** With a step that is not positive the loop variable never rises. *)
Lemma after_steps_nonpos (x step : float) :
  (step <=? 0) = true -> (x <? infinity) = true ->
  forall k, (after_steps k x step <=? x) = true.
Proof.
  intros Hs Hx k. induction k as [| k IH].
  - apply leb_refl. apply ltb_true in Hx. tauto.
  - rewrite after_steps_succ.
    apply leb_trans with (y := after_steps k x step); [| exact IH].
    apply add_nonpos_le; [exact Hs |].
    apply ltb_true in Hx. destruct Hx as [_ [Hi Hx]].
    apply leb_true in IH. destruct IH as [Hn [_ IH]].
    apply ltb_true. split; [exact Hn | split; [exact Hi | lia]].
Qed.
End GridFacts.

(** ** Claims about the abscissa grid *)

Module GridClaims.
Import Double DoubleFacts Rounding LoopFacts Spec GridFacts Inputs.
Open Scope float_scope.

Lemma advances_check_sound (fuel : nat) (x bound step : float) :
  advances_check fuel x bound step = true -> advances x bound step.
Proof.
  revert x. induction fuel as [| fuel IH]; intros x H; [discriminate |].
  cbn [advances_check] in H. destruct (x <=? bound) eqn:Hx.
  - apply andb_true_iff in H. destruct H as [Hlt Hrest].
    pose proof (IH _ Hrest) as Hnext.
    intros [| k] Hk; [exact Hlt |].
    apply (Hnext k). intros j Hj. apply (Hk (S j)). lia.
  - intros k Hk. specialize (Hk 0%nat ltac:(lia)). cbn in Hk. congruence.
Qed.

Lemma generate_x_values_unique (params : PlotSpecParams) (f1 f2 : nat) (xs1 xs2 : list float) :
  generate_x_values f1 params = Some xs1 ->
  generate_x_values f2 params = Some xs2 -> xs1 = xs2.
Proof.
  unfold generate_x_values. intros H1 H2.
  pose proof (push_while_le_fuel _ (Nat.max f1 f2) _ _ _ _ H1 ltac:(lia)) as E1.
  pose proof (push_while_le_fuel _ (Nat.max f1 f2) _ _ _ _ H2 ltac:(lia)) as E2.
  congruence.
Qed.

Lemma stuck_grid_diverges (fuel : nat) : generate_x_values fuel stuck_grid = None.
Proof.
  unfold generate_x_values. apply push_while_le_diverges. intros k.
  rewrite after_steps_stuck by reflexivity. reflexivity.
Qed.

(** C2, counterexample.  On [stuck_grid] the preconditions hold and the
    loop never returns; on [coarse_grid] it returns 2^53, 2^53 + 4, and
    [x_end - interval] evaluates to the last element, not to something
    below it. *)
Lemma x_values_counterexample :
  ((x_start stuck_grid <? x_end stuck_grid) = true
   /\ (0 <? interval stuck_grid) = true
   /\ ~ grid_as_specified stuck_grid)
  /\ ((x_start coarse_grid <? x_end coarse_grid) = true
      /\ (0 <? interval coarse_grid) = true
      /\ ~ grid_as_specified coarse_grid).
Proof.
  split; (split; [reflexivity | split; [reflexivity |]]).
  - intros [fuel [xs [last [H _]]]]. rewrite stuck_grid_diverges in H. discriminate.
  - intros [fuel [xs [last [H [_ [_ [Hl [Hlow _]]]]]]]].
    assert (E : generate_x_values 3 coarse_grid
                = Some [9007199254740992; 9007199254740996]) by reflexivity.
    rewrite (generate_x_values_unique _ _ _ _ _ H E) in Hl.
    injection Hl as <-. vm_compute in Hlow. discriminate Hlow.
Qed.

(** C2, amended.  For [x_start < x_end] and [interval > 0], whenever each
    addition of the loop moves [current_x] upwards, the loop returns a
    strictly increasing grid that starts at [x_start]; its last element is
    at most [x_end + 1e-8], and one more step from it exceeds
    [x_end + 1e-8]. *)
Theorem x_values_increasing (params : PlotSpecParams) :
  (x_start params <? x_end params) = true ->
  (0 <? interval params) = true ->
  grid_advances params ->
  exists (fuel : nat) (xs : list float) (last : float),
    generate_x_values fuel params = Some xs
    /\ strictly_increasing xs
    /\ hd_error xs = Some (x_start params)
    /\ last_of xs = Some last
    /\ (last <=? x_end params + 1e-8) = true
    /\ (x_end params + 1e-8 <? last + interval params) = true.
Proof.
  intros Hlt _ Hadv.
  destruct (push_while_le_terminates _ _ _ Hadv) as [fuel [xs Hrun]].
  destruct (grid_shape params fuel xs Hlt Hadv Hrun) as [Hinc [Hhd [last [Hl [Hle Hnext]]]]].
  exists fuel, xs, last. repeat split; assumption.
Qed.

Lemma default_grid_advances : grid_advances default_grid.
Proof. apply (advances_check_sound 1000). vm_compute. reflexivity. Qed.

Lemma x_values_increasing_witness :
  exists (fuel : nat) (xs : list float) (last : float),
    generate_x_values fuel default_grid = Some xs
    /\ strictly_increasing xs
    /\ hd_error xs = Some 200
    /\ last_of xs = Some last
    /\ (last <=? 1000 + 1e-8) = true
    /\ (1000 + 1e-8 <? last + 1) = true.
Proof.
  apply (x_values_increasing default_grid);
    [reflexivity | reflexivity | exact default_grid_advances].
Defined.

(** C7, counterexample.  On [overshoot_grid] the grid point 1 lies 7e-9
    beyond [x_end], more than [interval * 1e-8 = 5e-9], and is kept. *)
Lemma scaled_endpoint_counterexample :
  (x_start overshoot_grid <? x_end overshoot_grid) = true
  /\ (0 <? interval overshoot_grid) = true
  /\ ~ scaled_endpoint_rule overshoot_grid.
Proof.
  split; [reflexivity | split; [reflexivity |]].
  intros H. specialize (H 5%nat [0; 0.5; 1] 2%nat eq_refl).
  assert (Hprev : forall j, (j < 2)%nat ->
            (grid_point overshoot_grid j <=? x_end overshoot_grid) = true).
  { intros [| [| j]] Hj; [reflexivity | reflexivity | lia]. }
  specialize (H Hprev eq_refl). destruct H as [H _].
  specialize (H ltac:(cbn; lia)). vm_compute in H. discriminate H.
Qed.

(** C7, amended.  For [x_start < x_end] and [interval > 0], on a run
    whose additions advance, [x_values] is generated by stepping from
    [x_start]: it begins with [x_start], and its element [k] is [x_start]
    after [k] additions of [interval], each element being its
    predecessor plus [interval]; and a grid point all of whose
    predecessors lie at or below [x_end] is an element of
    [x_values] exactly when it is at most [x_end + 1e-8]: the tolerance
    is absolute and does not depend on [interval]. *)
Theorem x_values_endpoint (params : PlotSpecParams) :
  (x_start params <? x_end params) = true ->
  (0 <? interval params) = true ->
  grid_advances params ->
  exists (fuel : nat) (xs : list float),
    generate_x_values fuel params = Some xs
    /\ hd_error xs = Some (x_start params)
    /\ (forall (k : nat) (a b : float),
          nth_error xs k = Some a -> nth_error xs (S k) = Some b ->
          b = a + interval params)
    /\ (forall (k : nat) (x : float),
          nth_error xs k = Some x <->
          (k < List.length xs)%nat /\ x = grid_point params k)
    /\ forall k : nat,
         (forall j, (j < k)%nat -> (grid_point params j <=? x_end params) = true) ->
         ((k < List.length xs)%nat /\ nth_error xs k = Some (grid_point params k)
          <-> (grid_point params k <=? x_end params + 1e-8) = true).
Proof.
  intros Hlt _ Hadv.
  destruct (push_while_le_terminates _ _ _ Hadv) as [fuel [xs Hrun]].
  exists fuel, xs. split; [exact Hrun |].
  destruct (grid_shape params fuel xs Hlt Hadv Hrun) as [_ [Hhd _]].
  split; [exact Hhd |].
  pose proof (push_while_le_sound _ _ _ _ _ Hrun) as [Hin Hout].
  pose proof (x_end_le_bound params Hlt) as Hend. unfold x_bound in *.
  assert (Hnth : forall (k : nat) (x : float),
            nth_error xs k = Some x <->
            (k < List.length xs)%nat /\ x = grid_point params k).
  { intros k x. unfold grid_point. split.
    - intros Hk. assert (Hlen : (k < List.length xs)%nat)
        by (apply nth_error_Some; congruence).
      split; [exact Hlen |]. destruct (Hin k Hlen) as [E _]. congruence.
    - intros [Hlen ->]. now destruct (Hin k Hlen). }
  split.
  { intros k a b Ha Hb. apply Hnth in Ha, Hb.
    destruct Ha as [_ ->]. destruct Hb as [_ ->].
    unfold grid_point. apply after_steps_succ. }
  split; [exact Hnth |].
  intros k Hprev.
  assert (Hkeep : (k < List.length xs)%nat
                  <-> (grid_point params k <=? x_end params + 1e-8) = true);
    [| split; [intros [Hk _]; now apply Hkeep
              | intros Hk; apply Hkeep in Hk; split; [exact Hk | now apply Hnth]]].
  unfold grid_point in *. split.
  - intros Hk. apply Hin. exact Hk.
  - intros Hk. destruct (Nat.lt_ge_cases k (List.length xs)) as [Hlt' | Hge]; [exact Hlt' |].
    exfalso. destruct (Nat.eq_dec k (List.length xs)) as [-> | Hne].
    + congruence.
    + assert (Hj : (after_steps (List.length xs) (x_start params) (interval params)
                    <=? x_end params + 1e-8) = true).
      { apply leb_trans with (y := x_end params); [apply Hprev; lia | exact Hend]. }
      congruence.
Qed.

Lemma x_values_endpoint_witness :
  exists (fuel : nat) (xs : list float),
    generate_x_values fuel default_grid = Some xs
    /\ hd_error xs = Some 200
    /\ (forall (k : nat) (a b : float),
          nth_error xs k = Some a -> nth_error xs (S k) = Some b -> b = a + 1)
    /\ (forall (k : nat) (x : float),
          nth_error xs k = Some x <->
          (k < List.length xs)%nat /\ x = grid_point default_grid k)
    /\ forall k : nat,
         (forall j, (j < k)%nat -> (grid_point default_grid j <=? 1000) = true) ->
         ((k < List.length xs)%nat /\ nth_error xs k = Some (grid_point default_grid k)
          <-> (grid_point default_grid k <=? 1000 + 1e-8) = true).
Proof.
  apply (x_values_endpoint default_grid);
    [reflexivity | reflexivity | exact default_grid_advances].
Defined.

(** C10, counterexample.  [stuck_grid] has finite bounds and a positive
    interval, and its loop does not terminate: 1e16 + 1 rounds to 1e16. *)
Lemma termination_counterexample :
  is_finite (x_start stuck_grid) = true
  /\ is_finite (x_end stuck_grid) = true
  /\ (0 <? interval stuck_grid) = true
  /\ ~ grid_terminates stuck_grid.
Proof.
  repeat (split; [reflexivity |]).
  intros [fuel [xs H]]. rewrite stuck_grid_diverges in H. discriminate.
Qed.

(** C10, amended.  For [interval > 0] and [x_start] above -infinity the
    loop terminates exactly when each addition it performs moves
    [current_x] upwards (a positive interval and finite bounds alone do
    not ensure that).  With [interval <= 0], [x_start] below +infinity and
    [x_start <= x_end + 1e-8], the loop variable never passes the bound
    and the loop does not terminate. *)
Theorem x_values_termination (params : PlotSpecParams) :
  ((0 <? interval params) = true ->
   (neg_infinity <? x_start params) = true ->
   (grid_terminates params <-> grid_advances params))
  /\ ((interval params <=? 0) = true ->
      (x_start params <? infinity) = true ->
      (x_start params <=? x_end params + 1e-8) = true ->
      forall fuel, generate_x_values fuel params = None).
Proof.
  split.
  - intros Hstep Hfin. split.
    + intros [fuel [xs Hrun]].
      exact (terminating_advances fuel _ _ _ xs Hstep Hfin Hrun).
    + intros Hadv. exact (push_while_le_terminates _ _ _ Hadv).
  - intros Hstep Hfin Hin fuel. unfold generate_x_values.
    apply push_while_le_diverges. intros k.
    apply leb_trans with (y := x_start params); [| exact Hin].
    now apply after_steps_nonpos.
Qed.

Lemma x_values_termination_witness :
  (grid_terminates default_grid <-> grid_advances default_grid)
  /\ forall fuel, generate_x_values fuel flat_grid = None.
Proof.
  split.
  - exact (proj1 (x_values_termination default_grid) eq_refl eq_refl).
  - exact (proj2 (x_values_termination flat_grid) eq_refl eq_refl eq_refl).
Defined.
End GridClaims.

(** ** Zeros, infinities and NaN *)

Module SpecialValues.
Import Double DoubleFacts.
Open Scope float_scope.

Lemma of_spec (x : float) (a : spec_float) : Prim2SF x = a -> x = SF2Prim a.
Proof. intros <-. symmetry. apply SF2Prim_Prim2SF. Qed.

(** [v - v] is +0, or NaN when [v] is not finite. *)
Lemma sub_self (v : float) : v - v = 0 \/ v - v = nan.
Proof.
  assert (H : Prim2SF (v - v) = S754_zero false \/ Prim2SF (v - v) = S754_nan).
  { rewrite sub_spec. unfold SF64sub.
    destruct (Prim2SF v) as [s | s | | s m e]; cbn [SFsub].
    - left. destruct s; reflexivity.
    - right. destruct s; reflexivity.
    - now right.
    - left. cbn zeta. rewrite Z.sub_diag. reflexivity. }
  destruct H as [H | H]; apply of_spec in H; [left | right]; exact H.
Qed.

(** [v / 0] is an infinity or NaN. *)
Lemma div_zero (v : float) : v / 0 = infinity \/ v / 0 = neg_infinity \/ v / 0 = nan.
Proof.
  assert (H : Prim2SF (v / 0) = S754_infinity false
              \/ Prim2SF (v / 0) = S754_infinity true
              \/ Prim2SF (v / 0) = S754_nan).
  { rewrite div_spec. unfold SF64div. change (Prim2SF 0) with (S754_zero false).
    destruct (Prim2SF v) as [s | s | | s m e]; cbn [SFdiv];
      try (destruct s; cbn; tauto); tauto. }
  destruct H as [H | [H | H]]; apply of_spec in H; tauto.
Qed.

Lemma div_nan (v : float) : v / nan = nan.
Proof.
  apply Prim2SF_inj. rewrite div_spec. unfold SF64div.
  change (Prim2SF nan) with S754_nan.
  destruct (Prim2SF v) as [s | s | | s m e]; reflexivity.
Qed.

End SpecialValues.

(** ** Rounding to an integer: [floor] and [ceil] *)

Module FloorFacts.
Import Double DoubleFacts Rounding Spec SpecialValues.
Open Scope Z_scope.

Lemma as_fraction_opp (y : float) (num den : Z) :
  as_fraction y = Some (num, den) -> as_fraction (- y)%float = Some (- num, den).
Proof.
  unfold as_fraction. rewrite FloatAxioms.opp_spec.
  destruct (Prim2SF y) as [s | s | | s m e]; cbn [SFopp]; try discriminate.
  - intros H. injection H as <- <-. reflexivity.
  - destruct (0 <=? e); intros H;
      [assert (Hn : num = cond_Zopp s (Zpos m * 2 ^ e) /\ den = 1) by (split; congruence)
      | assert (Hn : num = cond_Zopp s (Zpos m) /\ den = 2 ^ (- e)) by (split; congruence)];
      destruct Hn as [-> ->]; destruct s; cbn [negb cond_Zopp];
      rewrite ?Z.opp_involutive; reflexivity.
Qed.

Lemma denotes_opp (y : float) (k : Z) : denotes y k -> denotes (- y)%float (- k).
Proof.
  intros [num [den [H E]]]. exists (- num), den.
  split; [now apply as_fraction_opp | lia].
Qed.

(** A double whose representation is the rounding of the integer [q],
    where [q] is below 2^53, denotes [q]. *)
Lemma denotes_rounded_integer (s : bool) (q : positive) (y : float) :
  Zpos q < 2 ^ 53 ->
  y = SF2Prim (binary_round prec emax s q 0) ->
  denotes y (cond_Zopp s (Zpos q)).
Proof.
  intros Hq ->. destruct (binary_round_integer s q Hq) as [mz [ez [E [Hb [Hez Hm]]]]].
  unfold denotes, as_fraction. rewrite E, Prim2SF_SF2Prim by exact Hb.
  destruct (0 <=? ez) eqn:H0.
  - apply Z.leb_le in H0. assert (ez = 0) by lia. subst ez.
    exists (cond_Zopp s (Zpos mz * 2 ^ 0)), 1. split; [reflexivity |].
    change (2 ^ (- 0)) with 1 in Hm. change (2 ^ 0) with 1.
    destruct s; cbn [cond_Zopp]; lia.
  - exists (cond_Zopp s (Zpos mz)), (2 ^ (- ez)). split; [reflexivity |].
    rewrite Hm. destruct s; cbn [cond_Zopp]; lia.
Qed.

(** [floor] of a finite double is the double that denotes the greatest
    integer not above it. *)
Lemma floor_spec (x : float) (num den : Z) :
  as_fraction x = Some (num, den) ->
  exists k : Z, denotes (floor x) k /\ k * den <= num < (k + 1) * den.
Proof.
  unfold as_fraction. pose proof (Prim2SF_valid x) as V.
  destruct (Prim2SF x) as [s | s | | s m e] eqn:E; try discriminate.
  - intros H. injection H as <- <-. exists 0. split; [| lia].
    exists 0, 1. split; [| reflexivity].
    unfold as_fraction, floor. rewrite E. cbn [SFfloor].
    rewrite Prim2SF_SF2Prim by reflexivity. reflexivity.
  - cbn [valid_binary] in V. pose proof (bounded_range m e V) as [Hm He].
    destruct (0 <=? e) eqn:H0; intros H.
    + assert (Hn : num = cond_Zopp s (Zpos m * 2 ^ e) /\ den = 1) by (split; congruence).
      destruct Hn as [-> ->]. clear H.
      exists (cond_Zopp s (Zpos m * 2 ^ e)).
      split; [| generalize (cond_Zopp s (Zpos m * 2 ^ e)); intros; lia].
      exists (cond_Zopp s (Zpos m * 2 ^ e)), 1.
      split; [| generalize (cond_Zopp s (Zpos m * 2 ^ e)); intros; lia].
      unfold as_fraction, floor. rewrite E. cbn [SFfloor]. rewrite H0.
      rewrite Prim2SF_SF2Prim by exact V. rewrite H0. reflexivity.
    + assert (Hn : num = cond_Zopp s (Zpos m) /\ den = 2 ^ (- e)) by (split; congruence).
      destruct Hn as [-> ->]. clear H.
      apply Z.leb_gt in H0.
      assert (HD : 2 <= 2 ^ (- e)).
      { change 2 with (2 ^ 1) at 1. apply Z.pow_le_mono_r; lia. }
      set (D := 2 ^ (- e)) in *.
      assert (Hq : Z.shiftr (Zpos m) (- e) = Zpos m / D)
        by (apply Z.shiftr_div_pow2; lia).
      pose proof (Z.div_mod (Zpos m) D ltac:(lia)) as Hdm.
      pose proof (Z.mod_pos_bound (Zpos m) D ltac:(lia)) as Hr.
      assert (Hq0 : 0 <= Zpos m / D) by (apply Z.div_pos; lia).
      assert (Hq1 : Zpos m / D < 2 ^ 52).
      { apply Z.div_lt_upper_bound; [lia |]. pow_consts.
        change (2 ^ 52) with 4503599627370496. nia. }
      unfold floor. rewrite E. cbn [SFfloor].
      replace (0 <=? e) with false by (symmetry; apply Z.leb_gt; lia).
      rewrite Hq. rewrite Z.shiftl_mul_pow2 by lia. fold D.
      set (q := Zpos m / D) in *.
      assert (H53 : 2 ^ 52 + 1 < 2 ^ 53) by reflexivity.
      destruct s; cbn [cond_Zopp].
      * set (n := if q * D =? Zpos m then q else q + 1).
        assert (Hn : 0 < n < 2 ^ 53 /\ (n - 1) * D < Zpos m <= n * D).
        { subst n. destruct (q * D =? Zpos m) eqn:Ex.
          - apply Z.eqb_eq in Ex. split; nia.
          - apply Z.eqb_neq in Ex. split; nia. }
        destruct Hn as [Hn0 Hn1]. exists (- n). split; [| nia].
        destruct n as [| p | p]; try lia.
        change (- Zpos p) with (Zneg p). cbn [binary_normalize].
        apply (denotes_rounded_integer true p); [lia | reflexivity].
      * exists q. split; [| nia].
        destruct q as [| p | p] eqn:Eq; try lia.
        -- cbn [binary_normalize]. exists 0, 1. split; [| reflexivity].
           unfold as_fraction. rewrite Prim2SF_SF2Prim by reflexivity. reflexivity.
        -- cbn [binary_normalize].
           apply (denotes_rounded_integer false p); [lia | reflexivity].
Qed.

(** [ceil] of a finite double is the double that denotes the least
    integer not below it. *)
Lemma ceil_spec (x : float) (num den : Z) :
  as_fraction x = Some (num, den) ->
  exists n : Z, denotes (ceil x) n /\ num <= n * den < num + den.
Proof.
  intros H. apply as_fraction_opp in H.
  destruct (floor_spec _ _ _ H) as [k [Hk Hle]].
  exists (- k). split; [now apply denotes_opp | lia].
Qed.
End FloorFacts.

(** ** The tick generator *)

Module TickFacts.
Import Double DoubleFacts LoopFacts Spec SpecialValues.
Open Scope float_scope.

Section WithLibm.
Context (L : Libm).

(** For [max == min] the step is 0, or NaN when the common value is not
    finite: the zero rough step goes through [log10], [pow] and the
    division unguarded. *)
Lemma nice_step_degenerate (v : float) :
  nice_step_of L v v 6 = 0 \/ nice_step_of L v v 6 = nan.
Proof.
  unfold nice_step_of. destruct (sub_self v) as [E | E]; rewrite E.
  - left. reflexivity.
  - right. reflexivity.
Qed.

Lemma tick_start_degenerate (v : float) : tick_start L v v = nan.
Proof.
  unfold tick_start. destruct (nice_step_degenerate v) as [E | E]; rewrite E.
  - destruct (div_zero v) as [D | [D | D]]; rewrite D; reflexivity.
  - rewrite div_nan. reflexivity.
Qed.

Lemma calculateNiceTicks_loop (fuel : nat) (min_val max_val : float) :
  calculateNiceTicks L fuel min_val max_val 6
  = push_while_le fuel (tick_start L min_val max_val) (tick_bound L min_val max_val)
      (nice_step_of L min_val max_val 6).
Proof. reflexivity. Qed.

Lemma nice_ticks_degenerate (fuel : nat) (v : float) :
  calculateNiceTicks L (S fuel) v v 6 = Some [].
Proof.
  rewrite calculateNiceTicks_loop, tick_start_degenerate.
  cbn [push_while_le]. rewrite leb_false_nan_l. reflexivity.
Qed.
End WithLibm.
End TickFacts.

(** ** Claims about the tick generator *)

Module TickClaims.
Import Double DoubleFacts LoopFacts Spec SpecialValues FloorFacts TickFacts GridClaims.
Open Scope float_scope.

Lemma calculateNiceTicks_unique (L : Libm) (min_val max_val : float)
    (f1 f2 : nat) (t1 t2 : list float) :
  calculateNiceTicks L f1 min_val max_val 6 = Some t1 ->
  calculateNiceTicks L f2 min_val max_val 6 = Some t2 -> t1 = t2.
Proof.
  rewrite !calculateNiceTicks_loop. intros H1 H2.
  pose proof (push_while_le_fuel _ (Nat.max f1 f2) _ _ _ _ H1 ltac:(lia)) as E1.
  pose proof (push_while_le_fuel _ (Nat.max f1 f2) _ _ _ _ H2 ltac:(lia)) as E2.
  congruence.
Qed.

(** C4, counterexample.  Three ranges with [min < max], run with the
    reference C library: over (-1e308, 1e308) the range overflows and no
    tick is produced (this needs only the values Annex F fixes); over
    (-1999.86, -1999.78) the first tick is -1999.8600000000001, below
    [min]; over (1e16, 1e16 + 2) the step 0.5 is absorbed and the loop
    never returns. *)
Lemma nice_ticks_counterexample :
  ((-1e308 <? 1e308) = true
   /\ ~ first_tick_as_specified RefLibm.libm (-1e308) 1e308)
  /\ ((-1999.86 <? -1999.78) = true
      /\ ~ first_tick_as_specified RefLibm.libm (-1999.86) (-1999.78))
  /\ ((1e16 <? 10000000000000002) = true
      /\ ~ first_tick_as_specified RefLibm.libm 1e16 10000000000000002).
Proof.
  split; [| split]; (split; [reflexivity |]).
  - intros [fuel [ticks [first [H [Hhd _]]]]].
    assert (E : calculateNiceTicks RefLibm.libm 1 (-1e308) 1e308 6 = Some [])
      by (vm_compute; reflexivity).
    rewrite (calculateNiceTicks_unique _ _ _ _ _ _ _ H E) in Hhd. discriminate Hhd.
  - intros [fuel [ticks [first [H [Hhd Hge]]]]].
    assert (E : exists rest,
              calculateNiceTicks RefLibm.libm 6 (-1999.86) (-1999.78) 6
              = Some (-1999.8600000000001 :: rest))
      by (eexists; vm_compute; reflexivity).
    destruct E as [rest E].
    rewrite (calculateNiceTicks_unique _ _ _ _ _ _ _ H E) in Hhd.
    injection Hhd as <-. vm_compute in Hge. discriminate Hge.
  - intros [fuel [ticks [first [H _]]]].
    rewrite calculateNiceTicks_loop in H.
    assert (Es : tick_start RefLibm.libm 1e16 10000000000000002 = 1e16)
      by (vm_compute; reflexivity).
    assert (En : nice_step_of RefLibm.libm 1e16 10000000000000002 6 = 0.5)
      by (vm_compute; reflexivity).
    assert (Eb : (1e16 <=? tick_bound RefLibm.libm 1e16 10000000000000002) = true)
      by (vm_compute; reflexivity).
    rewrite Es, En in H.
    assert (D : push_while_le fuel 1e16 (tick_bound RefLibm.libm 1e16 10000000000000002) 0.5
                = None).
    { apply push_while_le_diverges. intros k.
      rewrite after_steps_stuck by reflexivity. exact Eb. }
    rewrite D in H. discriminate H.
Qed.

(** C4, amended.  For [min < max]: the step is the magnitude
    [pow(10, floor(log10(rough_step)))], [rough_step = (max - min) / 5],
    times 1, 2, 5 or 10, the factor being the first of 1, 2, 5 that the
    quotient [rough_step / magnitude] does not exceed, and 10 when there
    is none; [floor] of a finite logarithm is the double denoting the
    greatest integer not above it.  The first tick is the product
    [ceil(min / step) * step], where [ceil] of a finite quotient is the
    double denoting the least integer not below it; quotient and product
    are rounded, so that the first tick need not be a multiple of the
    step at or above [min].  Whenever each addition of the tick loop
    moves the tick upwards, the function returns a strictly increasing
    list: it is empty when the first tick exceeds [max + step * 0.1] and
    begins with the first tick otherwise, each later element is its
    predecessor plus the step, and an element is present exactly when it
    and all earlier ones are at most [max + step * 0.1]. *)
Theorem nice_ticks_spec (L : Libm) (min_val max_val : float) :
  (min_val <? max_val) = true ->
  ticks_advance L min_val max_val ->
  let rough_step := (max_val - min_val) / 5 in
  let magnitude := magnitude_of L min_val max_val in
  let normalized := rough_step / magnitude in
  let step := nice_step_of L min_val max_val 6 in
  let first := ceil (min_val / step) * step in
  (step = magnitude \/ step = 2 * magnitude \/ step = 5 * magnitude
   \/ step = 10 * magnitude)
  /\ (magnitude = pow L 10 (floor (log10 L rough_step))
      /\ forall num den : Z,
           as_fraction (log10 L rough_step) = Some (num, den) ->
           exists k : Z,
             denotes (floor (log10 L rough_step)) k
             /\ (k * den <= num < (k + 1) * den)%Z)
  /\ (((normalized <=? 1) = true -> step = magnitude)
      /\ ((normalized <=? 1) = false -> (normalized <=? 2) = true -> step = 2 * magnitude)
      /\ ((normalized <=? 1) = false -> (normalized <=? 2) = false ->
          (normalized <=? 5) = true -> step = 5 * magnitude)
      /\ ((normalized <=? 1) = false -> (normalized <=? 2) = false ->
          (normalized <=? 5) = false -> step = 10 * magnitude))
  /\ (forall num den : Z,
        as_fraction (min_val / step) = Some (num, den) ->
        exists n : Z,
          denotes (ceil (min_val / step)) n /\ (num <= n * den < num + den)%Z)
  /\ exists (fuel : nat) (ticks : list float),
       calculateNiceTicks L fuel min_val max_val 6 = Some ticks
       /\ strictly_increasing ticks
       /\ (forall k, (k < List.length ticks)%nat ->
             nth_error ticks k
             = Some (after_steps k (ceil (min_val / step) * step) step))
       /\ (forall k, (k < List.length ticks)%nat <->
             forall j, (j <= k)%nat ->
               (after_steps j (ceil (min_val / step) * step) step
                <=? max_val + step * 0.1) = true)
       /\ ((first <=? max_val + step * 0.1) = true -> hd_error ticks = Some first)
       /\ ((first <=? max_val + step * 0.1) = false -> ticks = [])
       /\ (forall k a b,
             nth_error ticks k = Some a -> nth_error ticks (S k) = Some b ->
             b = a + step).
Proof.
  intros _ Hadv rough_step magnitude normalized step first.
  assert (Hstep : step = if normalized <=? 1 then magnitude
                         else if normalized <=? 2 then 2 * magnitude
                         else if normalized <=? 5 then 5 * magnitude
                         else 10 * magnitude) by reflexivity.
  split.
  { rewrite Hstep. destruct (_ <=? 1); [tauto |].
    destruct (_ <=? 2); [tauto |]. destruct (_ <=? 5); tauto. }
  split.
  { split; [reflexivity |]. intros num den H. now apply floor_spec. }
  split.
  { rewrite Hstep. repeat split; intros; 
      repeat match goal with H : (_ <=? _) = _ |- _ => rewrite H; clear H end; reflexivity. }
  split.
  { intros num den H. now apply ceil_spec. }
  destruct (push_while_le_terminates _ _ _ Hadv) as [fuel [ticks Hrun]].
  exists fuel, ticks. rewrite calculateNiceTicks_loop.
  split; [exact Hrun |].
  split; [exact (push_while_le_increasing _ _ _ _ _ Hadv Hrun) |].
  pose proof (push_while_le_sound _ _ _ _ _ Hrun) as [Hin Hout].
  fold step in Hin, Hout. unfold tick_start, tick_bound in Hin, Hout. fold step in Hin, Hout.
  fold first in Hin, Hout |- *.
  split; [intros k Hk; apply Hin; exact Hk |].
  split.
  { intros k. split.
    - intros Hk j Hj. apply Hin. lia.
    - intros Hall. destruct (Nat.lt_ge_cases k (List.length ticks)) as [Hlt | Hge]; [exact Hlt |].
      specialize (Hall (List.length ticks) Hge). congruence. }
  split.
  { intros Hfirst. destruct ticks as [| t rest].
    - cbn [List.length after_steps] in Hout. congruence.
    - destruct (Hin 0%nat ltac:(cbn; lia)) as [E _]. exact E. }
  split.
  { intros Hfirst. destruct ticks as [| t rest]; [reflexivity |].
    destruct (Hin 0%nat ltac:(cbn; lia)) as [_ E]. cbn [after_steps] in E. congruence. }
  intros k a b Ha Hb.
  assert (Hk : (S k < List.length ticks)%nat) by (apply nth_error_Some; congruence).
  destruct (Hin k ltac:(lia)) as [Ea _]. destruct (Hin (S k) Hk) as [Eb _].
  rewrite Ea in Ha. rewrite Eb in Hb. injection Ha as <-. injection Hb as <-.
  apply after_steps_succ.
Qed.

Lemma nice_ticks_spec_witness :
  (let rough_step := (1000 - 200) / 5 in
   let magnitude := magnitude_of RefLibm.libm 200 1000 in
   let normalized := rough_step / magnitude in
   let step := nice_step_of RefLibm.libm 200 1000 6 in
   let first := ceil (200 / step) * step in
   (step = magnitude \/ step = 2 * magnitude \/ step = 5 * magnitude
    \/ step = 10 * magnitude)
   /\ (magnitude = pow RefLibm.libm 10 (floor (log10 RefLibm.libm rough_step))
       /\ forall num den : Z,
            as_fraction (log10 RefLibm.libm rough_step) = Some (num, den) ->
            exists k : Z,
              denotes (floor (log10 RefLibm.libm rough_step)) k
              /\ (k * den <= num < (k + 1) * den)%Z)
   /\ (((normalized <=? 1) = true -> step = magnitude)
       /\ ((normalized <=? 1) = false -> (normalized <=? 2) = true -> step = 2 * magnitude)
       /\ ((normalized <=? 1) = false -> (normalized <=? 2) = false ->
           (normalized <=? 5) = true -> step = 5 * magnitude)
       /\ ((normalized <=? 1) = false -> (normalized <=? 2) = false ->
           (normalized <=? 5) = false -> step = 10 * magnitude))
   /\ (forall num den : Z,
         as_fraction (200 / step) = Some (num, den) ->
         exists n : Z,
           denotes (ceil (200 / step)) n /\ (num <= n * den < num + den)%Z)
   /\ exists (fuel : nat) (ticks : list float),
        calculateNiceTicks RefLibm.libm fuel 200 1000 6 = Some ticks
        /\ strictly_increasing ticks
        /\ (forall k, (k < List.length ticks)%nat ->
              nth_error ticks k = Some (after_steps k (ceil (200 / step) * step) step))
        /\ (forall k, (k < List.length ticks)%nat <->
              forall j, (j <= k)%nat ->
                (after_steps j (ceil (200 / step) * step) step <=? 1000 + step * 0.1) = true)
        /\ ((first <=? 1000 + step * 0.1) = true -> hd_error ticks = Some first)
        /\ ((first <=? 1000 + step * 0.1) = false -> ticks = [])
        /\ (forall k a b,
              nth_error ticks k = Some a -> nth_error ticks (S k) = Some b ->
              b = a + step))
  /\ ((1000 - 200) / 5 = 160
      /\ floor (log10 RefLibm.libm 160) = 2
      /\ magnitude_of RefLibm.libm 200 1000 = 100
      /\ 160 / 100 = 1.6
      /\ nice_step_of RefLibm.libm 200 1000 6 = 200
      /\ ceil (200 / 200) * 200 = 200
      /\ calculateNiceTicks RefLibm.libm 10 200 1000 6 = Some [200; 400; 600; 800; 1000]).
Proof.
  split.
  - apply (nice_ticks_spec RefLibm.libm 200 1000); [reflexivity |].
    apply (advances_check_sound 10). vm_compute. reflexivity.
  - repeat split; vm_compute; reflexivity.
Defined.

(** C5, counterexample.  For [min = max = 5] no tick is emitted and the
    step is 0: the degenerate range is not special-cased. *)
Lemma degenerate_counterexample : ~ degenerate_special_cased RefLibm.libm 5.
Proof.
  intros [fuel [ticks [H [Hone | Hstep]]]].
  - pose proof (nice_ticks_degenerate RefLibm.libm 0 5) as E.
    rewrite (calculateNiceTicks_unique _ _ _ _ _ _ _ H E) in Hone. discriminate Hone.
  - vm_compute in Hstep. discriminate Hstep.
Qed.

(** C5, amended.  For [max == min] the function has no special case: the
    zero rough step is passed to [log10], [pow] and the divisions; under
    IEEE-754 arithmetic nothing traps, the step comes out as 0 (NaN when
    the common value is infinite or NaN), the first tick is NaN, and the
    function returns an empty list of ticks. *)
Theorem nice_ticks_degenerate_empty (L : Libm) (v : float) (fuel : nat) :
  (nice_step_of L v v 6 = 0 \/ nice_step_of L v v 6 = nan)
  /\ ceil (v / nice_step_of L v v 6) * nice_step_of L v v 6 = nan
  /\ calculateNiceTicks L (S fuel) v v 6 = Some [].
Proof.
  split; [apply nice_step_degenerate |].
  split; [apply tick_start_degenerate | apply nice_ticks_degenerate].
Qed.
End TickClaims.

(** ** Claims about synthesis *)

Module SynthesisClaims.
Import Double LoopFacts Spec Inputs SpecialValues GridClaims.
Open Scope float_scope.

Lemma map_constant {A B : Type} (f : A -> B) (c : B) (l : list A) :
  (forall a, f a = c) -> map f l = repeat c (List.length l).
Proof.
  intros H. induction l as [| a l IH]; cbn; [reflexivity |].
  rewrite H, IH. reflexivity.
Qed.

Section WithLibm.
Context (L : Libm).

Lemma abs_intensity_no_unit (u : string) (f s x : float) :
  recognized_unit u = false -> abs_intensity L u f s x = 0.
Proof.
  unfold recognized_unit, abs_intensity. cbn [existsb]. intros H.
  destruct (u =? "nm")%string; [discriminate |].
  destruct (u =? "eV")%string; [discriminate |].
  destruct (u =? "cm-1")%string; [discriminate | reflexivity].
Qed.

Lemma emi_intensity_no_unit (u : string) (f s x : float) :
  (u =? "nm")%string = false -> (u =? "eV")%string = false ->
  emi_intensity L u f s x = 0.
Proof. unfold emi_intensity. intros -> ->. reflexivity. Qed.

Lemma cd_intensity_no_unit (u : string) (f s x : float) :
  (u =? "nm")%string = false -> (u =? "eV")%string = false ->
  cd_intensity L u f s x = 0.
Proof. unfold cd_intensity. intros -> ->. reflexivity. Qed.

(** The pairs the specification names have no band model. *)
Lemma no_band_model (m u : string) :
  recognized_mode m = false \/ recognized_unit u = false
  \/ (m = "emi"%string /\ u = "cm-1"%string) ->
  has_band_model m u = false.
Proof.
  unfold has_band_model, recognized_mode, recognized_unit. cbn [existsb].
  intros [H | [H | [-> ->]]]; [| | reflexivity].
  - destruct (m =? "abs")%string; [discriminate |].
    destruct (m =? "emi")%string; [discriminate |].
    destruct (m =? "cd")%string; [discriminate |].
    destruct (m =? "cdl")%string; [discriminate | reflexivity].
  - destruct (u =? "nm")%string; [discriminate |].
    destruct (u =? "eV")%string; [discriminate |].
    destruct (u =? "cm-1")%string; [discriminate |].
    cbn [orb]. rewrite !andb_false_r. reflexivity.
Qed.

(** The ordinates of a pair without band model are all zero. *)
Lemma synthesize_zero (params : PlotSpecParams) (file_index : Z) (xs : list float) :
  has_band_model (mode params) (unit params) = false ->
  y_values (synthesize L params file_index xs) = repeat 0 (List.length xs).
Proof.
  unfold has_band_model, synthesize. intros H.
  destruct (mode params =? "abs")%string eqn:Ea; cbn [andb orb] in H.
  { cbn [y_values]. apply map_constant. intros x.
    apply abs_intensity_no_unit. destruct (recognized_unit (unit params)); [discriminate | reflexivity]. }
  destruct (mode params =? "emi")%string eqn:Ee; cbn [andb orb] in H.
  { cbn [y_values]. apply map_constant. intros x. apply orb_false_iff in H.
    apply emi_intensity_no_unit; tauto. }
  destruct ((mode params =? "cd")%string || (mode params =? "cdl")%string) eqn:Ec;
    cbn [andb orb] in H.
  { cbn [y_values]. apply map_constant. intros x. apply orb_false_iff in H.
    apply cd_intensity_no_unit; tauto. }
  reflexivity.
Qed.

Lemma synthesize_labels (params : PlotSpecParams) (file_index : Z) (xs : list float) :
  (recognized_mode (mode params) = false ->
     y_label (synthesize L params file_index xs) = ""%string
     /\ title (synthesize L params file_index xs) = ""%string)
  /\ (recognized_unit (unit params) = false ->
        x_label (synthesize L params file_index xs) = ""%string).
Proof.
  unfold recognized_mode, recognized_unit. cbn [existsb]. split; [unfold synthesize |].
  - intros H.
    destruct (mode params =? "abs")%string; [discriminate |].
    destruct (mode params =? "emi")%string; [discriminate |].
    destruct (mode params =? "cd")%string; [discriminate |].
    destruct (mode params =? "cdl")%string; [discriminate |].
    split; reflexivity.
  - intros H. unfold synthesize. cbn [x_label]. unfold x_label_of.
    destruct (unit params =? "nm")%string; [discriminate |].
    destruct (unit params =? "eV")%string; [discriminate |].
    destruct (unit params =? "cm-1")%string; [discriminate | reflexivity].
Qed.

(** C6.  For a (mode, unit) pair without band model (an unrecognised
    mode, an unrecognised unit, or mode "emi" with unit "cm-1"),
    synthesis does not fail: whenever the input file opens
    and the additions of the grid loop advance, it returns a curve over
    the grid whose ordinates are all zero; the ordinate label and the
    title are empty when the mode is unrecognised, and the abscissa label
    is empty when the unit is. *)
Theorem unsupported_pair_zero_curve (can_open : string -> bool)
    (filename : string) (params : PlotSpecParams) (file_index : Z) :
  open_input can_open filename <> None ->
  grid_advances params ->
  recognized_mode (mode params) = false \/ recognized_unit (unit params) = false
  \/ (mode params = "emi"%string /\ unit params = "cm-1"%string) ->
  exists (fuel : nat) (s : SpectrumData),
    calculate_single_spectrum L can_open fuel filename params file_index = Returned s
    /\ generate_x_values fuel params = Some (x_values s)
    /\ y_values s = repeat 0 (List.length (x_values s))
    /\ (recognized_mode (mode params) = false ->
          y_label s = ""%string /\ title s = ""%string)
    /\ (recognized_unit (unit params) = false -> x_label s = ""%string).
Proof.
  intros Hopen Hadv Hpair. apply no_band_model in Hpair.
  destruct (push_while_le_terminates _ _ _ Hadv) as [fuel [xs Hgrid]].
  change (generate_x_values fuel params = Some xs) in Hgrid.
  exists fuel, (synthesize L params file_index xs).
  unfold calculate_single_spectrum.
  destruct (open_input can_open filename) as [full |]; [| congruence].
  rewrite Hgrid.
  split; [reflexivity |]. split; [reflexivity |].
  split; [now apply synthesize_zero |].
  apply synthesize_labels.
Qed.

(** C9.  Synthesis under mode "cdl" returns what it returns under mode
    "cd", for every parameter record, file and file index. *)
Theorem cdl_same_as_cd (can_open : string -> bool) (fuel : nat) (filename : string)
    (params : PlotSpecParams) (file_index : Z) :
  calculate_single_spectrum L can_open fuel filename (with_mode "cdl" params) file_index
  = calculate_single_spectrum L can_open fuel filename (with_mode "cd" params) file_index.
Proof. reflexivity. Qed.

Lemma abs_nm_band_sum (factor shift x : float) :
  abs_intensity L "nm" factor shift x = band_sum L abs_nm_bands factor shift x.
Proof. reflexivity. Qed.



End WithLibm.

Lemma short_run_advances (m u fmt : string) : grid_advances (short_run m u fmt).
Proof. apply (advances_check_sound 20). vm_compute. reflexivity. Qed.

Lemma unsupported_pair_zero_curve_witness :
  exists (fuel : nat) (s : SpectrumData),
    calculate_single_spectrum RefLibm.libm all_readable fuel "molecule.out"
      (short_run "emi" "cm-1" "svg") 0 = Returned s
    /\ generate_x_values fuel (short_run "emi" "cm-1" "svg") = Some (x_values s)
    /\ y_values s = repeat 0 (List.length (x_values s))
    /\ (recognized_mode "emi" = false -> y_label s = ""%string /\ title s = ""%string)
    /\ (recognized_unit "cm-1" = false -> x_label s = ""%string).
Proof.
  apply (unsupported_pair_zero_curve RefLibm.libm all_readable "molecule.out"
           (short_run "emi" "cm-1" "svg") 0);
    [discriminate | apply short_run_advances | right; right; split; reflexivity].
Defined.


End SynthesisClaims.

(** ** The range of the ordinate axis *)

Module AxisFacts.
Import Double DoubleFacts Rounding Spec Terms.
Open Scope float_scope.

Lemma finite_value_spec (y : float) :
  finite_value y = true ->
  is_nan y = false /\ (neg_infinity <? y) = true /\ (y <? infinity) = true.
Proof.
  unfold finite_value. intros H. apply andb_true_iff in H. destruct H as [Hl Hu].
  split; [| now split]. apply ltb_true in Hu. tauto.
Qed.

Lemma not_ltb_leb (x y : float) :
  is_nan x = false -> is_nan y = false -> (x <? y) = false -> (y <=? x) = true.
Proof.
  intros Hx Hy H. destruct (y <=? x) eqn:E; [reflexivity |].
  apply leb_false_ltb in E; congruence.
Qed.

(** *** Smallest and largest element *)

Lemma fold_min_spec (ys : list float) (y : float) :
  Forall (fun v => is_nan v = false) (y :: ys) ->
  let m := fold_left (fun smallest v => if v <? smallest then v else smallest) ys y in
  In m (y :: ys) /\ Forall (fun v => (m <=? v) = true) (y :: ys).
Proof.
  revert y. induction ys as [| v rest IH]; intros y Hn m; subst m.
  - inversion Hn as [| ? ? Hy _]; subst. cbn [fold_left]. split; [now left |].
    constructor; [now apply leb_refl | constructor].
  - inversion Hn as [| ? ? Hy Hrest]; subst. inversion Hrest as [| ? ? Hv Hrest']; subst.
    cbn [fold_left]. set (y' := if v <? y then v else y).
    assert (Hy' : is_nan y' = false) by (subst y'; destruct (v <? y); assumption).
    assert (Hle : (y' <=? y) = true /\ (y' <=? v) = true).
    { subst y'. destruct (v <? y) eqn:E.
      - split; [now apply ltb_leb | now apply leb_refl].
      - split; [now apply leb_refl | now apply not_ltb_leb]. }
    destruct (IH y' (Forall_cons _ Hy' Hrest')) as [Hin Hall].
    inversion Hall as [| ? ? Hm Hall']; subst. split.
    + destruct Hin as [E | Hin]; [| right; now right].
      rewrite <- E. subst y'. destruct (v <? y); [right; now left | now left].
    + constructor; [apply leb_trans with (y := y'); tauto |].
      constructor; [apply leb_trans with (y := y'); tauto | exact Hall'].
Qed.

Lemma fold_max_spec (ys : list float) (y : float) :
  Forall (fun v => is_nan v = false) (y :: ys) ->
  let m := fold_left (fun largest v => if largest <? v then v else largest) ys y in
  In m (y :: ys) /\ Forall (fun v => (v <=? m) = true) (y :: ys).
Proof.
  revert y. induction ys as [| v rest IH]; intros y Hn m; subst m.
  - inversion Hn as [| ? ? Hy _]; subst. cbn [fold_left]. split; [now left |].
    constructor; [now apply leb_refl | constructor].
  - inversion Hn as [| ? ? Hy Hrest]; subst. inversion Hrest as [| ? ? Hv Hrest']; subst.
    cbn [fold_left]. set (y' := if y <? v then v else y).
    assert (Hy' : is_nan y' = false) by (subst y'; destruct (y <? v); assumption).
    assert (Hle : (y <=? y') = true /\ (v <=? y') = true).
    { subst y'. destruct (y <? v) eqn:E.
      - split; [now apply ltb_leb | now apply leb_refl].
      - split; [now apply leb_refl | now apply not_ltb_leb]. }
    destruct (IH y' (Forall_cons _ Hy' Hrest')) as [Hin Hall].
    inversion Hall as [| ? ? Hm Hall']; subst. split.
    + destruct Hin as [E | Hin]; [| right; now right].
      rewrite <- E. subst y'. destruct (y <? v); [right; now left | now left].
    + constructor; [apply leb_trans with (y := y'); tauto |].
      constructor; [apply leb_trans with (y := y'); tauto | exact Hall'].
Qed.

Lemma min_element_spec (l : list float) (m : float) :
  Forall (fun v => is_nan v = false) l -> min_element l = Some m ->
  In m l /\ Forall (fun v => (m <=? v) = true) l.
Proof.
  destruct l as [| y ys]; [discriminate |]. intros Hn H. injection H as <-.
  now apply fold_min_spec.
Qed.

Lemma max_element_spec (l : list float) (m : float) :
  Forall (fun v => is_nan v = false) l -> max_element l = Some m ->
  In m l /\ Forall (fun v => (v <=? m) = true) l.
Proof.
  destruct l as [| y ys]; [discriminate |]. intros Hn H. injection H as <-.
  now apply fold_max_spec.
Qed.

Lemma min_spec (a b : float) :
  is_nan a = false -> is_nan b = false ->
  (min a b = a \/ min a b = b) /\ (min a b <=? a) = true /\ (min a b <=? b) = true.
Proof.
  intros Ha Hb. unfold min. destruct (b <? a) eqn:E.
  - split; [now right |]. split; [now apply ltb_leb | now apply leb_refl].
  - split; [now left |]. split; [now apply leb_refl | now apply not_ltb_leb].
Qed.

Lemma max_spec (a b : float) :
  is_nan a = false -> is_nan b = false ->
  (max a b = a \/ max a b = b) /\ (a <=? max a b) = true /\ (b <=? max a b) = true.
Proof.
  intros Ha Hb. unfold max. destruct (a <? b) eqn:E.
  - split; [now right |]. split; [now apply ltb_leb | now apply leb_refl].
  - split; [now left |]. split; [now apply leb_refl | now apply not_ltb_leb].
Qed.

Lemma overall_y_range_defined (spectra : list SpectrumData) :
  Forall (fun s => y_values s <> []) spectra ->
  forall lo hi, overall_y_range spectra lo hi <> None.
Proof.
  induction 1 as [| s rest Hs _ IH]; intros lo hi; cbn [overall_y_range]; [discriminate |].
  destruct (y_values s) as [| y ys]; [congruence |]. cbn [min_element max_element]. apply IH.
Qed.

(** The running minimum and maximum over curves without NaN: they bound
    every ordinate, and each is the initial value or an ordinate. *)
Lemma overall_y_range_spec (P : float -> Prop) (spectra : list SpectrumData) :
  (forall y, P y -> is_nan y = false) ->
  Forall (fun s => Forall P (y_values s)) spectra ->
  forall lo0 hi0 lo hi,
    P lo0 -> P hi0 ->
    overall_y_range spectra lo0 hi0 = Some (lo, hi) ->
    P lo /\ P hi
    /\ (lo <=? lo0) = true /\ (hi0 <=? hi) = true
    /\ Forall (fun s => Forall (fun y => (lo <=? y) = true /\ (y <=? hi) = true)
                          (y_values s)) spectra.
Proof.
  intros HP Hall. induction Hall as [| s rest Hs _ IH]; intros lo0 hi0 lo hi Hlo0 Hhi0 H.
  - cbn in H. injection H as <- <-.
    repeat split; try assumption; try (apply leb_refl; auto). constructor.
  - cbn [overall_y_range] in H.
    assert (Hn : Forall (fun v => is_nan v = false) (y_values s))
      by (eapply Forall_impl; [| exact Hs]; auto).
    destruct (min_element (y_values s)) as [m |] eqn:Em; [| discriminate].
    destruct (max_element (y_values s)) as [M |] eqn:EM; [| discriminate].
    destruct (min_element_spec _ _ Hn Em) as [Hmin Hmall].
    destruct (max_element_spec _ _ Hn EM) as [Hmax HMall].
    pose proof (proj1 (Forall_forall _ _) Hs) as Hs'.
    assert (Pm : P m) by auto. assert (PM : P M) by auto.
    destruct (min_spec lo0 m (HP _ Hlo0) (HP _ Pm)) as [Hmin1 [Hmin2 Hmin3]].
    destruct (max_spec hi0 M (HP _ Hhi0) (HP _ PM)) as [Hmax1 [Hmax2 Hmax3]].
    assert (P1 : P (min lo0 m)) by (destruct Hmin1 as [-> | ->]; assumption).
    assert (P2 : P (max hi0 M)) by (destruct Hmax1 as [-> | ->]; assumption).
    destruct (IH _ _ _ _ P1 P2 H) as [Plo [Phi [Hlo [Hhi Hrest]]]].
    split; [exact Plo |]. split; [exact Phi |].
    split; [now apply leb_trans with (y := min lo0 m) |].
    split; [now apply leb_trans with (y := max hi0 M) |].
    constructor; [| exact Hrest].
    apply Forall_forall. intros y Hy.
    pose proof (proj1 (Forall_forall _ _) Hmall y Hy) as H1.
    pose proof (proj1 (Forall_forall _ _) HMall y Hy) as H2.
    split.
    + apply leb_trans with (y := min lo0 m); [exact Hlo |].
      now apply leb_trans with (y := m).
    + apply leb_trans with (y := max hi0 M); [| exact Hhi].
      now apply leb_trans with (y := M).
Qed.

(** A curve with an ordinate for every abscissa passes the test of the
    accesses at line 637. *)
Lemma every_abscissa_has_ordinate (spectra : list SpectrumData) :
  Forall (fun s => (List.length (x_values s) <= List.length (y_values s))%nat) spectra ->
  existsb (fun spectrum =>
             (List.length (y_values spectrum) <? List.length (x_values spectrum))%nat)
    spectra = false.
Proof.
  induction 1 as [| s rest Hs _ IH]; [reflexivity |].
  cbn [existsb]. rewrite IH, orb_false_r. apply Nat.ltb_ge. exact Hs.
Qed.

(** *** The extrema of the ordinates *)

Lemma DBL_MAX_finite : finite_value DBL_MAX = true /\ finite_value DBL_LOWEST = true.
Proof. split; reflexivity. Qed.

Lemma finite_within_limits (y : float) :
  finite_value y = true -> (DBL_LOWEST <=? y) = true /\ (y <=? DBL_MAX) = true.
Proof.
  intros H. destruct (finite_value_spec y H) as [Hn [Hlo Hhi]].
  apply ltb_true in Hlo. apply ltb_true in Hhi.
  destruct Hlo as [_ [_ Hlo]]. destruct Hhi as [_ [_ Hhi]].
  rewrite !leb_true. 
  assert (R : (rank DBL_LOWEST <= rank y <= rank DBL_MAX)%Z).
  { unfold rank in *. pose proof (Prim2SF_valid y) as V.
    change (Prim2SF DBL_MAX) with (S754_finite false 9007199254740991 971).
    change (Prim2SF DBL_LOWEST) with (S754_finite true 9007199254740991 971).
    change (Prim2SF infinity) with (S754_infinity false) in Hhi.
    change (Prim2SF neg_infinity) with (S754_infinity true) in Hlo.
    destruct (Prim2SF y) as [s | s | | s m e]; cbn [SFrank valid_binary] in *.
    - pow_consts. lia.
    - destruct s; lia.
    - pow_consts. lia.
    - apply bounded_range in V. destruct V as [Hm He]. destruct s; pow_consts; lia. }
  repeat split; try assumption; try reflexivity; lia.
Qed.

Lemma at_least_DBL_MAX (y : float) :
  finite_value y = true -> (DBL_MAX <=? y) = true -> y = DBL_MAX.
Proof.
  intros Hf Hle. destruct (finite_within_limits y Hf) as [_ Hup].
  apply leb_true in Hle. apply leb_true in Hup.
  destruct Hle as [_ [Hn Hle]]. destruct Hup as [_ [_ Hup]].
  assert (E : rank y = rank DBL_MAX) by lia. unfold rank in E.
  destruct (SFrank_inj _ _ (Prim2SF_valid y) (Prim2SF_valid DBL_MAX)
              (proj1 (is_nan_false y) Hn) ltac:(discriminate) E) as [E' | [sa [sb [_ E']]]].
  - rewrite <- (SF2Prim_Prim2SF y), E'. apply SF2Prim_Prim2SF.
  - discriminate E'.
Qed.

Lemma at_most_DBL_LOWEST (y : float) :
  finite_value y = true -> (y <=? DBL_LOWEST) = true -> y = DBL_LOWEST.
Proof.
  intros Hf Hle. destruct (finite_within_limits y Hf) as [Hlow _].
  apply leb_true in Hle. apply leb_true in Hlow.
  destruct Hle as [Hn [_ Hle]]. destruct Hlow as [_ [_ Hlow]].
  assert (E : rank y = rank DBL_LOWEST) by lia. unfold rank in E.
  destruct (SFrank_inj _ _ (Prim2SF_valid y) (Prim2SF_valid DBL_LOWEST)
              (proj1 (is_nan_false y) Hn) ltac:(discriminate) E) as [E' | [sa [sb [_ E']]]].
  - rewrite <- (SF2Prim_Prim2SF y), E'. apply SF2Prim_Prim2SF.
  - discriminate E'.
Qed.

(** The running minimum and maximum are the initial values or ordinates. *)
Lemma overall_y_range_attained (spectra : list SpectrumData) :
  Forall (fun s => Forall (fun v => is_nan v = false) (y_values s)) spectra ->
  forall lo0 hi0 lo hi,
    overall_y_range spectra lo0 hi0 = Some (lo, hi) ->
    (lo = lo0 \/ In lo (ordinates spectra)) /\ (hi = hi0 \/ In hi (ordinates spectra)).
Proof.
  induction 1 as [| s rest Hs _ IH]; intros lo0 hi0 lo hi H.
  - cbn in H. injection H as <- <-. split; now left.
  - cbn [overall_y_range] in H.
    destruct (min_element (y_values s)) as [m |] eqn:Em; [| discriminate].
    destruct (max_element (y_values s)) as [M |] eqn:EM; [| discriminate].
    destruct (min_element_spec _ _ Hs Em) as [Hmin _].
    destruct (max_element_spec _ _ Hs EM) as [Hmax _].
    destruct (IH _ _ _ _ H) as [Hlo Hhi].
    unfold ordinates. cbn [flat_map]. split.
    + destruct Hlo as [-> | Hlo]; [| right; apply in_or_app; now right].
      unfold min. destruct (m <? lo0); [right; apply in_or_app; now left | now left].
    + destruct Hhi as [-> | Hhi]; [| right; apply in_or_app; now right].
      unfold max. destruct (hi0 <? M); [right; apply in_or_app; now left | now left].
Qed.

(** Over curves of finite ordinates, the first of them with at least one
    point, lines 534-542 compute the least and the greatest ordinate. *)
Lemma overall_y_range_extrema (spectra : list SpectrumData) (lo hi : float) :
  spectra <> [] ->
  Forall (fun s => y_values s <> []) spectra ->
  Forall (fun s => Forall (fun y => finite_value y = true) (y_values s)) spectra ->
  overall_y_range spectra DBL_MAX DBL_LOWEST = Some (lo, hi) ->
  least_of (ordinates spectra) lo /\ greatest_of (ordinates spectra) hi.
Proof.
  intros Hne Hy Hfin Hr.
  destruct DBL_MAX_finite as [Fmax Flow].
  destruct (overall_y_range_spec (fun y => finite_value y = true) spectra
              (fun y Hy => proj1 (finite_value_spec y Hy)) Hfin _ _ _ _ Fmax Flow Hr)
    as [Flo [Fhi [_ [_ Hall]]]].
  assert (Hnan : Forall (fun s => Forall (fun v => is_nan v = false) (y_values s)) spectra).
  { eapply Forall_impl; [| exact Hfin]. cbn beta. intros s Hs.
    eapply Forall_impl; [| exact Hs]. cbn beta. intros y Hf.
    exact (proj1 (finite_value_spec y Hf)). }
  destruct (overall_y_range_attained spectra Hnan _ _ _ _ Hr) as [Hlo Hhi].
  assert (Hbound : forall y, In y (ordinates spectra) ->
            finite_value y = true /\ (lo <=? y) = true /\ (y <=? hi) = true).
  { intros y Hin. unfold ordinates in Hin. apply in_flat_map in Hin.
    destruct Hin as [s [Hs Hin]].
    pose proof (proj1 (Forall_forall _ _) Hall s Hs) as Hb.
    pose proof (proj1 (Forall_forall _ _) Hb y Hin) as [H1 H2].
    pose proof (proj1 (Forall_forall _ _) Hfin s Hs) as Hf.
    pose proof (proj1 (Forall_forall _ _) Hf y Hin) as Hfy. auto. }
  assert (Hsome : exists y, In y (ordinates spectra)).
  { destruct spectra as [| s rest]; [congruence |].
    inversion Hy as [| ? ? Hs _]; subst.
    destruct (y_values s) as [| y ys] eqn:E; [congruence |].
    exists y. unfold ordinates. cbn [flat_map]. rewrite E. now left. }
  destruct Hsome as [y0 Hy0]. destruct (Hbound y0 Hy0) as [F0 [L0 U0]].
  split; split.
  - destruct Hlo as [-> | Hlo]; [| exact Hlo].
    rewrite <- (at_least_DBL_MAX y0 F0 L0). exact Hy0.
  - intros y Hin. now apply Hbound.
  - destruct Hhi as [-> | Hhi]; [| exact Hhi].
    rewrite <- (at_most_DBL_LOWEST y0 F0 U0). exact Hy0.
  - intros y Hin. now apply Hbound.
Qed.

(** *** Signs of differences and products *)

Lemma SFsub_as_add (x y : spec_float) :
  SFsub prec emax x y = SFadd prec emax x (SFopp y).
Proof.
  destruct x as [sx | sx | | sx mx ex], y as [sy | sy | | sy my ey];
    cbn [SFsub SFadd SFopp]; try reflexivity; destruct sx, sy; reflexivity.
Qed.

Lemma sub_as_add (x y : float) : x - y = x + (- y).
Proof.
  apply Prim2SF_inj. rewrite sub_spec, add_spec, opp_spec.
  unfold SF64sub, SF64add. apply SFsub_as_add.
Qed.

Lemma opp_nonpos (p : float) : (0 <=? p) = true -> (- p <=? 0) = true.
Proof.
  rewrite !FloatAxioms.leb_spec, opp_spec. change (Prim2SF 0) with (S754_zero false).
  destruct (Prim2SF p) as [s | s | | s m e]; try destruct s; cbn; congruence.
Qed.

(** Subtracting a number that is not negative never yields more. *)
Lemma sub_nonneg_le (x p : float) :
  (0 <=? p) = true -> (x <? infinity) = true -> (x - p <=? x) = true.
Proof.
  intros Hp Hx. rewrite sub_as_add. apply add_nonpos_le; [now apply opp_nonpos | exact Hx].
Qed.

Lemma binary_round_nonneg (p : positive) (e : Z) :
  (-1074 <= e)%Z -> SFleb (S754_zero false) (binary_round prec emax false p e) = true.
Proof.
  intros He.
  assert (Hone : bounded prec emax 1 (-1074) = true) by reflexivity.
  pose proof (weight_pos e He) as Pe.
  destruct (binary_round_lower false p e 1 (-1074) He Hone) as [E | [m2 [e2 [E _]]]].
  { change (weight (-1074)) with 1%Z. lia. }
  - rewrite E. reflexivity.
  - rewrite E. reflexivity.
Qed.

Lemma binary_round_aux_nonneg (p : positive) (e : Z) :
  SFleb (S754_zero false) (binary_round_aux prec emax false (Zpos p) e loc_Exact) = true.
Proof.
  unfold binary_round_aux.
  pose proof (shr_fexp_exact_spec (Zpos p) e ltac:(lia)) as H1. cbn zeta in H1.
  destruct (shr_fexp prec emax (Zpos p) e loc_Exact) as [mrs1 e1].
  destruct H1 as [_ [Hm1 _]].
  pose proof (round_nearest_even_range (shr_m mrs1) (loc_of_shr_record mrs1)) as Hr.
  set (mr := round_nearest_even (shr_m mrs1) (loc_of_shr_record mrs1)) in *.
  assert (Hs1 : (0 <= shr_m mrs1)%Z).
  { rewrite Hm1. apply Z.div_pos; [lia |]. apply Z.pow_pos_nonneg; lia. }
  assert (Hmr : (0 <= mr)%Z) by lia.
  pose proof (shr_fexp_exact_spec mr e1 Hmr) as H2. cbn zeta in H2.
  destruct (shr_fexp prec emax mr e1 loc_Exact) as [mrs2 e2].
  destruct H2 as [_ [Hm2 _]].
  assert (Hs2 : (0 <= shr_m mrs2)%Z).
  { rewrite Hm2. apply Z.div_pos; [lia |]. apply Z.pow_pos_nonneg; lia. }
  destruct (shr_m mrs2) as [| q | q]; [reflexivity | | lia].
  destruct (e2 <=? emax - prec)%Z; reflexivity.
Qed.

(** On valid doubles of one sign the lexicographic order of exponent and
    mantissa is the order of the values. *)
Lemma lex_value_le (m1 : positive) (e1 : Z) (m2 : positive) (e2 : Z) :
  bounded prec emax m1 e1 = true -> bounded prec emax m2 e2 = true ->
  (e1 < e2 \/ (e1 = e2 /\ Zpos m1 <= Zpos m2))%Z ->
  (Zpos m1 * weight e1 <= Zpos m2 * weight e2)%Z.
Proof.
  intros H1 H2 [Hlt | [-> Hle]].
  - pose proof (bounded_range _ _ H1) as [_ [He1 _]].
    pose proof (valid_value_lt m1 e1 e2 H1 Hlt) as Hv.
    pose proof (valid_normal m2 e2 H2 ltac:(lia)) as Hn.
    pose proof (weight_pos e2 ltac:(lia)). nia.
  - pose proof (bounded_range _ _ H2) as [_ [He2 _]].
    pose proof (weight_pos e2 He2). nia.
Qed.

Lemma SFleb_finite_pos_inv (m1 : positive) (e1 : Z) (m2 : positive) (e2 : Z) :
  SFleb (S754_finite false m1 e1) (S754_finite false m2 e2) = true ->
  (e1 < e2 \/ (e1 = e2 /\ Zpos m1 <= Zpos m2))%Z.
Proof.
  unfold SFleb. cbn [SFcompare]. destruct (Z.compare_spec e1 e2) as [E | E | E].
  - subst e2. change (Pos.compare_cont Eq m1 m2) with (Pos.compare m1 m2).
    destruct (Pos.compare_spec m1 m2); try discriminate; intros _; right; split; lia.
  - intros _. now left.
  - discriminate.
Qed.

Lemma SFleb_finite_neg_inv (m1 : positive) (e1 : Z) (m2 : positive) (e2 : Z) :
  SFleb (S754_finite true m2 e2) (S754_finite true m1 e1) = true ->
  (e1 < e2 \/ (e1 = e2 /\ Zpos m1 <= Zpos m2))%Z.
Proof.
  unfold SFleb. cbn [SFcompare]. destruct (Z.compare_spec e2 e1) as [E | E | E].
  - subst e2. change (Pos.compare_cont Eq m2 m1) with (Pos.compare m2 m1).
    destruct (Pos.compare_spec m2 m1); cbn [CompOpp]; try discriminate;
      intros _; right; split; lia.
  - discriminate.
  - intros _. now left.
Qed.

(** The difference of two finite doubles in descending order is not
    negative. *)
Lemma SFsub_nonneg (x y : spec_float) :
  valid_binary x = true -> valid_binary y = true ->
  (forall s, x <> S754_infinity s) -> (forall s, y <> S754_infinity s) ->
  SFleb y x = true ->
  SFleb (S754_zero false) (SFsub prec emax x y) = true.
Proof.
  intros Vx Vy Ix Iy Hle.
  destruct x as [sx | sx | | sx mx ex]; [| now elim (Ix sx) | now destruct y |];
    (destruct y as [sy | sy | | sy my ey]; [| now elim (Iy sy) | discriminate Hle |]).
  - cbn [SFsub]. destruct sx, sy; reflexivity.
  - destruct sy; [reflexivity | discriminate Hle].
  - destruct sx; [discriminate Hle | reflexivity].
  - cbn [valid_binary] in Vx, Vy.
    pose proof (bounded_range _ _ Vx) as [_ [Hex _]].
    pose proof (bounded_range _ _ Vy) as [_ [Hey _]].
    cbn [SFsub]. cbn zeta.
    set (ez := Z.min ex ey).
    assert (Hez : (-1074 <= ez)%Z) by (subst ez; lia).
    pose proof (aligned mx ex ez Hex Hez ltac:(subst ez; lia)) as Ax.
    pose proof (aligned my ey ez Hey Hez ltac:(subst ez; lia)) as Ay.
    set (MX := fst (shl_align mx ex ez)) in *.
    set (MY := fst (shl_align my ey ez)) in *.
    pose proof (weight_pos ez Hez) as Pez.
    assert (Hz : (0 <= cond_Zopp sx (Zpos MX) - cond_Zopp sy (Zpos MY))%Z).
    { destruct sx, sy; cbn [cond_Zopp].
      - apply SFleb_finite_neg_inv in Hle.
        pose proof (lex_value_le _ _ _ _ Vx Vy Hle). nia.
      - discriminate Hle.
      - lia.
      - apply SFleb_finite_pos_inv in Hle.
        pose proof (lex_value_le _ _ _ _ Vy Vx Hle). nia. }
    destruct (cond_Zopp sx (Zpos MX) - cond_Zopp sy (Zpos MY))%Z as [| p | p];
      cbn [binary_normalize]; [reflexivity | now apply binary_round_nonneg | lia].
Qed.

Lemma sub_nonneg (a b : float) :
  finite_value a = true -> finite_value b = true -> (b <=? a) = true ->
  (0 <=? a - b) = true.
Proof.
  intros Ha Hb Hle.
  destruct (finite_value_spec a Ha) as [_ [Ha1 Ha2]].
  destruct (finite_value_spec b Hb) as [_ [Hb1 Hb2]].
  apply ltb_neg_infinity in Ha1, Hb1. apply ltb_infinity in Ha2, Hb2.
  rewrite FloatAxioms.leb_spec in *. rewrite sub_spec.
  change (Prim2SF 0) with (S754_zero false). unfold SF64sub.
  apply SFsub_nonneg; try apply Prim2SF_valid; try assumption.
  - intros [|]; tauto.
  - intros [|]; tauto.
Qed.

Lemma mul_tenth_nonneg (r : float) : (0 <=? r) = true -> (0 <=? r * 0.1) = true.
Proof.
  rewrite !FloatAxioms.leb_spec, mul_spec. change (Prim2SF 0) with (S754_zero false).
  change (Prim2SF 0.1) with (S754_finite false 7205759403792794 (-56)).
  unfold SF64mul.
  destruct (Prim2SF r) as [s | s | | s m e]; try destruct s; cbn [SFmul xorb];
    try discriminate; try reflexivity.
  intros _. apply binary_round_aux_nonneg.
Qed.

(** The axis range of lines 544-555 lies around the range of the data. *)
Lemma y_axis_range_covers (mode : string) (lo hi : float) :
  finite_value lo = true -> finite_value hi = true -> (lo <=? hi) = true ->
  (fst (y_axis_range mode lo hi) <=? lo) = true
  /\ (hi <=? snd (y_axis_range mode lo hi)) = true.
Proof.
  intros Hlo Hhi Hle.
  destruct (finite_value_spec lo Hlo) as [_ [Hlo1 Hlo2]].
  destruct (finite_value_spec hi Hhi) as [_ [Hhi1 Hhi2]].
  pose proof (mul_tenth_nonneg _ (sub_nonneg hi lo Hhi Hlo Hle)) as Hpad.
  pose proof (add_nonneg_ge hi _ Hpad Hhi1) as Hup.
  unfold y_axis_range.
  destruct (negb (mode =? "cd")%string && negb (mode =? "cdl")%string && geb lo 0) eqn:E;
    cbn [fst snd].
  - split; [| exact Hup]. apply andb_true_iff in E. destruct E as [_ E]. exact E.
  - split; [| exact Hup]. now apply sub_nonneg_le.
Qed.

(** X14.  When every ordinate is finite, no point of any curve falls
    outside the ordinate axis of the chart: the lower end of the axis is
    at most, and the upper end at least, every ordinate, in every mode,
    with or without the floor at zero. *)
Theorem axis_range_covers_data (L : Libm) (fuel : nat) (spectra : list SpectrumData)
    (params : PlotSpecParams) (run : ChartRun) :
  Forall (fun s => Forall (fun y => finite_value y = true) (y_values s)) spectra ->
  create_and_export_multiple_plots L fuel spectra params = Returned run ->
  (y_min (plan run) <=? y_max (plan run)) = true
  /\ Forall (fun s =>
               Forall (fun y => (y_min (plan run) <=? y) = true
                                /\ (y <=? y_max (plan run)) = true) (y_values s))
       spectra.
Proof.
  intros Hfin Hrun. unfold create_and_export_multiple_plots in Hrun.
  destruct (overall_y_range spectra DBL_MAX DBL_LOWEST) as [[lo hi] |] eqn:Er;
    [| discriminate].
  destruct (y_axis_range (mode params) lo hi) as [ymin ymax] eqn:Ea.
  destruct (calculateNiceTicks L fuel (x_start params) (x_end params) 6); [| discriminate].
  destruct (calculateNiceTicks L fuel ymin ymax 6); [| discriminate].
  destruct (List.length spectra =? 0)%nat eqn:En; [discriminate |]. cbn [orb] in Hrun.
  destruct (_ || _); [discriminate |].
  injection Hrun as <-. cbn [plan y_min y_max].
  destruct DBL_MAX_finite as [Fmax Flow].
  destruct (overall_y_range_spec (fun y => finite_value y = true) spectra
              (fun y Hy => proj1 (finite_value_spec y Hy)) Hfin _ _ _ _ Fmax Flow Er)
    as [Flo [Fhi [_ [_ Hall]]]].
  assert (Hle : (lo <=? hi) = true).
  { destruct spectra as [| s rest]; [discriminate En |].
    cbn [overall_y_range] in Er.
    destruct (y_values s) as [| y ys] eqn:Ey; [discriminate Er |].
    inversion Hall as [| ? ? Hs _]; subst. rewrite Ey in Hs.
    inversion Hs as [| ? ? [H1 H2] _]; subst.
    now apply leb_trans with (y := y). }
  destruct (y_axis_range_covers (mode params) lo hi Flo Fhi Hle) as [Hmin Hmax].
  rewrite Ea in Hmin, Hmax. cbn [fst snd] in Hmin, Hmax.
  split.
  { apply leb_trans with (y := lo); [exact Hmin |].
    now apply leb_trans with (y := hi). }
  eapply Forall_impl; [| exact Hall]. cbn beta. intros s Hs.
  eapply Forall_impl; [| exact Hs]. cbn beta. intros y [H1 H2]. split.
  - now apply leb_trans with (y := lo).
  - now apply leb_trans with (y := hi).
Qed.

Lemma axis_range_covers_data_witness :
  (y_min (plan Cases.cd_chart) <=? y_max (plan Cases.cd_chart)) = true
  /\ Forall (fun s =>
               Forall (fun y => (y_min (plan Cases.cd_chart) <=? y) = true
                                /\ (y <=? y_max (plan Cases.cd_chart)) = true)
                 (y_values s))
       Inputs.two_curves.
Proof.
  apply (axis_range_covers_data RefLibm.libm 20 Inputs.two_curves
           (Inputs.overlay_run "cd" "nm" "svg") Cases.cd_chart).
  - repeat constructor.
  - vm_compute. reflexivity.
Defined.
End AxisFacts.

(** ** Claims about axis scaling and export *)

Module ChartClaims.
Import Double DoubleFacts LoopFacts Spec Inputs Terms TickFacts AxisFacts.
Open Scope float_scope.

Section WithLibm.
Context (L : Libm).

(** The floor at zero of lines 551-555. *)
Lemma y_axis_range_floored (mode : string) (lo hi : float) :
  mode <> "cd"%string -> mode <> "cdl"%string -> geb lo 0 = true ->
  y_axis_range mode lo hi = (0, hi + (hi - lo) * 0.10).
Proof.
  intros Hcd Hcdl Hmin. unfold y_axis_range.
  apply String.eqb_neq in Hcd. apply String.eqb_neq in Hcdl.
  rewrite Hcd, Hcdl, Hmin. reflexivity.
Qed.

(** The chart step returns once both tick loops advance, every curve
    has a legend name and every abscissa has an ordinate. *)
Lemma chart_returns (spectra : list SpectrumData) (params : PlotSpecParams)
    (lo hi : float) :
  spectra <> [] ->
  overall_y_range spectra DBL_MAX DBL_LOWEST = Some (lo, hi) ->
  (List.length spectra <= List.length (legend_names params))%nat ->
  Forall (fun s => (List.length (x_values s) <= List.length (y_values s))%nat) spectra ->
  ticks_advance L (x_start params) (x_end params) ->
  ticks_advance L (fst (y_axis_range (mode params) lo hi))
    (snd (y_axis_range (mode params) lo hi)) ->
  exists fuel run,
    create_and_export_multiple_plots L fuel spectra params = Returned run
    /\ y_min (plan run) = fst (y_axis_range (mode params) lo hi)
    /\ y_max (plan run) = snd (y_axis_range (mode params) lo hi).
Proof.
  intros Hne Hr Hlen Hpts Hx Hy.
  destruct (push_while_le_terminates _ _ _ Hx) as [fx [xt Ex]].
  destruct (push_while_le_terminates _ _ _ Hy) as [fy [yt Ey]].
  pose proof (push_while_le_fuel _ (Nat.max fx fy) _ _ _ _ Ex ltac:(lia)) as Ex'.
  pose proof (push_while_le_fuel _ (Nat.max fx fy) _ _ _ _ Ey ltac:(lia)) as Ey'.
  rewrite <- calculateNiceTicks_loop in Ex', Ey'.
  unfold create_and_export_multiple_plots. rewrite Hr.
  destruct (y_axis_range (mode params) lo hi) as [ymin ymax]. cbn [fst snd] in *.
  eexists (Nat.max fx fy), _. rewrite Ex', Ey'.
  assert (E1 : (List.length spectra =? 0)%nat = false).
  { apply Nat.eqb_neq. destruct spectra; [congruence | discriminate]. }
  assert (E2 : (List.length (legend_names params) <? List.length spectra)%nat = false)
    by (apply Nat.ltb_ge; exact Hlen).
  rewrite E1, E2, (every_abscissa_has_ordinate spectra Hpts).
  cbn [orb plan y_min y_max]. split; [reflexivity | split; reflexivity].
Qed.

(** C3.  For every non-empty list of curves, each with at least one
    ordinate, and a mode that is neither "cd" nor "cdl": lines 534-542
    compute an overall minimum and maximum, which are the least and the
    greatest ordinate of all curves when the ordinates are finite; when
    that minimum is at least 0 the axis range is
    [0, overall_max + (overall_max - overall_min) * 0.10], the padding
    coming from the range of the data and not from the floored range;
    this is the range of every chart the export step returns, and the
    export step does return a chart with it once there is a legend name
    for every curve, an ordinate for every abscissa, and the two tick
    loops advance. *)
Theorem y_range_floor (spectra : list SpectrumData) (params : PlotSpecParams) :
  spectra <> [] ->
  Forall (fun s => y_values s <> []) spectra ->
  mode params <> "cd"%string -> mode params <> "cdl"%string ->
  exists overall_min overall_max : float,
    overall_y_range spectra DBL_MAX DBL_LOWEST = Some (overall_min, overall_max)
    /\ (Forall (fun s => Forall (fun y => finite_value y = true) (y_values s)) spectra ->
        least_of (ordinates spectra) overall_min
        /\ greatest_of (ordinates spectra) overall_max)
    /\ (geb overall_min 0 = true ->
        y_axis_range (mode params) overall_min overall_max
        = (0, overall_max + (overall_max - overall_min) * 0.10)
        /\ (forall fuel run,
              create_and_export_multiple_plots L fuel spectra params = Returned run ->
              y_min (plan run) = 0
              /\ y_max (plan run) = overall_max + (overall_max - overall_min) * 0.10)
        /\ ((List.length spectra <= List.length (legend_names params))%nat ->
            Forall (fun s => (List.length (x_values s) <= List.length (y_values s))%nat)
              spectra ->
            ticks_advance L (x_start params) (x_end params) ->
            ticks_advance L 0 (overall_max + (overall_max - overall_min) * 0.10) ->
            exists fuel run,
              create_and_export_multiple_plots L fuel spectra params = Returned run
              /\ y_min (plan run) = 0
              /\ y_max (plan run) = overall_max + (overall_max - overall_min) * 0.10)).
Proof.
  intros Hne Hy Hcd Hcdl.
  destruct (overall_y_range spectra DBL_MAX DBL_LOWEST) as [[lo hi] |] eqn:Hr;
    [| now elim (overall_y_range_defined spectra Hy DBL_MAX DBL_LOWEST)].
  exists lo, hi. split; [reflexivity |].
  split; [intros Hfin; now apply overall_y_range_extrema |].
  intros Hmin. pose proof (y_axis_range_floored (mode params) lo hi Hcd Hcdl Hmin) as E.
  split; [exact E |]. split.
  - intros fuel run Hrun. unfold create_and_export_multiple_plots in Hrun.
    rewrite Hr, E in Hrun.
    destruct (calculateNiceTicks L fuel (x_start params) (x_end params) 6); [| discriminate].
    destruct (calculateNiceTicks L fuel 0 _ 6); [| discriminate].
    destruct (_ || _); [discriminate |].
    injection Hrun as <-. split; reflexivity.
  - intros Hlen Hpts Hx Hyt.
    destruct (chart_returns spectra params lo hi Hne Hr Hlen Hpts Hx)
      as [fuel [run [Hrun [H1 H2]]]].
    { rewrite E. exact Hyt. }
    rewrite E in H1, H2. exists fuel, run. auto.
Qed.

Lemma export_plot_unsupported (params : PlotSpecParams) :
  supported_format (output_format params) = false -> export_plot params = [].
Proof.
  unfold supported_format, export_plot. cbn [existsb]. intros H.
  destruct (output_format params =? "svg")%string; [discriminate |].
  destruct (output_format params =? "eps")%string; [discriminate |].
  destruct (output_format params =? "pdf")%string; [discriminate |].
  destruct (output_format params =? "png")%string; [discriminate |].
  destruct (output_format params =? "jpg")%string; [discriminate |].
  destruct (output_format params =? "jpeg")%string; [discriminate | reflexivity].
Qed.

(** C1, behaviour of the code.  When the output format is none of svg,
    eps, pdf, png, jpg, jpeg and synthesis and chart composition go
    through, the export step writes no file, and the process nevertheless
    prints "Plot exported to: ...", reports success, leaves the error
    channel empty and exits with code 0. *)
Theorem unsupported_format_reports_success (can_open : string -> bool) (fuel : nat)
    (params : PlotSpecParams) (spectra : list SpectrumData) (run : ChartRun) :
  supported_format (output_format params) = false ->
  input_filenames params <> [] ->
  calculate_multiple_spectra L can_open fuel params = Returned spectra ->
  create_and_export_multiple_plots L fuel spectra params = Returned run ->
  written run = []
  /\ main L can_open fuel params
     = Some {| exit_code := EXIT_SUCCESS;
               reported :=
                 (("Plot exported to: " ++ output_filename params ++ "."
                     ++ output_format params)%string
                  :: (if interactive params
                      then ["Starting interactive viewer... (Close window to exit)"%string]
                      else []))
                 ++ ["Processing completed successfully!"%string];
               error_channel := [];
               files := [] |}.
Proof.
  intros Hfmt Hfiles Hspectra Hrun.
  assert (Hshape : written run = []
            /\ printed run
               = ("Plot exported to: " ++ output_filename params ++ "."
                    ++ output_format params)%string
                 :: (if interactive params
                     then ["Starting interactive viewer... (Close window to exit)"%string]
                     else [])).
  { unfold create_and_export_multiple_plots in Hrun.
    destruct (overall_y_range spectra DBL_MAX DBL_LOWEST) as [[lo hi] |]; [| discriminate].
    destruct (y_axis_range (mode params) lo hi) as [ymin ymax].
    destruct (calculateNiceTicks L fuel (x_start params) (x_end params) 6); [| discriminate].
    destruct (calculateNiceTicks L fuel ymin ymax 6); [| discriminate].
    destruct (_ || _); [discriminate |].
    injection Hrun as <-. cbn [written printed].
    split; [now apply export_plot_unsupported | reflexivity]. }
  destruct Hshape as [Hw Hp]. split; [exact Hw |].
  unfold main. destruct (input_filenames params) as [| f rest]; [congruence |].
  rewrite Hspectra, Hrun, Hw, Hp. reflexivity.
Qed.
End WithLibm.

Lemma y_range_floor_witness :
  (exists overall_min overall_max : float,
     overall_y_range two_curves DBL_MAX DBL_LOWEST = Some (overall_min, overall_max)
     /\ (Forall (fun s => Forall (fun y => finite_value y = true) (y_values s)) two_curves ->
         least_of (ordinates two_curves) overall_min
         /\ greatest_of (ordinates two_curves) overall_max)
     /\ (geb overall_min 0 = true ->
         y_axis_range "abs" overall_min overall_max
         = (0, overall_max + (overall_max - overall_min) * 0.10)
         /\ (forall fuel run,
               create_and_export_multiple_plots RefLibm.libm fuel two_curves
                 (overlay_run "abs" "nm" "svg") = Returned run ->
               y_min (plan run) = 0
               /\ y_max (plan run) = overall_max + (overall_max - overall_min) * 0.10)
         /\ ((2 <= 2)%nat ->
             Forall (fun s => (List.length (x_values s) <= List.length (y_values s))%nat)
               two_curves ->
             ticks_advance RefLibm.libm 200 210 ->
             ticks_advance RefLibm.libm 0
               (overall_max + (overall_max - overall_min) * 0.10) ->
             exists fuel run,
               create_and_export_multiple_plots RefLibm.libm fuel two_curves
                 (overlay_run "abs" "nm" "svg") = Returned run
               /\ y_min (plan run) = 0
               /\ y_max (plan run) = overall_max + (overall_max - overall_min) * 0.10)))
  /\ overall_y_range two_curves DBL_MAX DBL_LOWEST = Some (0, 5)
  /\ Forall (fun s => Forall (fun y => finite_value y = true) (y_values s)) two_curves
  /\ geb 0 0 = true
  /\ Forall (fun s => (List.length (x_values s) <= List.length (y_values s))%nat) two_curves
  /\ ticks_advance RefLibm.libm 200 210
  /\ ticks_advance RefLibm.libm 0 (5 + (5 - 0) * 0.10)
  /\ exists run,
       create_and_export_multiple_plots RefLibm.libm 20 two_curves
         (overlay_run "abs" "nm" "svg") = Returned run
       /\ y_min (plan run) = 0 /\ y_max (plan run) = 5.5.
Proof.
  split.
  { apply (y_range_floor RefLibm.libm two_curves (overlay_run "abs" "nm" "svg"));
      [discriminate | repeat constructor; discriminate | discriminate | discriminate]. }
  split; [reflexivity |].
  split; [repeat constructor |].
  split; [reflexivity |].
  split; [repeat constructor |].
  split; [apply (GridClaims.advances_check_sound 10); vm_compute; reflexivity |].
  split; [apply (GridClaims.advances_check_sound 10); vm_compute; reflexivity |].
  eexists. split; [vm_compute; reflexivity | split; reflexivity].
Defined.

Lemma unsupported_format_reports_success_witness :
  written gif_chart = []
  /\ main RefLibm.libm all_readable 20 gif_params
     = Some {| exit_code := 0;
               reported := ["Plot exported to: spectrum_plot.gif";
                            "Processing completed successfully!"]%string;
               error_channel := [];
               files := [] |}.
Proof.
  apply (unsupported_format_reports_success RefLibm.libm all_readable 20
           gif_params gif_spectra gif_chart);
    [reflexivity | discriminate | vm_compute; reflexivity | vm_compute; reflexivity].
Defined.
End ChartClaims.

(** ** Strings and paths *)

Module TextFacts.
Import Terms.

Lemma list_ascii_app (a b : string) :
  list_ascii_of_string (a ++ b) = (list_ascii_of_string a ++ list_ascii_of_string b)%list.
Proof. induction a as [| c a IH]; cbn; [reflexivity | now rewrite IH]. Qed.

Lemma string_of_list_app (a b : list ascii) :
  string_of_list_ascii (a ++ b) = string_of_list_ascii a ++ string_of_list_ascii b.
Proof. induction a as [| c a IH]; cbn; [reflexivity | now rewrite IH]. Qed.

Lemma length_list_ascii (s : string) :
  List.length (list_ascii_of_string s) = String.length s.
Proof. induction s as [| c s IH]; cbn; [reflexivity | now rewrite IH]. Qed.

Lemma length_append (a b : string) :
  String.length (a ++ b) = (String.length a + String.length b)%nat.
Proof. induction a as [| c a IH]; cbn; [reflexivity | now rewrite IH]. Qed.

Lemma append_empty_r (s : string) : s ++ "" = s.
Proof. induction s as [| c s IH]; cbn; [reflexivity | now rewrite IH]. Qed.

Lemma append_assoc (a b c : string) : (a ++ b) ++ c = a ++ (b ++ c).
Proof. induction a as [| x a IH]; cbn; [reflexivity | now rewrite IH]. Qed.

Lemma starts_with_iff (value prefix : list ascii) :
  starts_with value prefix = true <-> exists rest, value = (prefix ++ rest)%list.
Proof.
  revert value. induction prefix as [| c prefix IH]; intros value; cbn [starts_with].
  - split; [intros _; now exists value | intros _; now destruct value].
  - destruct value as [| d value].
    + split; [discriminate | intros [rest H]; discriminate H].
    + cbn [starts_with]. rewrite andb_true_iff, IH. split.
      * intros [E [rest ->]]. apply Ascii.eqb_eq in E. subst d. now exists rest.
      * intros [rest H]. injection H as -> ->. split; [apply Ascii.eqb_refl | now exists rest].
Qed.

Lemma ends_with_iff (value ending : string) :
  ends_with value ending = true <-> exists prefix, value = prefix ++ ending.
Proof.
  unfold ends_with. destruct (String.length value <? String.length ending)%nat eqn:El.
  - split; [discriminate |]. intros [prefix ->]. apply Nat.ltb_lt in El.
    rewrite length_append in El. lia.
  - rewrite starts_with_iff. split.
    + intros [rest H]. exists (string_of_list_ascii (rev rest)).
      apply (f_equal (@rev ascii)) in H. rewrite rev_involutive, rev_app_distr, rev_involutive in H.
      rewrite <- (string_of_list_ascii_of_string value), H, string_of_list_app.
      now rewrite string_of_list_ascii_of_string.
    + intros [prefix ->]. exists (rev (list_ascii_of_string prefix)).
      now rewrite list_ascii_app, rev_app_distr.
Qed.

Lemma ends_with_false (value ending : string) :
  ends_with value ending = false <-> forall prefix, value <> prefix ++ ending.
Proof.
  split.
  - intros H prefix E. assert (T : ends_with value ending = true) by (apply ends_with_iff; eauto).
    congruence.
  - intros H. destruct (ends_with value ending) eqn:E; [| reflexivity].
    apply ends_with_iff in E. destruct E as [prefix E]. now elim (H prefix).
Qed.

(** X1.  [ends_with value ending] holds exactly when [value] is some
    prefix followed by [ending]. *)
Theorem ends_with_suffix (value ending : string) :
  ends_with value ending = true <-> exists prefix, value = prefix ++ ending.
Proof. apply ends_with_iff. Qed.

(** *** [split_string] *)

Lemma split_tokens_token (d : ascii) (s token : string) :
  split_tokens d s token
  = match split_tokens d s "" with
    | [] => if (token =? "")%string then [] else [token]
    | t :: ts => (token ++ t) :: ts
    end.
Proof.
  revert token. induction s as [| c s IH]; intros token; cbn [split_tokens].
  - destruct (token =? "")%string eqn:E; [reflexivity |].
    cbn. reflexivity.
  - destruct (Ascii.eqb c d).
    + now rewrite append_empty_r.
    + rewrite (IH (token ++ String c "")), (IH ("" ++ String c "")).
      destruct (split_tokens d s "") as [| t ts].
      * cbn [append]. destruct (token ++ String c "" =? "")%string eqn:E.
        { apply String.eqb_eq in E. destruct token; discriminate E. }
        reflexivity.
      * now rewrite append_assoc.
Qed.

Lemma split_string_cons (c d : ascii) (s : string) :
  split_string (String c s) d
  = if Ascii.eqb c d then "" :: split_string s d
    else match split_string s d with
         | [] => [String c ""]
         | t :: ts => String c t :: ts
         end.
Proof.
  unfold split_string. cbn [split_tokens]. destruct (Ascii.eqb c d); [reflexivity |].
  rewrite split_tokens_token. cbn [append]. destruct (split_tokens d s ""); reflexivity.
Qed.

Lemma split_string_nil (d : ascii) (s : string) :
  split_string s d = [] <-> s = "".
Proof.
  split; [| intros ->; reflexivity].
  destruct s as [| c s]; [reflexivity |]. rewrite split_string_cons.
  destruct (Ascii.eqb c d); [discriminate |]. destruct (split_string s d); discriminate.
Qed.

(** X2.  Joining the tokens of [split_string] with the delimiter gives
    the string back, up to one delimiter at its end, which the split
    drops; and no token contains the delimiter. *)
Theorem split_string_join (s : string) (d : ascii) :
  String.concat (String d "") (split_string s d) ++ (if ends_in d s then String d "" else "")
  = s
  /\ Forall (fun token => occurs d token = false) (split_string s d).
Proof.
  induction s as [| c s [IHj IHf]].
  - split; [reflexivity | constructor].
  - rewrite split_string_cons.
    assert (Hend : ends_in d (String c s)
                   = match s with EmptyString => Ascii.eqb c d | _ => ends_in d s end)
      by (destruct s; reflexivity).
    rewrite Hend. destruct (Ascii.eqb c d) eqn:Ec.
    + apply Ascii.eqb_eq in Ec. subst c. split.
      * destruct s as [| c' s']; [reflexivity |].
        destruct (split_string (String c' s') d) as [| t ts] eqn:Es.
        { apply split_string_nil in Es. discriminate Es. }
        cbn [String.concat append] in *. rewrite IHj. reflexivity.
      * constructor; [reflexivity | exact IHf].
    + split.
      * destruct s as [| c' s']; [reflexivity |].
        destruct (split_string (String c' s') d) as [| t ts] eqn:Es.
        { apply split_string_nil in Es. discriminate Es. }
        cbn [String.concat] in *. destruct ts; cbn [append] in *; now rewrite IHj.
      * destruct (split_string s d) as [| t ts].
        { constructor; [| constructor]. cbn. now rewrite Ec. }
        inversion IHf as [| ? ? Ht Hts]; subst.
        constructor; [| exact Hts]. cbn. now rewrite Ec.
Qed.

(** *** [to_lower_cpp] *)

Lemma tolower_idempotent (c : ascii) : tolower (tolower c) = tolower c.
Proof. destruct c as [[] [] [] [] [] [] [] []]; reflexivity. Qed.

Lemma to_lower_cpp_idempotent (s : string) : to_lower_cpp (to_lower_cpp s) = to_lower_cpp s.
Proof.
  induction s as [| c s IH]; cbn; [reflexivity |]. now rewrite tolower_idempotent, IH.
Qed.

Lemma to_lower_cpp_length (s : string) : String.length (to_lower_cpp s) = String.length s.
Proof. induction s as [| c s IH]; cbn; [reflexivity | now rewrite IH]. Qed.

(** *** [path::stem] *)

Lemma occurs_app (c : ascii) (a b : string) :
  occurs c (a ++ b) = occurs c a || occurs c b.
Proof.
  induction a as [| x a IH]; cbn; [reflexivity |]. rewrite IH. now rewrite orb_assoc.
Qed.

Lemma after_last_none (c : ascii) (s : string) :
  occurs c s = false -> after_last c s = None.
Proof.
  induction s as [| a s IH]; cbn; [reflexivity |]. intros H.
  apply orb_false_iff in H. destruct H as [Ha Hs]. now rewrite (IH Hs), Ha.
Qed.

Lemma before_last_none (c : ascii) (s : string) :
  occurs c s = false -> before_last c s = None.
Proof.
  induction s as [| a s IH]; cbn; [reflexivity |]. intros H.
  apply orb_false_iff in H. destruct H as [Ha Hs]. now rewrite (IH Hs), Ha.
Qed.

Lemma after_last_app (c : ascii) (dir tail : string) :
  occurs c tail = false -> after_last c (dir ++ String c tail) = Some tail.
Proof.
  intros H. induction dir as [| a dir IH]; cbn.
  - now rewrite (after_last_none c tail H), Ascii.eqb_refl.
  - now rewrite IH.
Qed.

Lemma before_last_app (c : ascii) (base ext : string) :
  occurs c ext = false -> before_last c (base ++ String c ext) = Some base.
Proof.
  intros H. induction base as [| a base IH]; cbn.
  - now rewrite (before_last_none c ext H), Ascii.eqb_refl.
  - now rewrite IH.
Qed.

Lemma path_stem_name (base ext : string) :
  base <> "" -> ~ (base = "." /\ ext = "") ->
  occurs "/" base = false -> occurs "/" ext = false -> occurs "." ext = false ->
  forall p, path_filename p = base ++ String "." ext -> path_stem p = base.
Proof.
  intros Hb Hdots Hsb Hse Hde p Hname. unfold path_stem. rewrite Hname.
  assert (Hshort : (String.length (base ++ String "." ext) <=? 2)%nat
                   && starts_with (list_ascii_of_string (base ++ String "." ext)) ["."%char]
                   = false).
  { destruct base as [| b0 base]; [congruence |].
    destruct (Ascii.eqb "." b0) eqn:Eb.
    - apply Ascii.eqb_eq in Eb. subst b0.
      destruct base as [| b1 base].
      + destruct ext as [| e0 ext]; [elim Hdots; now split |]. reflexivity.
      + cbn [append String.length]. rewrite length_append. cbn [String.length].
        rewrite Nat.add_succ_r. reflexivity.
    - cbn [append list_ascii_of_string starts_with]. rewrite Eb. cbn.
      now rewrite andb_false_r. }
  rewrite Hshort, (before_last_app "." base ext Hde).
  destruct base; [congruence | reflexivity].
Qed.

Lemma ends_in_split (c : ascii) (s : string) :
  ends_in c s = true -> exists d, s = d ++ String c "".
Proof.
  induction s as [| a s IH]; [discriminate |]. cbn [ends_in]. destruct s as [| b s].
  - intros H. apply Ascii.eqb_eq in H. subst a. now exists "".
  - intros H. destruct (IH H) as [d ->]. now exists (String a d).
Qed.

Lemma path_stem_joined (part : string * string * string) :
  plain_parts part -> path_stem (joined_path part) = base_of part.
Proof.
  destruct part as [[prefix base] ext]. cbn [plain_parts joined_path base_of].
  intros [Hp [Hb [Hdots [Hsb [Hse Hde]]]]].
  assert (Hs : occurs "/" (base ++ String "." ext) = false).
  { rewrite occurs_app. cbn [occurs]. rewrite Hsb, Hse. reflexivity. }
  apply (path_stem_name base ext); try assumption. unfold path_filename.
  change (base ++ "." ++ ext) with (base ++ String "." ext).
  destruct Hp as [-> | Hp].
  - cbn [append]. now rewrite after_last_none.
  - apply ends_in_split in Hp. destruct Hp as [d ->].
    rewrite append_assoc. cbn [append]. now rewrite after_last_app.
Qed.

Lemma tolower_not_upper (c : ascii) : is_upper (tolower c) = false.
Proof. destruct c as [[] [] [] [] [] [] [] []]; reflexivity. Qed.

Lemma tolower_fixes (c : ascii) : is_upper c = false -> tolower c = c.
Proof. unfold tolower, is_upper. now intros ->. Qed.

(** X3.  [to_lower_cpp] keeps the length of the string, leaves no
    letter A to Z in it, changes no other character, and is idempotent. *)
Theorem to_lower_cpp_normalises (s : string) :
  String.length (to_lower_cpp s) = String.length s
  /\ Forall (fun c => is_upper c = false) (list_ascii_of_string (to_lower_cpp s))
  /\ (Forall (fun c => is_upper c = false) (list_ascii_of_string s) -> to_lower_cpp s = s)
  /\ to_lower_cpp (to_lower_cpp s) = to_lower_cpp s.
Proof.
  split; [apply to_lower_cpp_length |]. split; [| split; [| apply to_lower_cpp_idempotent]].
  - induction s as [| c s IH]; cbn; constructor; [apply tolower_not_upper | exact IH].
  - induction s as [| c s IH]; [reflexivity |]. cbn. intros H.
    inversion H as [| ? ? Hc Hs]; subst. now rewrite (tolower_fixes c Hc), (IH Hs).
Qed.
End TextFacts.

(** ** Input files and curves *)

Module PipelineFacts.
Import Double Terms TextFacts Spec.
Open Scope float_scope.

(** X4.  The name [calculate_single_spectrum] opens is one the file
    system opens: the given name, or, for a name that carries neither
    extension and cannot be opened, the name with ".out" appended, or with
    ".log" when that fails too. *)
Theorem open_input_sound (can_open : string -> bool) (filename full : string) :
  open_input can_open filename = Some full ->
  can_open full = true
  /\ (full = filename
      \/ (can_open filename = false
          /\ (forall prefix, filename <> prefix ++ ".out")%string
          /\ (forall prefix, filename <> prefix ++ ".log")%string
          /\ (full = (filename ++ ".out")%string
              \/ (can_open (filename ++ ".out")%string = false
                  /\ full = (filename ++ ".log")%string)))).
Proof.
  unfold open_input. destruct (can_open filename) eqn:E0.
  { intros H. injection H as <-. split; [exact E0 | now left]. }
  destruct (ends_with filename ".out") eqn:Eo; [discriminate |].
  destruct (ends_with filename ".log") eqn:El; [discriminate |].
  cbn [negb andb].
  pose proof (proj1 (ends_with_false _ _) Eo) as No.
  pose proof (proj1 (ends_with_false _ _) El) as Nl.
  destruct (can_open (filename ++ ".out")%string) eqn:E1.
  { intros H. injection H as <-. split; [exact E1 |]. right. repeat split; auto. }
  destruct (can_open (filename ++ ".log")%string) eqn:E2; [| discriminate].
  intros H. injection H as <-. split; [exact E2 |]. right. repeat split; auto.
Qed.

Lemma open_input_sound_witness :
  Cases.two_files "b.log" = true
  /\ ("b.log" = "b"
      \/ (Cases.two_files "b" = false
          /\ (forall prefix, "b" <> prefix ++ ".out")%string
          /\ (forall prefix, "b" <> prefix ++ ".log")%string
          /\ ("b.log" = ("b" ++ ".out")%string
              \/ (Cases.two_files ("b" ++ ".out")%string = false
                  /\ "b.log" = ("b" ++ ".log")%string))))%string.
Proof. apply (open_input_sound Cases.two_files "b" "b.log"). reflexivity. Defined.

Lemma open_input_none (can_open : string -> bool) (filename : string) :
  open_input can_open filename = None
  <-> can_open filename = false
      /\ ((exists prefix, filename = prefix ++ ".out")%string
          \/ (exists prefix, filename = prefix ++ ".log")%string
          \/ (can_open (filename ++ ".out")%string = false
              /\ can_open (filename ++ ".log")%string = false)).
Proof.
  unfold open_input. destruct (can_open filename) eqn:E0.
  { split; [discriminate | intros [H _]; discriminate H]. }
  destruct (ends_with filename ".out") eqn:Eo.
  { apply ends_with_iff in Eo. cbn. split; [intros _; split; auto | reflexivity]. }
  destruct (ends_with filename ".log") eqn:El.
  { apply ends_with_iff in El. cbn. split; [intros _; split; auto | reflexivity]. }
  cbn [negb andb].
  pose proof (proj1 (ends_with_false _ _) Eo) as No.
  pose proof (proj1 (ends_with_false _ _) El) as Nl.
  destruct (can_open (filename ++ ".out")%string) eqn:E1.
  { split; [discriminate |]. intros [_ [[p Hp] | [[p Hp] | [H _]]]];
      [now elim (No p) | now elim (Nl p) | discriminate H]. }
  destruct (can_open (filename ++ ".log")%string) eqn:E2.
  { split; [discriminate |]. intros [_ [[p Hp] | [[p Hp] | [_ H]]]];
      [now elim (No p) | now elim (Nl p) | discriminate H]. }
  split; [intros _; split; auto | reflexivity].
Qed.

Section WithLibm.
Context (L : Libm).

(** X5.  [calculate_single_spectrum] throws exactly when the name cannot
    be opened and either carries the extension ".out" or ".log" already
    (no other name is tried then) or cannot be opened with either
    extension appended; the message names the file as it was given.  The
    mode, the unit, the grid and the file index play no part. *)
Theorem unreadable_input_throws (can_open : string -> bool) (fuel : nat)
    (filename : string) (params : PlotSpecParams) (file_index : Z) (what : string) :
  calculate_single_spectrum L can_open fuel filename params file_index = Thrown what
  <-> what = ("Cannot open BDF output file: " ++ filename)%string
      /\ can_open filename = false
      /\ ((exists prefix, filename = prefix ++ ".out")%string
          \/ (exists prefix, filename = prefix ++ ".log")%string
          \/ (can_open (filename ++ ".out")%string = false
              /\ can_open (filename ++ ".log")%string = false)).
Proof.
  unfold calculate_single_spectrum.
  destruct (open_input can_open filename) as [full |] eqn:E.
  - split.
    + destruct (generate_x_values fuel params); discriminate.
    + intros [_ H]. apply open_input_none in H. congruence.
  - apply open_input_none in E. split.
    + intros H. injection H as <-. split; [reflexivity | exact E].
    + intros [-> _]. reflexivity.
Qed.

Lemma synthesize_lengths (params : PlotSpecParams) (file_index : Z) (xs : list float) :
  x_values (synthesize L params file_index xs) = xs
  /\ List.length (y_values (synthesize L params file_index xs)) = List.length xs.
Proof.
  split; [reflexivity |]. unfold synthesize. cbn [y_values].
  destruct (mode params =? "abs")%string; [apply length_map |].
  destruct (mode params =? "emi")%string; [apply length_map |].
  destruct ((mode params =? "cd")%string || (mode params =? "cdl")%string);
    [apply length_map | apply repeat_length].
Qed.

(** The curves of the files [files], numbered from [i], over the grid
    [xs]. *)
Lemma spectra_from_returned (can_open : string -> bool) (fuel : nat)
    (params : PlotSpecParams) (i : Z) (files : list string) (ss : list SpectrumData) :
  spectra_from L can_open fuel params i files = Returned ss ->
  List.length ss = List.length files
  /\ Forall (fun f => open_input can_open f <> None) files
  /\ forall xs, generate_x_values fuel params = Some xs ->
       forall k s, nth_error ss k = Some s ->
         s = synthesize L params (i + Z.of_nat k) xs.
Proof.
  revert i ss. induction files as [| f rest IH]; intros i ss H; cbn [spectra_from] in H.
  - injection H as <-. split; [reflexivity |]. split; [constructor |].
    intros xs _ [| k] s Hk; discriminate Hk.
  - unfold calculate_single_spectrum in H.
    destruct (open_input can_open f) as [full |] eqn:Eo; [| discriminate].
    destruct (generate_x_values fuel params) as [xs0 |] eqn:Eg; [| discriminate].
    destruct (spectra_from L can_open fuel params (i + 1) rest) as [ss' | | |] eqn:Er;
      try discriminate.
    injection H as <-. destruct (IH _ _ Er) as [Hlen [Hopen Hnth]].
    split; [cbn; now rewrite Hlen |]. split; [constructor; [congruence | exact Hopen] |].
    intros xs Hxs [| k] s Hk.
    + cbn in Hk. injection Hk as <-. rewrite Z.add_0_r. congruence.
    + cbn [nth_error] in Hk. rewrite (Hnth xs Hxs k s Hk). f_equal. lia.
Qed.

Lemma spectra_from_all_readable (can_open : string -> bool) (fuel : nat)
    (params : PlotSpecParams) (xs : list float) (i : Z) (files : list string) :
  generate_x_values fuel params = Some xs ->
  Forall (fun f => open_input can_open f <> None) files ->
  exists ss, spectra_from L can_open fuel params i files = Returned ss.
Proof.
  intros Hg Hall. revert i. induction Hall as [| f rest Hf _ IH]; intros i.
  - now exists [].
  - destruct (IH (i + 1)%Z) as [ss Hss]. cbn [spectra_from]. unfold calculate_single_spectrum.
    destruct (open_input can_open f); [| congruence]. rewrite Hg, Hss. eauto.
Qed.

Lemma spectra_from_unreadable (can_open : string -> bool) (fuel : nat)
    (params : PlotSpecParams) (i : Z) (readable : list string) (f : string)
    (rest : list string) :
  Forall (fun g => open_input can_open g <> None) readable ->
  open_input can_open f = None ->
  readable = [] \/ generate_x_values fuel params <> None ->
  spectra_from L can_open fuel params i (readable ++ f :: rest)
  = Thrown ("Cannot open BDF output file: " ++ f).
Proof.
  intros Hall Hf Hg. revert i. induction Hall as [| g readable Hg1 _ IH]; intros i.
  - cbn [app spectra_from]. unfold calculate_single_spectrum. now rewrite Hf.
  - destruct Hg as [Hg | Hg]; [discriminate Hg |].
    cbn [app spectra_from]. unfold calculate_single_spectrum.
    destruct (open_input can_open g); [| congruence].
    destruct (generate_x_values fuel params) as [xs |]; [| congruence].
    rewrite IH; [reflexivity | now right].
Qed.

(** What [calculate_multiple_spectra] returns. *)
Lemma curves_returned (can_open : string -> bool) (fuel : nat)
    (params : PlotSpecParams) (spectra : list SpectrumData) :
  calculate_multiple_spectra L can_open fuel params = Returned spectra ->
  exists xs,
    generate_x_values fuel params = Some xs
    /\ List.length spectra = List.length (input_filenames params)
    /\ input_filenames params <> []
    /\ (forall k s, nth_error spectra k = Some s ->
          s = synthesize L params (Z.of_nat k) xs)
    /\ Forall (fun s => x_values s = xs
                        /\ List.length (y_values s) = List.length (x_values s)) spectra.
Proof.
  unfold calculate_multiple_spectra. intros H.
  destruct (spectra_from L can_open fuel params 0 (input_filenames params))
    as [ss | | |] eqn:E; try discriminate.
  destruct ss as [| s0 ss]; [discriminate |]. injection H as <-.
  destruct (spectra_from_returned _ _ _ _ _ _ E) as [Hlen [Hopen Hnth]].
  destruct (input_filenames params) as [| f rest] eqn:Ef; [discriminate Hlen |].
  cbn [spectra_from] in E. unfold calculate_single_spectrum in E.
  destruct (open_input can_open f); [| discriminate].
  destruct (generate_x_values fuel params) as [xs |] eqn:Eg; [| discriminate].
  exists xs. split; [reflexivity |]. split; [exact Hlen |]. split; [discriminate |].
  assert (Hk : forall k s, nth_error (s0 :: ss) k = Some s ->
                 s = synthesize L params (Z.of_nat k) xs).
  { intros k s1 Hs. exact (Hnth xs eq_refl k s1 Hs). }
  split; [exact Hk |].
  apply Forall_forall. intros s1 Hin. apply In_nth_error in Hin. destruct Hin as [k Hs].
  rewrite (Hk k s1 Hs). destruct (synthesize_lengths params (Z.of_nat k) xs) as [Hx Hy].
  rewrite Hx. split; [reflexivity | exact Hy].
Qed.

(** X6.  When [calculate_multiple_spectra] returns, it returns one curve
    per input file, in order; curve [k] is the synthesis for file index
    [k] over the one grid of the parameters, so all curves share their
    abscissas and every curve has as many ordinates as abscissas. *)
Theorem one_curve_per_file (can_open : string -> bool) (fuel : nat)
    (params : PlotSpecParams) (spectra : list SpectrumData) :
  calculate_multiple_spectra L can_open fuel params = Returned spectra ->
  exists xs,
    generate_x_values fuel params = Some xs
    /\ List.length spectra = List.length (input_filenames params)
    /\ input_filenames params <> []
    /\ (forall k s, nth_error spectra k = Some s ->
          s = synthesize L params (Z.of_nat k) xs)
    /\ Forall (fun s => x_values s = xs
                        /\ List.length (y_values s) = List.length (x_values s)) spectra.
Proof. apply curves_returned. Qed.

(** X7.  The first input file that cannot be opened ends the run: when
    the files before it open (and the grid loop ends), no curve is
    returned, the exception names that file, and the process exits with
    code 1, the message on the error channel, and no file written. *)
Theorem first_unreadable_file_reported (can_open : string -> bool) (fuel : nat)
    (params : PlotSpecParams) (readable : list string) (f : string) (rest : list string) :
  input_filenames params = (readable ++ f :: rest)%list ->
  Forall (fun g => open_input can_open g <> None) readable ->
  open_input can_open f = None ->
  readable = [] \/ generate_x_values fuel params <> None ->
  calculate_multiple_spectra L can_open fuel params
  = Thrown ("Cannot open BDF output file: " ++ f)
  /\ main L can_open fuel params
     = Some {| exit_code := 1; reported := [];
               error_channel := [("Error: Cannot open BDF output file: " ++ f)%string];
               files := [] |}.
Proof.
  intros Hfiles Hall Hf Hg.
  assert (E : calculate_multiple_spectra L can_open fuel params
              = Thrown ("Cannot open BDF output file: " ++ f)).
  { unfold calculate_multiple_spectra.
    rewrite Hfiles, (spectra_from_unreadable _ _ _ _ _ _ _ Hall Hf Hg). reflexivity. }
  split; [exact E |]. unfold main. rewrite E.
  rewrite Hfiles. destruct readable; reflexivity.
Qed.

Lemma synthesize_frame (p p' : PlotSpecParams) (file_index : Z) (xs : list float) :
  mode p = mode p' -> unit p = unit p' ->
  synthesize L p file_index xs = synthesize L p' file_index xs.
Proof. intros Hm Hu. unfold synthesize. now rewrite Hm, Hu. Qed.

Lemma spectra_from_frame (can_open : string -> bool) (fuel : nat) (p p' : PlotSpecParams)
    (i : Z) (files : list string) :
  mode p = mode p' -> unit p = unit p' ->
  generate_x_values fuel p = generate_x_values fuel p' ->
  spectra_from L can_open fuel p i files = spectra_from L can_open fuel p' i files.
Proof.
  intros Hm Hu Hg. revert i. induction files as [| f rest IH]; intros i; [reflexivity |].
  cbn [spectra_from]. unfold calculate_single_spectrum. rewrite Hg, (IH (i + 1)%Z).
  destruct (open_input can_open f); [| reflexivity].
  destruct (generate_x_values fuel p'); [| reflexivity].
  now rewrite (synthesize_frame p p' i l Hm Hu).
Qed.

(** X8.  The curves depend on the mode, the unit, the grid and the
    list of input files only: two parameter records that agree on these
    give the same outcome of [calculate_multiple_spectra], whatever their
    FWHM, thermal energy, legend and output settings.  In particular the
    configured [fwhm_ev] has no effect on the curves. *)
Theorem curves_ignore_other_settings (can_open : string -> bool) (fuel : nat)
    (p p' : PlotSpecParams) :
  mode p = mode p' -> unit p = unit p' ->
  x_start p = x_start p' -> x_end p = x_end p' -> interval p = interval p' ->
  input_filenames p = input_filenames p' ->
  calculate_multiple_spectra L can_open fuel p
  = calculate_multiple_spectra L can_open fuel p'.
Proof.
  intros Hm Hu Hs He Hi Hf. unfold calculate_multiple_spectra. rewrite Hf.
  rewrite (spectra_from_frame can_open fuel p p' 0 _ Hm Hu); [reflexivity |].
  unfold generate_x_values. now rewrite Hs, He, Hi.
Qed.

Lemma export_plot_supported (params : PlotSpecParams) :
  supported_format (output_format params) = true ->
  exists a, export_plot params = [a].
Proof.
  unfold supported_format, export_plot. cbn [existsb]. intros H.
  destruct (output_format params =? "svg")%string; [cbn; eauto |].
  destruct (output_format params =? "eps")%string; [cbn; eauto |].
  destruct (output_format params =? "pdf")%string; [cbn; eauto |].
  destruct (output_format params =? "png")%string; [cbn; eauto |].
  destruct (output_format params =? "jpg")%string; [cbn; eauto |].
  destruct (output_format params =? "jpeg")%string; [cbn; eauto | discriminate].
Qed.

Lemma chart_run_shape (fuel : nat) (spectra : list SpectrumData) (params : PlotSpecParams)
    (run : ChartRun) :
  create_and_export_multiple_plots L fuel spectra params = Returned run ->
  written run = export_plot params
  /\ exists lines,
       printed run = ("Plot exported to: " ++ full_output_name params)%string :: lines.
Proof.
  unfold create_and_export_multiple_plots. intros H.
  destruct (overall_y_range spectra DBL_MAX DBL_LOWEST) as [[lo hi] |]; [| discriminate].
  destruct (y_axis_range (mode params) lo hi) as [ymin ymax].
  destruct (calculateNiceTicks L fuel (x_start params) (x_end params) 6); [| discriminate].
  destruct (calculateNiceTicks L fuel ymin ymax 6); [| discriminate].
  destruct (_ || _); [discriminate |].
  injection H as <-. cbn [written printed]. split; [reflexivity |]. eauto.
Qed.

Lemma chart_never_throws (fuel : nat) (spectra : list SpectrumData) (params : PlotSpecParams)
    (what : string) :
  create_and_export_multiple_plots L fuel spectra params <> Thrown what.
Proof.
  unfold create_and_export_multiple_plots.
  destruct (overall_y_range spectra DBL_MAX DBL_LOWEST) as [[lo hi] |]; [| discriminate].
  destruct (y_axis_range (mode params) lo hi) as [ymin ymax].
  destruct (calculateNiceTicks L fuel (x_start params) (x_end params) 6); [| discriminate].
  destruct (calculateNiceTicks L fuel ymin ymax 6); [| discriminate].
  destruct (_ || _); discriminate.
Qed.

(** X9.  A process that finishes ends in one of two ways.  Either it
    exits with code 0, nothing on the error channel, a report that begins
    with the export line and ends with the success line, and at most one
    file written, none exactly when the output format is not one of the
    six supported ones; or it exits with code 1, one line on the error
    channel, no report and no file written. *)
Theorem main_outcomes (can_open : string -> bool) (fuel : nat)
    (params : PlotSpecParams) (r : ProcessResult) :
  main L can_open fuel params = Some r ->
  (exit_code r = EXIT_SUCCESS
   /\ error_channel r = []
   /\ (exists lines,
         reported r
         = (("Plot exported to: " ++ full_output_name params)%string :: lines)
             ++ ["Processing completed successfully!"%string])%list
   /\ (List.length (files r) <= 1)%nat
   /\ (files r = [] <-> supported_format (output_format params) = false))
  \/ (exit_code r = EXIT_FAILURE
      /\ files r = []
      /\ reported r = []
      /\ exists what, error_channel r = [("Error: " ++ what)%string]).
Proof.
  unfold main. intros H.
  assert (Hfail : forall what, Some (failed what) = Some r ->
            exit_code r = EXIT_FAILURE /\ files r = [] /\ reported r = []
            /\ exists what, error_channel r = [("Error: " ++ what)%string]).
  { intros what E. injection E as <-. repeat split. now exists what. }
  destruct (input_filenames params) as [| f rest]; [right; eapply Hfail; eassumption |].
  destruct (calculate_multiple_spectra L can_open fuel params) as [spectra | what | |];
    try discriminate; [| right; eapply Hfail; eassumption].
  destruct (create_and_export_multiple_plots L fuel spectra params) as [run | what | |] eqn:E;
    try discriminate; [| right; eapply Hfail; eassumption].
  injection H as <-. left. cbn [exit_code error_channel reported files].
  destruct (chart_run_shape _ _ _ _ E) as [Hw [lines Hp]].
  split; [reflexivity |]. split; [reflexivity |].
  split; [exists lines; now rewrite Hp |].
  rewrite Hw. destruct (supported_format (output_format params)) eqn:Es.
  - destruct (export_plot_supported params Es) as [a ->].
    split; [cbn; lia |]. split; discriminate.
  - rewrite (ChartClaims.export_plot_unsupported params Es).
    split; [cbn; lia |]. split; reflexivity.
Qed.
End WithLibm.

Lemma one_curve_per_file_witness :
  exists xs,
    generate_x_values 20 Cases.overlay_params = Some xs
    /\ List.length Cases.overlay_spectra
       = List.length (input_filenames Cases.overlay_params)
    /\ input_filenames Cases.overlay_params <> []
    /\ (forall k s, nth_error Cases.overlay_spectra k = Some s ->
          s = synthesize RefLibm.libm Cases.overlay_params (Z.of_nat k) xs)
    /\ Forall (fun s => x_values s = xs
                        /\ List.length (y_values s) = List.length (x_values s))
         Cases.overlay_spectra.
Proof.
  apply (one_curve_per_file RefLibm.libm Inputs.all_readable 20 Cases.overlay_params
           Cases.overlay_spectra).
  vm_compute. reflexivity.
Defined.

Lemma first_unreadable_file_reported_witness :
  calculate_multiple_spectra RefLibm.libm Cases.two_files 20 Cases.three_inputs
  = Thrown "Cannot open BDF output file: missing"
  /\ main RefLibm.libm Cases.two_files 20 Cases.three_inputs
     = Some {| exit_code := 1; reported := [];
               error_channel := ["Error: Cannot open BDF output file: missing"%string];
               files := [] |}.
Proof.
  apply (first_unreadable_file_reported RefLibm.libm Cases.two_files 20 Cases.three_inputs
           ["a.out"%string] "missing" ["b"%string]).
  - reflexivity.
  - repeat constructor. discriminate.
  - reflexivity.
  - right. vm_compute. discriminate.
Defined.

Lemma curves_ignore_other_settings_witness :
  calculate_multiple_spectra RefLibm.libm Inputs.all_readable 20
    (Inputs.short_run "abs" "nm" "svg")
  = calculate_multiple_spectra RefLibm.libm Inputs.all_readable 20 Cases.narrow_bands.
Proof.
  apply (curves_ignore_other_settings RefLibm.libm Inputs.all_readable 20
           (Inputs.short_run "abs" "nm" "svg") Cases.narrow_bands); reflexivity.
Defined.

Lemma main_outcomes_witness :
  (exit_code Cases.svg_result = EXIT_SUCCESS
   /\ error_channel Cases.svg_result = []
   /\ (exists lines,
         reported Cases.svg_result
         = (("Plot exported to: "
               ++ full_output_name (Inputs.short_run "abs" "nm" "svg"))%string :: lines)
             ++ ["Processing completed successfully!"%string])%list
   /\ (List.length (files Cases.svg_result) <= 1)%nat
   /\ (files Cases.svg_result = [] <-> supported_format "svg" = false))
  \/ (exit_code Cases.svg_result = EXIT_FAILURE
      /\ files Cases.svg_result = []
      /\ reported Cases.svg_result = []
      /\ exists what, error_channel Cases.svg_result = [("Error: " ++ what)%string]).
Proof.
  apply (main_outcomes RefLibm.libm Inputs.all_readable 20
           (Inputs.short_run "abs" "nm" "svg") Cases.svg_result).
  vm_compute. reflexivity.
Defined.
End PipelineFacts.

(** ** Grids at the edge, and spelling *)

Module GridEdgeFacts.
Import Double DoubleFacts LoopFacts Terms TextFacts Spec PipelineFacts.
Open Scope float_scope.

(** X10.  With a positive interval and [x_start] above -infinity, every
    abscissa of a grid the loop returns lies between [x_start] and
    [x_end + 1e-8]; no assumption on rounding is needed. *)
Theorem grid_within_range (fuel : nat) (params : PlotSpecParams) (xs : list float) :
  (0 <? interval params) = true ->
  (neg_infinity <? x_start params) = true ->
  generate_x_values fuel params = Some xs ->
  Forall (fun x => (x_start params <=? x) = true /\ (x <=? x_end params + 1e-8) = true) xs.
Proof.
  intros Hstep Hstart Hrun. unfold generate_x_values in Hrun.
  destruct (push_while_le_sound _ _ _ _ _ Hrun) as [Hin _].
  apply Forall_forall. intros x Hx. apply In_nth_error in Hx. destruct Hx as [k Hk].
  assert (Hlt : (k < List.length xs)%nat) by (apply nth_error_Some; congruence).
  destruct (Hin k Hlt) as [E Hle]. rewrite E in Hk. injection Hk as <-.
  split; [| exact Hle]. now apply GridFacts.after_steps_nonneg.
Qed.

Lemma grid_within_range_witness :
  Forall (fun x => (200 <=? x) = true /\ (x <=? 210 + 1e-8) = true)
    [200; 201; 202; 203; 204; 205; 206; 207; 208; 209; 210].
Proof.
  apply (grid_within_range 20 (Inputs.short_run "abs" "nm" "svg")); reflexivity.
Defined.

Section WithLibm.
Context (L : Libm).

Lemma spectra_from_not_undefined (can_open : string -> bool) (fuel : nat)
    (params : PlotSpecParams) (i : Z) (files : list string) :
  spectra_from L can_open fuel params i files <> Undefined.
Proof.
  revert i. induction files as [| f rest IH]; intros i; cbn [spectra_from]; [discriminate |].
  unfold calculate_single_spectrum.
  destruct (open_input can_open f); [| discriminate].
  destruct (generate_x_values fuel params); [| discriminate].
  specialize (IH (i + 1)%Z).
  destruct (spectra_from L can_open fuel params (i + 1) rest); congruence.
Qed.

(** X11.  With [x_start] above [x_end + 1e-8] (or either of them NaN) the
    grid is empty: every file that opens yields a curve without points,
    and the chart step then applies [*std::min_element] to an empty
    range, which is undefined behaviour; the process has no defined
    outcome. *)
Theorem empty_grid_undefined (can_open : string -> bool) (fuel : nat)
    (params : PlotSpecParams) :
  (x_start params <=? x_end params + 1e-8) = false ->
  input_filenames params <> [] ->
  Forall (fun f => open_input can_open f <> None) (input_filenames params) ->
  exists spectra,
    calculate_multiple_spectra L can_open (S fuel) params = Returned spectra
    /\ Forall (fun s => x_values s = [] /\ y_values s = []) spectra
    /\ (forall fuel', create_and_export_multiple_plots L fuel' spectra params = Undefined)
    /\ main L can_open (S fuel) params = None.
Proof.
  intros Hgt Hfiles Hopen.
  assert (Hg : generate_x_values (S fuel) params = Some []).
  { unfold generate_x_values. cbn [push_while_le]. now rewrite Hgt. }
  destruct (spectra_from_all_readable L can_open (S fuel) params [] 0 _ Hg Hopen) as [ss Hss].
  destruct (spectra_from_returned L _ _ _ _ _ _ Hss) as [Hlen [_ Hnth]].
  destruct ss as [| s0 ss].
  { destruct (input_filenames params); [congruence | discriminate Hlen]. }
  assert (Hcalc : calculate_multiple_spectra L can_open (S fuel) params = Returned (s0 :: ss)).
  { unfold calculate_multiple_spectra. now rewrite Hss. }
  assert (Hempty : Forall (fun s => x_values s = [] /\ y_values s = []) (s0 :: ss)).
  { apply Forall_forall. intros s Hin. apply In_nth_error in Hin. destruct Hin as [k Hk].
    rewrite (Hnth [] Hg k s Hk).
    destruct (synthesize_lengths L params (0 + Z.of_nat k) []) as [Hx Hy].
    split; [exact Hx |]. now apply length_zero_iff_nil. }
  assert (Hchart : forall fuel',
            create_and_export_multiple_plots L fuel' (s0 :: ss) params = Undefined).
  { intros fuel'. unfold create_and_export_multiple_plots. cbn [overall_y_range].
    inversion Hempty as [| ? ? [_ Hy] _]; subst. rewrite Hy. reflexivity. }
  exists (s0 :: ss). repeat split; try assumption.
  unfold main. destruct (input_filenames params); [congruence |].
  now rewrite Hcalc, Hchart.
Qed.

(** Where the indexing of lines 492, 538-539, 591 and 652 stays within
    bounds. *)
Lemma run_defined (can_open : string -> bool) (fuel : nat)
    (params : PlotSpecParams) :
  input_filenames params <> [] ->
  List.length (legend_names params) = List.length (input_filenames params) ->
  (x_start params <=? x_end params + 1e-8) = true ->
  calculate_multiple_spectra L can_open fuel params <> Undefined
  /\ forall spectra,
       calculate_multiple_spectra L can_open fuel params = Returned spectra ->
       spectra <> []
       /\ Forall (fun s => y_values s <> []) spectra
       /\ Forall (fun s => List.length (y_values s) = List.length (x_values s)) spectra
       /\ (List.length spectra <= List.length (legend_names params))%nat
       /\ create_and_export_multiple_plots L fuel spectra params <> Undefined.
Proof.
  intros Hfiles Hlegend Hle. split.
  - unfold calculate_multiple_spectra.
    destruct (spectra_from L can_open fuel params 0 (input_filenames params))
      as [ss | | |] eqn:E; try discriminate.
    + destruct (spectra_from_returned L _ _ _ _ _ _ E) as [Hlen _].
      destruct ss; [| discriminate].
      destruct (input_filenames params); [congruence | discriminate Hlen].
    + now apply spectra_from_not_undefined in E.
  - intros spectra Hcalc.
    destruct (curves_returned L _ _ _ _ Hcalc) as [xs [Hg [Hlen [_ [_ Hall]]]]].
    assert (Hxs : xs <> []).
    { unfold generate_x_values in Hg. destruct fuel as [| fuel]; [discriminate |].
      cbn [push_while_le] in Hg. rewrite Hle in Hg.
      destruct (push_while_le fuel _ _ _); [| discriminate]. injection Hg as <-. discriminate. }
    assert (Hy : Forall (fun s => y_values s <> []) spectra).
    { eapply Forall_impl; [| exact Hall]. cbn beta. intros s [Hx Hl] Hnil.
      rewrite Hnil, Hx in Hl. cbn in Hl. symmetry in Hl.
      apply length_zero_iff_nil in Hl. contradiction. }
    assert (Hne : spectra <> []).
    { intros ->. destruct (input_filenames params); [congruence | discriminate Hlen]. }
    assert (Hpts : Forall (fun s => List.length (y_values s) = List.length (x_values s))
                     spectra).
    { eapply Forall_impl; [| exact Hall]. cbn beta. intros s [_ Hl]. exact Hl. }
    split; [exact Hne |]. split; [exact Hy |]. split; [exact Hpts |]. split; [lia |].
    unfold create_and_export_multiple_plots.
    pose proof (AxisFacts.overall_y_range_defined spectra Hy DBL_MAX DBL_LOWEST) as Hr.
    destruct (overall_y_range spectra DBL_MAX DBL_LOWEST) as [[lo hi] |]; [| congruence].
    destruct (y_axis_range (mode params) lo hi) as [ymin ymax].
    destruct (calculateNiceTicks L fuel (x_start params) (x_end params) 6); [| discriminate].
    destruct (calculateNiceTicks L fuel ymin ymax 6); [| discriminate].
    assert (Hn : (List.length spectra =? 0)%nat
                 || (List.length (legend_names params) <? List.length spectra)%nat = false).
    { apply orb_false_iff. split.
      - apply Nat.eqb_neq. rewrite Hlen. destruct (input_filenames params); [congruence | discriminate].
      - apply Nat.ltb_ge. lia. }
    rewrite Hn, AxisFacts.every_abscissa_has_ordinate; [discriminate |].
    eapply Forall_impl; [| exact Hpts]. cbn beta. intros s Hl. lia.
Qed.

(** X12.  With at least one input file, as many legend names as input
    files (which [parse_arguments] ensures) and [x_start] not above
    [x_end + 1e-8], no step of the run has undefined behaviour: the
    synthesis returns, throws or is still running; what it returns has a
    first curve, every curve has ordinates, one for each abscissa, and
    there is a legend name for every curve; and the chart step on it
    returns, throws or is still running. *)
Theorem no_undefined_behaviour (can_open : string -> bool) (fuel : nat)
    (params : PlotSpecParams) :
  input_filenames params <> [] ->
  List.length (legend_names params) = List.length (input_filenames params) ->
  (x_start params <=? x_end params + 1e-8) = true ->
  calculate_multiple_spectra L can_open fuel params <> Undefined
  /\ forall spectra,
       calculate_multiple_spectra L can_open fuel params = Returned spectra ->
       spectra <> []
       /\ Forall (fun s => y_values s <> []) spectra
       /\ Forall (fun s => List.length (y_values s) = List.length (x_values s)) spectra
       /\ (List.length spectra <= List.length (legend_names params))%nat
       /\ create_and_export_multiple_plots L fuel spectra params <> Undefined.
Proof. apply run_defined. Qed.

Lemma supported_format_lower (fmt : string) :
  supported_format fmt = true -> to_lower_cpp fmt = fmt.
Proof.
  unfold supported_format. cbn [existsb]. intros H.
  repeat (apply orb_true_iff in H; destruct H as [H | H];
          [apply String.eqb_eq in H; subst fmt; reflexivity |]).
  discriminate H.
Qed.

Lemma recognized_mode_lower (m : string) :
  recognized_mode m = true -> to_lower_cpp m = m.
Proof.
  unfold recognized_mode. cbn [existsb]. intros H.
  repeat (apply orb_true_iff in H; destruct H as [H | H];
          [apply String.eqb_eq in H; subst m; reflexivity |]).
  discriminate H.
Qed.

(** X13.  Formats and modes are matched as they are spelled; the program
    never applies [to_lower_cpp] to them.  An output format that is not
    in lower case is exported to no file, and a mode that is not in lower
    case yields zero ordinates and no title. *)
Theorem matching_is_case_sensitive (params : PlotSpecParams) (file_index : Z)
    (xs : list float) :
  (to_lower_cpp (output_format params) <> output_format params ->
   export_plot params = [])
  /\ (to_lower_cpp (mode params) <> mode params ->
      y_values (synthesize L params file_index xs) = repeat 0 (List.length xs)
      /\ title (synthesize L params file_index xs) = ""%string).
Proof.
  split.
  - intros H. apply ChartClaims.export_plot_unsupported.
    destruct (supported_format (output_format params)) eqn:E; [| reflexivity].
    now apply supported_format_lower in E.
  - intros H.
    assert (E : recognized_mode (mode params) = false).
    { destruct (recognized_mode (mode params)) eqn:E; [| reflexivity].
      now apply recognized_mode_lower in E. }
    split.
    + apply SynthesisClaims.synthesize_zero. apply SynthesisClaims.no_band_model. now left.
    + now apply (SynthesisClaims.synthesize_labels L params file_index xs).
Qed.
End WithLibm.

Lemma empty_grid_undefined_witness :
  exists spectra,
    calculate_multiple_spectra RefLibm.libm Inputs.all_readable 1 Cases.reversed_grid
    = Returned spectra
    /\ Forall (fun s => x_values s = [] /\ y_values s = []) spectra
    /\ (forall fuel',
          create_and_export_multiple_plots RefLibm.libm fuel' spectra Cases.reversed_grid
          = Undefined)
    /\ main RefLibm.libm Inputs.all_readable 1 Cases.reversed_grid = None.
Proof.
  apply (empty_grid_undefined RefLibm.libm Inputs.all_readable 0 Cases.reversed_grid).
  - reflexivity.
  - discriminate.
  - repeat constructor. discriminate.
Defined.

(** The run of [Cases.overlay_params] returns two curves and then a
    chart: it passes every access the statement is about. *)
Lemma no_undefined_behaviour_witness :
  (calculate_multiple_spectra RefLibm.libm Inputs.all_readable 20 Cases.overlay_params
   <> Undefined
   /\ forall spectra,
        calculate_multiple_spectra RefLibm.libm Inputs.all_readable 20 Cases.overlay_params
        = Returned spectra ->
        spectra <> []
        /\ Forall (fun s => y_values s <> []) spectra
        /\ Forall (fun s => List.length (y_values s) = List.length (x_values s)) spectra
        /\ (List.length spectra <= List.length (legend_names Cases.overlay_params))%nat
        /\ create_and_export_multiple_plots RefLibm.libm 20 spectra Cases.overlay_params
           <> Undefined)
  /\ calculate_multiple_spectra RefLibm.libm Inputs.all_readable 20 Cases.overlay_params
     = Returned Cases.overlay_spectra
  /\ List.length Cases.overlay_spectra = 2%nat
  /\ exists run,
       create_and_export_multiple_plots RefLibm.libm 20 Cases.overlay_spectra
         Cases.overlay_params = Returned run.
Proof.
  split; [| split; [| split]].
  - apply (no_undefined_behaviour RefLibm.libm Inputs.all_readable 20 Cases.overlay_params).
    + discriminate.
    + reflexivity.
    + reflexivity.
  - vm_compute. reflexivity.
  - reflexivity.
  - eexists. vm_compute. reflexivity.
Defined.
End GridEdgeFacts.

(** ** Curves without band model on the chart *)

Module FlatChartFacts.
Import Double Terms Spec PipelineFacts.
Open Scope float_scope.

Lemma fold_min_zeros (n : nat) :
  fold_left (fun smallest v => if v <? smallest then v else smallest) (repeat 0 n) 0 = 0.
Proof. induction n as [| n IH]; [reflexivity | exact IH]. Qed.

Lemma fold_max_zeros (n : nat) :
  fold_left (fun largest v => if largest <? v then v else largest) (repeat 0 n) 0 = 0.
Proof. induction n as [| n IH]; [reflexivity | exact IH]. Qed.

Lemma overall_y_range_zeros (spectra : list SpectrumData) :
  Forall (fun s => exists n, y_values s = repeat 0 (S n)) spectra ->
  overall_y_range spectra 0 0 = Some (0, 0)
  /\ (spectra <> [] -> overall_y_range spectra DBL_MAX DBL_LOWEST = Some (0, 0)).
Proof.
  induction 1 as [| s rest [n Hs] _ [IH _]]; [split; [reflexivity | congruence] |].
  cbn [overall_y_range]. rewrite Hs. cbn [repeat min_element max_element].
  rewrite fold_min_zeros, fold_max_zeros. split; [exact IH | intros _; exact IH].
Qed.

Lemma y_axis_range_zeros (mode : string) : y_axis_range mode 0 0 = (0, 0).
Proof.
  unfold y_axis_range.
  destruct (negb (mode =? "cd")%string && negb (mode =? "cdl")%string && geb 0 0);
    reflexivity.
Qed.

(** X15.  A (mode, unit) pair without band model gives a chart with a
    degenerate ordinate axis: all curves are zero, so the axis runs from 0
    to 0 and carries no tick at all. *)
Theorem zero_curves_degenerate_axis (L : Libm) (can_open : string -> bool) (fuel : nat)
    (params : PlotSpecParams) (spectra : list SpectrumData) (run : ChartRun) :
  has_band_model (mode params) (unit params) = false ->
  calculate_multiple_spectra L can_open fuel params = Returned spectra ->
  create_and_export_multiple_plots L fuel spectra params = Returned run ->
  y_min (plan run) = 0 /\ y_max (plan run) = 0 /\ y_ticks (plan run) = [].
Proof.
  intros Hpair Hcalc Hrun.
  destruct (curves_returned L _ _ _ _ Hcalc) as [xs [_ [Hlen [Hfiles [Hnth _]]]]].
  assert (Hzero : Forall (fun s => y_values s = repeat 0 (List.length xs)) spectra).
  { apply Forall_forall. intros s Hin. apply In_nth_error in Hin. destruct Hin as [k Hk].
    rewrite (Hnth k s Hk). now apply SynthesisClaims.synthesize_zero. }
  unfold create_and_export_multiple_plots in Hrun.
  destruct spectra as [| s0 rest].
  { destruct (input_filenames params); [congruence | discriminate Hlen]. }
  destruct (List.length xs) as [| n] eqn:En.
  { inversion Hzero as [| ? ? H0 _]; subst. cbn [overall_y_range] in Hrun.
    rewrite H0 in Hrun. discriminate Hrun. }
  assert (Hall : Forall (fun s => exists n, y_values s = repeat 0 (S n)) (s0 :: rest)).
  { eapply Forall_impl; [| exact Hzero]. cbn beta. intros s Hs. now exists n. }
  destruct (overall_y_range_zeros _ Hall) as [_ Hr].
  rewrite (Hr ltac:(discriminate)), y_axis_range_zeros in Hrun.
  destruct (calculateNiceTicks L fuel (x_start params) (x_end params) 6); [| discriminate].
  destruct fuel as [| fuel]; [discriminate Hrun |].
  rewrite (TickFacts.nice_ticks_degenerate L fuel 0) in Hrun.
  destruct (_ || _); [discriminate |].
  injection Hrun as <-. repeat split.
Qed.

Lemma zero_curves_degenerate_axis_witness :
  y_min (plan Cases.flat_chart) = 0
  /\ y_max (plan Cases.flat_chart) = 0
  /\ y_ticks (plan Cases.flat_chart) = [].
Proof.
  apply (zero_curves_degenerate_axis RefLibm.libm Inputs.all_readable 20
           (Inputs.short_run "emi" "cm-1" "svg") Cases.flat_spectra Cases.flat_chart).
  - reflexivity.
  - vm_compute. reflexivity.
  - vm_compute. reflexivity.
Defined.
End FlatChartFacts.

(** ** The command line *)

Module CommandLineFacts.
Import Terms TextFacts.

Lemma is_help_not_option (arg : string) :
  (arg =? "-no-interactive") = true -> is_config_option arg = false.
Proof. intros H. apply String.eqb_eq in H. subst arg. reflexivity. Qed.

Lemma scan_help (args : list string) (c : string) (inputs : list string) (b : bool) :
  existsb is_help args = true -> scan_arguments args c inputs b = Help.
Proof.
  revert c inputs b. induction args as [| arg rest IH]; intros c inputs b H; [discriminate |].
  cbn [existsb scan_arguments] in *. unfold is_help in H at 1.
  destruct ((arg =? "-help") || (arg =? "--help")); [reflexivity |]. cbn [orb] in H.
  destruct (arg =? "-no-interactive"); [now apply IH |].
  destruct (substring 0 8 arg =? "-config="); now apply IH.
Qed.

Lemma scan_scanned (args : list string) (c : string) (inputs : list string) (b : bool) :
  existsb is_help args = false ->
  scan_arguments args c inputs b
  = Scanned
      (fold_left
         (fun chosen arg =>
            if is_config_option arg then substring 8 (String.length arg - 8) arg else chosen)
         args c)
      (inputs ++ filter is_input_file args)
      (b && negb (existsb (fun arg => arg =? "-no-interactive") args)).
Proof.
  revert c inputs b. induction args as [| arg rest IH]; intros c inputs b H.
  - cbn [scan_arguments fold_left filter existsb negb]. now rewrite app_nil_r, andb_true_r.
  - cbn [existsb] in H. apply orb_false_iff in H. destruct H as [Hh Hrest].
    cbn [scan_arguments fold_left filter existsb]. unfold is_input_file at 1.
    rewrite Hh. unfold is_help in Hh. rewrite Hh. cbn [negb andb].
    destruct (arg =? "-no-interactive") eqn:En.
    + rewrite (is_help_not_option arg En). cbn [negb andb orb].
      rewrite (IH _ _ _ Hrest). now rewrite andb_false_r.
    + change (substring 0 8 arg =? "-config=") with (is_config_option arg).
      cbn [negb andb orb].
      destruct (is_config_option arg); cbn [negb andb orb].
      * now rewrite (IH _ _ _ Hrest).
      * rewrite (IH _ _ _ Hrest). now rewrite <- app_assoc.
Qed.

Lemma existsb_is_help (args : list string) :
  In "-help" args \/ In "--help" args -> existsb is_help args = true.
Proof.
  intros H. apply existsb_exists. destruct H as [H | H]; eexists; (split; [exact H | reflexivity]).
Qed.

(** X16.  A command line that contains "-help" or "--help" ends the
    process in [exit(0)] whatever else it contains and whatever the
    environment: no configuration is looked for, no input file is opened,
    nothing is written. *)
Theorem help_exits (L : Libm) (env : Environment) (can_open : string -> bool)
    (fuel : nat) (args : list string) :
  In "-help" args \/ In "--help" args ->
  parse_arguments env args = ([], Exited 0)
  /\ main_from_argv L env can_open fuel args
     = Some {| exit_code := 0; reported := []; error_channel := []; files := [] |}.
Proof.
  intros H.
  assert (E : parse_arguments env args = ([], Exited 0)).
  { unfold parse_arguments. destruct args as [| a rest]; [destruct H as [[] | []] |].
    now rewrite (scan_help _ _ _ _ (existsb_is_help _ H)). }
  split; [exact E |]. unfold main_from_argv. now rewrite E.
Qed.

Lemma help_exits_witness :
  parse_arguments Cases.bare ["-config=run.py"; "a.out"; "--help"; "b.out"]
  = ([], Exited 0)
  /\ main_from_argv RefLibm.libm Cases.bare Inputs.all_readable 20
       ["-config=run.py"; "a.out"; "--help"; "b.out"]
     = Some {| exit_code := 0; reported := []; error_channel := []; files := [] |}.
Proof.
  apply (help_exits RefLibm.libm Cases.bare Inputs.all_readable 20
           ["-config=run.py"; "a.out"; "--help"; "b.out"]).
  right. cbn. tauto.
Defined.

(** X17.  A command line without a request for help and without any
    input file (options only) fails with "No input files provided" and
    exit code 1, whatever the environment: the test comes before the
    configuration file is looked for. *)
Theorem options_only_fails (L : Libm) (env : Environment) (can_open : string -> bool)
    (fuel : nat) (args : list string) :
  args <> [] ->
  existsb is_help args = false ->
  filter is_input_file args = [] ->
  parse_arguments env args = ([], Ended (Thrown "No input files provided"))
  /\ main_from_argv L env can_open fuel args
     = Some {| exit_code := 1; reported := [];
               error_channel := ["Error: No input files provided"]; files := [] |}.
Proof.
  intros Hargs Hhelp Hfiles.
  assert (E : parse_arguments env args
              = ([], Ended (Thrown "No input files provided"))).
  { unfold parse_arguments. destruct args as [| a rest]; [congruence |].
    rewrite (scan_scanned _ _ _ _ Hhelp), Hfiles. reflexivity. }
  split; [exact E |]. unfold main_from_argv. now rewrite E.
Qed.

Lemma options_only_fails_witness :
  parse_arguments Cases.home_only ["-no-interactive"; "-config=empty.py"]
  = ([], Ended (Thrown "No input files provided"))
  /\ main_from_argv RefLibm.libm Cases.home_only Inputs.all_readable 20
       ["-no-interactive"; "-config=empty.py"]
     = Some {| exit_code := 1; reported := [];
               error_channel := ["Error: No input files provided"]; files := [] |}.
Proof.
  apply (options_only_fails RefLibm.libm Cases.home_only Inputs.all_readable 20
           ["-no-interactive"; "-config=empty.py"]);
    [discriminate | reflexivity | reflexivity].
Defined.

(** The interpreter has written nothing when the configuration is
    read. *)
Lemma read_config_file_quiet (env : Environment) (path : string)
    (python_errors : list string) (config : PlotSpecParams) :
  read_config_file env path = (python_errors, Ended (Returned config)) ->
  python_errors = [].
Proof.
  unfold read_config_file. destruct (negb (python_starts env)); [discriminate |].
  destruct (import_config env path); try discriminate. now intros [= <- _].
Qed.

Lemma parse_arguments_returned (env : Environment) (args : list string)
    (params : PlotSpecParams) :
  snd (parse_arguments env args) = Ended (Returned params) ->
  existsb is_help args = false
  /\ filter is_input_file args <> []
  /\ exists path config,
       (if chosen_config args =? "" then find_config_file env
        else Returned (chosen_config args)) = Returned path
       /\ read_config_file env path = ([], Ended (Returned config))
       /\ params
          = with_command_line config (filter is_input_file args)
              (negb (existsb (fun arg => arg =? "-no-interactive") args))
       /\ parse_arguments env args = ([], Ended (Returned params)).
Proof.
  unfold parse_arguments. destruct args as [| a rest]; [discriminate |].
  destruct (existsb is_help (a :: rest)) eqn:Hh.
  { now rewrite (scan_help _ _ _ _ Hh). }
  rewrite (scan_scanned _ _ _ _ Hh). cbn [app andb].
  fold (chosen_config (a :: rest)).
  destruct (filter is_input_file (a :: rest)) as [| f fs] eqn:Ef; [discriminate |].
  intros H. split; [reflexivity |]. split; [discriminate |].
  destruct (if chosen_config (a :: rest) =? "" then find_config_file env
            else Returned (chosen_config (a :: rest))) as [path | | |] eqn:Ep;
    try discriminate.
  destruct (read_config_file env path) as [python_errors [[config | | |] | status]] eqn:Ec;
    try discriminate.
  pose proof (read_config_file_quiet _ _ _ _ Ec) as ->.
  cbn [snd] in H. injection H as <-. now exists path, config.
Qed.

Lemma with_command_line_legend_length (config : PlotSpecParams) (input_files : list string)
    (interactive_flag : bool) :
  List.length (legend_names (with_command_line config input_files interactive_flag))
  = List.length input_files.
Proof.
  cbn [with_command_line legend_names].
  destruct (List.length (legend_names config) =? 0)%nat eqn:E0; cbn [orb];
    [apply length_map |].
  destruct (List.length (legend_names config) =? List.length input_files)%nat eqn:El;
    cbn [negb]; [now apply Nat.eqb_eq | apply length_map].
Qed.

(** X18.  What [parse_arguments] returns: the input files are the
    arguments that are not options, in the order given, and there is at
    least one; the viewer is interactive unless "-no-interactive" occurs;
    there are as many legend names as input files: those of the
    configuration when it has exactly that many, the stems of the input
    files otherwise; and mode, unit, range, interval and output settings
    are those of the configuration file. *)
Theorem parsed_command_line (env : Environment) (args : list string)
    (params : PlotSpecParams) :
  snd (parse_arguments env args) = Ended (Returned params) ->
  input_filenames params = filter is_input_file args
  /\ input_filenames params <> []
  /\ interactive params = negb (existsb (fun arg => arg =? "-no-interactive") args)
  /\ List.length (legend_names params) = List.length (input_filenames params)
  /\ exists path config,
       read_config_file env path = ([], Ended (Returned config))
       /\ legend_names params
          = (if (List.length (legend_names config) =? List.length (input_filenames params))%nat
             then legend_names config
             else map path_stem (input_filenames params))
       /\ (mode params, unit params, x_start params, x_end params, interval params)
          = (mode config, unit config, x_start config, x_end config, interval config)
       /\ (output_format params, output_filename params)
          = (output_format config, output_filename config).
Proof.
  intros H. destruct (parse_arguments_returned env args params H)
    as [_ [Hfiles [path [config [_ [Hc [-> _]]]]]]].
  cbn [with_command_line input_filenames interactive legend_names mode unit x_start x_end
       interval output_format output_filename].
  set (inputs := filter is_input_file args) in *.
  assert (Hlegend :
            (if (List.length (legend_names config) =? 0)%nat
                || negb (List.length (legend_names config) =? List.length inputs)%nat
             then map path_stem inputs else legend_names config)
            = (if (List.length (legend_names config) =? List.length inputs)%nat
               then legend_names config else map path_stem inputs)).
  { destruct (List.length (legend_names config) =? List.length inputs)%nat eqn:El.
    - apply Nat.eqb_eq in El.
      destruct (List.length (legend_names config) =? 0)%nat eqn:E0; [| reflexivity].
      apply Nat.eqb_eq in E0. rewrite E0 in El. symmetry in El.
      apply length_zero_iff_nil in El. contradiction.
    - now rewrite orb_true_r. }
  split; [reflexivity |]. split; [exact Hfiles |]. split; [reflexivity |].
  split.
  - rewrite Hlegend.
    destruct (List.length (legend_names config) =? List.length inputs)%nat eqn:El.
    + now apply Nat.eqb_eq.
    + apply length_map.
  - exists path, config. repeat split; [exact Hc | exact Hlegend].
Qed.

(** X19.  The default legend: when the configuration sets no legend
    names, the curve of an input file [dir/base.ext] (or [base.ext]) is
    labelled [base], the file name without its directory and without its
    last extension. *)
Theorem default_legend_names (config : PlotSpecParams)
    (parts : list (string * string * string)) (interactive_flag : bool) :
  legend_names config = [] ->
  Forall plain_parts parts ->
  legend_names (with_command_line config (map joined_path parts) interactive_flag)
  = map base_of parts.
Proof.
  intros Hnone Hparts. cbn [with_command_line legend_names]. rewrite Hnone.
  cbn [List.length Nat.eqb orb]. rewrite map_map.
  apply map_ext_in. intros part Hin. apply path_stem_joined.
  exact (proj1 (Forall_forall _ _) Hparts part Hin).
Qed.

Lemma default_legend_names_witness :
  legend_names
    (with_command_line default_params
       (map joined_path [("runs/2024/", "benzene.td", "out"); ("", "water", "log")]) true)
  = map base_of [("runs/2024/", "benzene.td", "out"); ("", "water", "log")].
Proof.
  apply (default_legend_names default_params
           [("runs/2024/", "benzene.td", "out"); ("", "water", "log")] true).
  - reflexivity.
  - repeat constructor; try discriminate; try reflexivity; intros [H _]; discriminate H.
Defined.

Lemma read_config_file_same (env env' : Environment) (path : string) :
  same_interpreter env env' -> read_config_file env path = read_config_file env' path.
Proof. intros [Hp Hi]. unfold read_config_file. now rewrite Hp, Hi. Qed.

(** X20.  With a non-empty [-config=] option (the last one counts) the
    search for a configuration file does not take place: the outcome of
    [parse_arguments] is the same in two environments with the same
    interpreter, whatever files exist and whatever [HOME] is. *)
Theorem explicit_config_skips_search (env env' : Environment) (args : list string) :
  chosen_config args <> "" ->
  same_interpreter env env' ->
  parse_arguments env args = parse_arguments env' args.
Proof.
  intros Hc Hsame. unfold parse_arguments. destruct args as [| a rest]; [reflexivity |].
  destruct (existsb is_help (a :: rest)) eqn:Hh.
  { now rewrite !(scan_help _ _ _ _ Hh). }
  rewrite !(scan_scanned _ _ _ _ Hh). fold (chosen_config (a :: rest)).
  apply String.eqb_neq in Hc. rewrite Hc.
  destruct (([] ++ filter is_input_file (a :: rest))%list); [reflexivity |].
  now rewrite (read_config_file_same env env' _ Hsame).
Qed.

(** X21.  Without a usable [-config=] option and with no
    [spectrum_config.py] in the current directory nor in [HOME], a
    command line with input files fails with the "Config file not found"
    message and exit code 1; no input file is opened. *)
Theorem missing_config_fails (L : Libm) (env : Environment) (can_open : string -> bool)
    (fuel : nat) (args : list string) :
  existsb is_help args = false ->
  filter is_input_file args <> [] ->
  chosen_config args = "" ->
  file_exists env "./spectrum_config.py" = false ->
  (forall home_dir, home env = Some home_dir ->
     file_exists env (home_dir ++ "/spectrum_config.py") = false) ->
  main_from_argv L env can_open fuel args
  = Some (failed "Config file not found. Please create spectrum_config.py in current directory or home directory.").
Proof.
  intros Hh Hfiles Hc Hlocal Hhome. unfold main_from_argv, parse_arguments.
  destruct args as [| a rest]; [now elim Hfiles |].
  rewrite (scan_scanned _ _ _ _ Hh). fold (chosen_config (a :: rest)). rewrite Hc.
  destruct (([] ++ filter is_input_file (a :: rest))%list) eqn:Ef; [now elim Hfiles |].
  cbn [String.eqb]. unfold find_config_file. rewrite Hlocal.
  destruct (home env) as [home_dir |]; [| reflexivity].
  now rewrite (Hhome home_dir eq_refl).
Qed.

Lemma parsed_command_line_witness :
  input_filenames Cases.parsed_sample = filter is_input_file Cases.sample_args
  /\ input_filenames Cases.parsed_sample <> []
  /\ interactive Cases.parsed_sample
     = negb (existsb (fun arg => arg =? "-no-interactive") Cases.sample_args)
  /\ List.length (legend_names Cases.parsed_sample)
     = List.length (input_filenames Cases.parsed_sample)
  /\ exists path config,
       read_config_file Cases.home_only path = ([], Ended (Returned config))
       /\ legend_names Cases.parsed_sample
          = (if (List.length (legend_names config)
                 =? List.length (input_filenames Cases.parsed_sample))%nat
             then legend_names config
             else map path_stem (input_filenames Cases.parsed_sample))
       /\ (mode Cases.parsed_sample, unit Cases.parsed_sample, x_start Cases.parsed_sample,
           x_end Cases.parsed_sample, interval Cases.parsed_sample)
          = (mode config, unit config, x_start config, x_end config, interval config)
       /\ (output_format Cases.parsed_sample, output_filename Cases.parsed_sample)
          = (output_format config, output_filename config).
Proof.
  apply (parsed_command_line Cases.home_only Cases.sample_args Cases.parsed_sample).
  vm_compute. reflexivity.
Defined.

Lemma explicit_config_skips_search_witness :
  parse_arguments Cases.home_only ["-config=empty.py"; "a.out"]
  = parse_arguments Cases.bare ["-config=empty.py"; "a.out"].
Proof.
  apply (explicit_config_skips_search Cases.home_only Cases.bare
           ["-config=empty.py"; "a.out"]).
  - discriminate.
  - split; [reflexivity | intros path; reflexivity].
Defined.

Lemma missing_config_fails_witness :
  main_from_argv RefLibm.libm Cases.bare Inputs.all_readable 20 ["a.out"; "b.out"]
  = Some (failed "Config file not found. Please create spectrum_config.py in current directory or home directory.").
Proof.
  apply (missing_config_fails RefLibm.libm Cases.bare Inputs.all_readable 20
           ["a.out"; "b.out"]);
    [reflexivity | discriminate | reflexivity | reflexivity | intros h H; discriminate H].
Defined.

(** X22.  A run started from a command line that [parse_arguments]
    accepts, with [x_start] not above [x_end + 1e-8], has no undefined
    behaviour: the synthesis returns, throws or is still running, and so
    does the chart step on what the synthesis returns; if the process
    has no outcome, it is because the abscissa loop or a tick loop is
    still running. *)
Theorem command_line_run_defined (L : Libm) (env : Environment)
    (can_open : string -> bool) (fuel : nat) (args : list string)
    (params : PlotSpecParams) :
  snd (parse_arguments env args) = Ended (Returned params) ->
  (x_start params <=? x_end params + 1e-8)%float = true ->
  calculate_multiple_spectra L can_open fuel params <> Undefined
  /\ (forall spectra,
        calculate_multiple_spectra L can_open fuel params = Returned spectra ->
        create_and_export_multiple_plots L fuel spectra params <> Undefined)
  /\ (main_from_argv L env can_open fuel args = None ->
      calculate_multiple_spectra L can_open fuel params = Diverged
      \/ exists spectra,
           calculate_multiple_spectra L can_open fuel params = Returned spectra
           /\ create_and_export_multiple_plots L fuel spectra params = Diverged).
Proof.
  intros Hparse Hgrid.
  destruct (parse_arguments_returned env args params Hparse)
    as [_ [Hfiles [path [config [_ [_ [Hp Hpair]]]]]]].
  assert (Hin : input_filenames params <> []) by (rewrite Hp; exact Hfiles).
  assert (Hlen : List.length (legend_names params) = List.length (input_filenames params)).
  { rewrite Hp. apply with_command_line_legend_length. }
  destruct (GridEdgeFacts.run_defined L can_open fuel params Hin Hlen Hgrid) as [Hc Hchart].
  split; [exact Hc |]. split; [intros spectra Hs; now apply Hchart |]. intros Hnone.
  unfold main_from_argv in Hnone. rewrite Hpair in Hnone. unfold main in Hnone.
  destruct (input_filenames params) as [| f rest]; [congruence |].
  destruct (calculate_multiple_spectra L can_open fuel params) as [spectra | what | |];
    [| discriminate Hnone | now left | congruence].
  right. exists spectra. split; [reflexivity |].
  destruct (Hchart spectra eq_refl) as [_ [_ [_ [_ Hdef]]]].
  destruct (create_and_export_multiple_plots L fuel spectra params) as [run | what | |];
    [discriminate Hnone | discriminate Hnone | reflexivity | congruence].
Qed.

(** The run of [Cases.sample_args] goes through the synthesis and the
    chart step, with every access they make, and exits with code 0. *)
Lemma command_line_run_defined_witness :
  (calculate_multiple_spectra RefLibm.libm Inputs.all_readable 1000 Cases.parsed_sample
   <> Undefined
   /\ (forall spectra,
         calculate_multiple_spectra RefLibm.libm Inputs.all_readable 1000
           Cases.parsed_sample = Returned spectra ->
         create_and_export_multiple_plots RefLibm.libm 1000 spectra Cases.parsed_sample
         <> Undefined)
   /\ (main_from_argv RefLibm.libm Cases.home_only Inputs.all_readable 1000
         Cases.sample_args = None ->
       calculate_multiple_spectra RefLibm.libm Inputs.all_readable 1000
         Cases.parsed_sample = Diverged
       \/ exists spectra,
            calculate_multiple_spectra RefLibm.libm Inputs.all_readable 1000
              Cases.parsed_sample = Returned spectra
            /\ create_and_export_multiple_plots RefLibm.libm 1000 spectra
                 Cases.parsed_sample = Diverged))
  /\ option_map (fun r => (exit_code r, error_channel r, List.length (files r)))
       (main_from_argv RefLibm.libm Cases.home_only Inputs.all_readable 1000
          Cases.sample_args)
     = Some (0%Z, [], 1%nat).
Proof.
  split.
  - apply (command_line_run_defined RefLibm.libm Cases.home_only Inputs.all_readable 1000
             Cases.sample_args Cases.parsed_sample).
    + vm_compute. reflexivity.
    + reflexivity.
  - vm_compute. reflexivity.
Defined.
End CommandLineFacts.

(** ** The configuration file *)

Module ConfigFacts.
Import Double DoubleFacts LoopFacts GridFacts Terms TextFacts CommandLineFacts.
Open Scope float_scope.

(** X23.  A configuration file named on the command line whose import
    fails ends the process without opening an input file or writing
    anything.  When the script raises an exception, the interpreter
    writes its traceback to the error channel, then the program adds
    "Error: Failed to import config file:" with the path as given, and
    exits with code 1.  When the script raises [SystemExit], the process
    ends inside [PyErr_Print] with the status of the script, and the
    error channel holds only what the interpreter wrote. *)
Theorem broken_config_fails (L : Libm) (env : Environment) (can_open : string -> bool)
    (fuel : nat) (args : list string) :
  existsb is_help args = false ->
  filter is_input_file args <> [] ->
  chosen_config args <> ""%string ->
  python_starts env = true ->
  (forall traceback,
     import_config env (chosen_config args) = ImportError traceback ->
     main_from_argv L env can_open fuel args
     = Some {| exit_code := 1; reported := [];
               error_channel :=
                 (traceback
                  ++ [("Error: Failed to import config file: "
                         ++ chosen_config args)%string])%list;
               files := [] |})
  /\ (forall status message,
        import_config env (chosen_config args) = SystemExit status message ->
        main_from_argv L env can_open fuel args
        = Some {| exit_code := status; reported := [];
                  error_channel := message; files := [] |}).
Proof.
  intros Hh Hfiles Hc Hp.
  assert (E : parse_arguments env args = read_config_file env (chosen_config args)
              \/ exists params, snd (read_config_file env (chosen_config args))
                                = Ended (Returned params)).
  { unfold parse_arguments. destruct args as [| a rest]; [now elim Hfiles |].
    rewrite (scan_scanned _ _ _ _ Hh). fold (chosen_config (a :: rest)).
    apply String.eqb_neq in Hc. rewrite Hc.
    destruct (([] ++ filter is_input_file (a :: rest))%list) eqn:Ef; [now elim Hfiles |].
    destruct (read_config_file env (chosen_config (a :: rest)))
      as [python_errors [[params | | |] | status]]; [right; now exists params | | | |];
      now left. }
  split.
  - intros traceback Hi.
    assert (R : read_config_file env (chosen_config args)
                = (traceback,
                   Ended (Thrown ("Failed to import config file: " ++ chosen_config args))))
      by (unfold read_config_file; now rewrite Hp, Hi).
    unfold main_from_argv. destruct E as [E | [params E]];
      [rewrite E, R; reflexivity | rewrite R in E; discriminate E].
  - intros status message Hi.
    assert (R : read_config_file env (chosen_config args) = (message, Exited status))
      by (unfold read_config_file; now rewrite Hp, Hi).
    unfold main_from_argv. destruct E as [E | [params E]];
      [rewrite E, R; reflexivity | rewrite R in E; discriminate E].
Qed.

Lemma broken_config_fails_witness :
  main_from_argv RefLibm.libm Cases.home_only Inputs.all_readable 20
    ["-config=absent.py"; "a.out"]%string
  = Some {| exit_code := 1; reported := [];
            error_channel :=
              ["Traceback (most recent call last):";
               "ModuleNotFoundError: No module named absent";
               "Error: Failed to import config file: absent.py"]%string;
            files := [] |}
  /\ main_from_argv RefLibm.libm Cases.home_only Inputs.all_readable 20
       ["a.out"; "-config=quits.py"]%string
     = Some {| exit_code := 3; reported := []; error_channel := []; files := [] |}.
Proof.
  split.
  - exact (proj1 (broken_config_fails RefLibm.libm Cases.home_only Inputs.all_readable 20
                    ["-config=absent.py"; "a.out"]%string
                    eq_refl ltac:(discriminate) ltac:(discriminate) eq_refl)
             ["Traceback (most recent call last):";
              "ModuleNotFoundError: No module named absent"]%string eq_refl).
  - exact (proj2 (broken_config_fails RefLibm.libm Cases.home_only Inputs.all_readable 20
                    ["a.out"; "-config=quits.py"]%string
                    eq_refl ltac:(discriminate) ltac:(discriminate) eq_refl)
             3%Z [] eq_refl).
Defined.

Lemma read_config_file_returns (env : Environment) (path : string)
    (module_dict : string -> option PyObject) :
  python_starts env = true -> import_config env path = Imported module_dict ->
  exists config,
    read_config_file env path = ([], Ended (Returned config))
    /\ mode config = configured module_dict "mode" get_python_string "abs"%string
    /\ unit config = configured module_dict "unit" get_python_string "nm"%string
    /\ x_start config = configured module_dict "x_start" get_python_double 200
    /\ x_end config = configured module_dict "x_end" get_python_double 1000
    /\ user_set_interval config
       = match module_dict "interval"%string with Some _ => true | None => false end
    /\ interval config
       = match module_dict "interval"%string with
         | Some obj => get_python_double obj
         | None =>
             if (unit config =? "cm-1")%string then 100
             else if (unit config =? "eV")%string then 0.01
             else 1
         end
    /\ legend_names config
       = configured module_dict "legend_names" get_python_string_list [].
Proof.
  intros Hp Hi. unfold read_config_file. rewrite Hp, Hi. cbn [negb].
  eexists. split; [reflexivity |].
  cbn [mode unit x_start x_end user_set_interval interval legend_names default_params].
  repeat split. unfold configured.
  destruct (module_dict "interval"%string); reflexivity.
Qed.

(** X24.  Reading a configuration: the interval is the one the file
    sets; when the file sets none it follows the unit the file sets (or
    the default unit): 100 for "cm-1", 0.01 for "eV" and 1 for anything
    else, unrecognised units included.  A file that sets nothing yields
    the defaults of [PlotSpecParams]. *)
Theorem default_interval_follows_unit (env : Environment) (path : string)
    (module_dict : string -> option PyObject) :
  python_starts env = true -> import_config env path = Imported module_dict ->
  exists config,
    read_config_file env path = ([], Ended (Returned config))
    /\ unit config = configured module_dict "unit" get_python_string "nm"%string
    /\ (module_dict "interval"%string = None ->
        user_set_interval config = false
        /\ interval config
           = if (unit config =? "cm-1")%string then 100
             else if (unit config =? "eV")%string then 0.01
             else 1)
    /\ (forall obj, module_dict "interval"%string = Some obj ->
        user_set_interval config = true /\ interval config = get_python_double obj)
    /\ ((forall key, module_dict key = None) -> config = default_params).
Proof.
  intros Hp Hi.
  destruct (read_config_file_returns env path module_dict Hp Hi)
    as [config [Hc [_ [Hu [_ [_ [Hs [Hv _]]]]]]]].
  exists config. split; [exact Hc |]. split; [exact Hu |].
  split; [| split].
  - intros Hn. rewrite Hn in Hs, Hv. now split.
  - intros obj Ho. rewrite Ho in Hs, Hv. now split.
  - intros Hnone. unfold read_config_file in Hc. rewrite Hp, Hi in Hc. cbn [negb] in Hc.
    unfold configured in Hc. rewrite !Hnone in Hc. injection Hc as <-. reflexivity.
Qed.

Lemma default_interval_follows_unit_witness :
  exists config,
    read_config_file Cases.home_only "/home/user/spectrum_config.py"
    = ([], Ended (Returned config))
    /\ unit config = configured Cases.sample_module "unit" get_python_string "nm"%string
    /\ (Cases.sample_module "interval"%string = None ->
        user_set_interval config = false
        /\ interval config
           = if (unit config =? "cm-1")%string then 100
             else if (unit config =? "eV")%string then 0.01
             else 1)
    /\ (forall obj, Cases.sample_module "interval"%string = Some obj ->
        user_set_interval config = true /\ interval config = get_python_double obj)
    /\ ((forall key, Cases.sample_module key = None) -> config = default_params).
Proof.
  apply (default_interval_follows_unit Cases.home_only "/home/user/spectrum_config.py"
           Cases.sample_module); reflexivity.
Defined.

Lemma get_python_double_not_numeric (obj : PyObject) :
  numeric obj = false -> get_python_double obj = 0.
Proof. destruct obj; cbn; intros H; try reflexivity; discriminate H. Qed.

(** X25.  An interval that is not a Python number (a string such as
    "0.5", a list, [None]) is read as 0 and counts as set by the user, so
    no default replaces it; with [x_start] at most [x_end + 1e-8] the
    abscissa loop of such a run never ends. *)
Theorem interval_not_a_number (env : Environment) (path : string)
    (module_dict : string -> option PyObject) (obj : PyObject)
    (input_files : list string) (interactive_flag : bool) :
  python_starts env = true -> import_config env path = Imported module_dict ->
  module_dict "interval"%string = Some obj -> numeric obj = false ->
  exists config,
    read_config_file env path = ([], Ended (Returned config))
    /\ interval config = 0
    /\ user_set_interval config = true
    /\ ((x_start config <=? x_end config + 1e-8) = true ->
        (x_start config <? infinity) = true ->
        forall fuel,
          generate_x_values fuel (with_command_line config input_files interactive_flag)
          = None).
Proof.
  intros Hp Hi Ho Hn.
  destruct (read_config_file_returns env path module_dict Hp Hi)
    as [config [Hc [_ [_ [_ [_ [Hs [Hv _]]]]]]]].
  rewrite Ho in Hs, Hv. rewrite (get_python_double_not_numeric obj Hn) in Hv.
  exists config. split; [exact Hc |]. split; [exact Hv |]. split; [exact Hs |].
  intros Hle Hfin fuel. unfold generate_x_values.
  cbn [with_command_line x_start x_end interval]. rewrite Hv.
  apply push_while_le_diverges. intros k.
  apply leb_trans with (y := x_start config); [| exact Hle].
  apply after_steps_nonpos; [reflexivity | exact Hfin].
Qed.

Lemma interval_not_a_number_witness :
  exists config,
    read_config_file Cases.home_only "quoted.py"
    = ([], Ended (Returned config))
    /\ interval config = 0
    /\ user_set_interval config = true
    /\ ((x_start config <=? x_end config + 1e-8) = true ->
        (x_start config <? infinity) = true ->
        forall fuel,
          generate_x_values fuel (with_command_line config ["a.out"%string] true) = None).
Proof.
  apply (interval_not_a_number Cases.home_only "quoted.py" Cases.quoted_interval_module
           (PyUnicode "0.5") ["a.out"%string] true); reflexivity.
Defined.

Lemma existsb_map_compose {A B : Type} (f : B -> bool) (g : A -> B) (l : list A) :
  existsb f (map g l) = existsb (fun a => f (g a)) l.
Proof. induction l as [| a l IH]; cbn; [reflexivity | now rewrite IH]. Qed.

Lemma filter_length_lt {A : Type} (f : A -> bool) (l : list A) :
  existsb (fun a => negb (f a)) l = true -> (List.length (filter f l) < List.length l)%nat.
Proof.
  induction l as [| a l IH]; [discriminate |]. cbn [existsb filter List.length].
  pose proof (filter_length_le f l) as Hle.
  destruct (f a); cbn [negb orb List.length]; [intros H; specialize (IH H); lia | intros _; lia].
Qed.

(** X26.  Legend names that are not strings, or are empty, are dropped
    from the configured list; a list with as many entries as input files
    but one such entry among them therefore comes out too short, and all
    its names are replaced by the stems of the input files. *)
Theorem blank_legend_name_discards_all (env : Environment) (path : string)
    (module_dict : string -> option PyObject) (items : list PyObject)
    (input_files : list string) (interactive_flag : bool) :
  python_starts env = true -> import_config env path = Imported module_dict ->
  module_dict "legend_names"%string = Some (PyList items) ->
  List.length items = List.length input_files ->
  existsb (fun item => (get_python_string item =? "")%string) items = true ->
  exists config,
    read_config_file env path = ([], Ended (Returned config))
    /\ Forall (fun name => name <> ""%string) (legend_names config)
    /\ (List.length (legend_names config) < List.length input_files)%nat
    /\ legend_names (with_command_line config input_files interactive_flag)
       = map path_stem input_files.
Proof.
  intros Hp Hi Hl Hlen Hblank.
  destruct (read_config_file_returns env path module_dict Hp Hi)
    as [config [Hc [_ [_ [_ [_ [_ [_ Hnames]]]]]]]].
  unfold configured in Hnames. rewrite Hl in Hnames. cbn [get_python_string_list] in Hnames.
  assert (Hshort : (List.length (legend_names config) < List.length input_files)%nat).
  { rewrite Hnames, <- Hlen, <- (length_map get_python_string items).
    apply filter_length_lt. rewrite existsb_map_compose.
    rewrite <- Hblank. clear. induction items as [| item items IH]; [reflexivity |].
    cbn [existsb]. now rewrite IH, negb_involutive. }
  exists config. split; [exact Hc |]. split; [| split; [exact Hshort |]].
  - rewrite Hnames. apply Forall_forall. intros name Hin. apply filter_In in Hin.
    destruct Hin as [_ Hne]. apply negb_true_iff in Hne. now apply String.eqb_neq.
  - cbn [with_command_line legend_names].
    assert (E : (List.length (legend_names config) =? List.length input_files)%nat = false)
      by (apply Nat.eqb_neq; lia).
    rewrite E. cbn [negb]. now rewrite orb_true_r.
Qed.

Lemma blank_legend_name_discards_all_witness :
  exists config,
    read_config_file Cases.home_only "/home/user/spectrum_config.py"
    = ([], Ended (Returned config))
    /\ Forall (fun name => name <> ""%string) (legend_names config)
    /\ (List.length (legend_names config) < 3)%nat
    /\ legend_names
         (with_command_line config ["s0.out"; "runs/s1.out"; "s2"]%string false)
       = map path_stem ["s0.out"; "runs/s1.out"; "s2"]%string.
Proof.
  apply (blank_legend_name_discards_all Cases.home_only "/home/user/spectrum_config.py"
           Cases.sample_module [PyUnicode "ground"; PyUnicode ""; PyLong 3]
           ["s0.out"; "runs/s1.out"; "s2"]%string false); reflexivity.
Defined.

Lemma c_string_prefix (bytes : string) :
  exists rest, bytes = (c_string bytes ++ rest)%string.
Proof.
  induction bytes as [| c bytes [rest IH]]; [now exists ""%string |].
  cbn [c_string]. destruct (Ascii.eqb c zero).
  - now exists (String c bytes).
  - exists rest. cbn [append]. now rewrite <- IH.
Qed.

Lemma c_string_no_nul (bytes : string) : occurs zero (c_string bytes) = false.
Proof.
  induction bytes as [| c bytes IH]; [reflexivity |]. cbn [c_string].
  destruct (Ascii.eqb c zero) eqn:E; [reflexivity |]. cbn [occurs]. now rewrite E, IH.
Qed.

Lemma c_string_id (bytes : string) : occurs zero bytes = false -> c_string bytes = bytes.
Proof.
  induction bytes as [| c bytes IH]; [reflexivity |]. cbn [occurs c_string]. intros H.
  apply orb_false_iff in H. destruct H as [Hc Hb]. now rewrite Hc, (IH Hb).
Qed.

(** X27.  A string read from the configuration never contains a NUL
    byte: a Python string is cut at its first NUL, and one without NUL is
    read unchanged; an object that is not a string is read as the empty
    string. *)
Theorem get_python_string_cut_at_nul (obj : PyObject) :
  occurs zero (get_python_string obj) = false
  /\ (forall utf8, obj = PyUnicode utf8 ->
        (exists rest, utf8 = (get_python_string obj ++ rest)%string)
        /\ (occurs zero utf8 = false -> get_python_string obj = utf8))
  /\ ((forall utf8, obj <> PyUnicode utf8) -> get_python_string obj = ""%string).
Proof.
  split; [| split].
  - destruct obj; cbn [get_python_string]; try reflexivity. apply c_string_no_nul.
  - intros utf8 ->. cbn [get_python_string]. split; [apply c_string_prefix | apply c_string_id].
  - intros H. destruct obj; try reflexivity. now elim (H utf8).
Qed.

End ConfigFacts.
